(** * bazel-gazelle: the dep importer and autogazelle

    A shallow embedding of
    - [language/go/dep.go]: [importReposFromDep] and [ruleUsingGoProxy];
    - [cmd/autogazelle/autogazelle.go]: [runGazelle], [restoreBuildFilesInDir],
      [restoreFile] and [walkWorkspace];
    followed by the properties of these functions.

    Go strings are byte strings, modelled by [string] (a list of 8-bit
    [ascii]).  Errors are modelled by their message.  Side effects (HTTP
    requests, sleeps, file system operations, log lines, child processes) are
    threaded through explicit states that also record a trace of the effects
    performed. *)

From Stdlib Require Import ZArith Lia Sorted Permutation Ascii.
From stdpp Require Import base option list strings gmap sorting.

(** ** Results and outcomes *)

(** A Go pair [(value, error)] of which exactly one component is meaningful. *)
Inductive result (A : Type) : Type :=
  | Ok (a : A)
  | Err (e : string).
Arguments Ok {A} a.
Arguments Err {A} e.

(** What a Go call does in the end: it returns, or the process dies in a
    [panic]. *)
Inductive Outcome (A : Type) : Type :=
  | Returned (a : A)
  | Panicked (e : string).
Arguments Returned {A} a.
Arguments Panicked {A} e.

(** ** Go's [strings] package and string operators *)
Module GoStrings.

Definition nl : string := String "010"%char EmptyString.

(** [s[:n]] and [s[n:]] for [n <= len(s)]. *)
Definition slice_to (s : string) (n : nat) : string := String.substring 0 n s.

Definition slice_from (s : string) (n : nat) : string :=
  String.substring n (String.length s - n) s.

(** [strings.HasPrefix(s, prefix)]:
    [len(s) >= len(prefix) && s[:len(prefix)] == prefix]. *)
Definition HasPrefix (s prefix : string) : bool :=
  (String.length prefix <=? String.length s)
  && String.eqb (slice_to s (String.length prefix)) prefix.

(** [strings.HasSuffix(s, suffix)]:
    [len(s) >= len(suffix) && s[len(s)-len(suffix):] == suffix]. *)
Definition HasSuffix (s suffix : string) : bool :=
  (String.length suffix <=? String.length s)
  && String.eqb (slice_from s (String.length s - String.length suffix)) suffix.

(** [strings.TrimSuffix(s, suffix)]. *)
Definition TrimSuffix (s suffix : string) : string :=
  if HasSuffix s suffix
  then slice_to s (String.length s - String.length suffix)
  else s.

(** [c >= utf8.RuneSelf] fails for every byte of the string. *)
Definition isASCIIByte (c : ascii) : bool := (Ascii.nat_of_ascii c <? 128).

Fixpoint isASCII (s : string) : bool :=
  match s with
  | EmptyString => true
  | String c s' => isASCIIByte c && isASCII s'
  end.

(** ['A' <= c && c <= 'Z'] then [c += 'a' - 'A']. *)
Definition lowerByte (c : ascii) : ascii :=
  let n := Ascii.nat_of_ascii c in
  if (65 <=? n) && (n <=? 90) then Ascii.ascii_of_nat (n + 32) else c.

Fixpoint mapBytes (f : ascii → ascii) (s : string) : string :=
  match s with
  | EmptyString => EmptyString
  | String c s' => String (f c) (mapBytes f s')
  end.

(** [strings.ToLower]: a string made of ASCII bytes only is lowered byte by
    byte; any other string goes through [strings.Map(unicode.ToLower, s)],
    which is taken as the parameter [unicodeLower]. *)
Definition ToLower (unicodeLower : string → string) (s : string) : string :=
  if isASCII s then mapBytes lowerByte s else unicodeLower s.

(** The operator [<] on strings: byte-wise lexicographic order. *)
Definition less (a b : string) : bool := String.ltb a b.

(** [strings.Join(l, sep)]. *)
Fixpoint Join (l : list string) (sep : string) : string :=
  match l with
  | [] => ""
  | [a] => a
  | a :: l' => a +:+ sep +:+ Join l' sep
  end.

End GoStrings.

(** ** [sort.SliceStable] *)
Module GoSort.
Section Sort.
Context {A : Type} (less : A → A → bool).

(** The inner loop of the sort package's insertion sort,
    [for j := i; j > a && less(j, j-1); j-- { swap(j, j-1) }],
    on the already sorted elements left of position [i], nearest first. *)
Fixpoint bubbleLeft (x : A) (left : list A) : list A :=
  match left with
  | [] => [x]
  | y :: left' =>
      if less x y then y :: bubbleLeft x left' else x :: y :: left'
  end.

(** The outer loop [for i := a + 1; i < b; i++]: [sorted] holds the
    elements before position [i], nearest first. *)
Fixpoint insertionLoop (sorted todo : list A) : list A :=
  match todo with
  | [] => reverse sorted
  | x :: todo' => insertionLoop (bubbleLeft x sorted) todo'
  end.

(** [sort.SliceStable(x, less)], which "sorts the slice x using the
    provided less function, keeping equal elements in their original
    order".  On fewer than 20 elements the sort package runs exactly this
    insertion sort; a longer slice is insertion-sorted in blocks of 20 that
    are then merged in place.  The insertion sort is taken as the model for
    every length: [stable_sort_unique] shows that the quoted contract
    determines the sorted slice. *)
Definition SliceStable (l : list A) : list A := insertionLoop [] l.

(** [a] may stand before [b]: [b] is not less than [a]. *)
Definition ordered (a b : A) : Prop := less b a = false.

(** Neither is less than the other: the "equal elements" of the contract. *)
Definition tied (a b : A) : Prop := less a b = false ∧ less b a = false.

End Sort.
End GoSort.

(** ** Package [rule]: generated rules *)
Module rule.

Inductive AttrValue : Type :=
  | AttrString (s : string)
  | AttrStrings (l : list string).

(** Modelled from the spec: package [rule] is not among the sources.  A
    generated rule is a "(rule kind, rule name, ordered mapping of attribute
    name → value)". *)
Record Rule : Type := mkRule {
  Kind : string;
  Name : string;
  Attrs : list (string * AttrValue)
}.

(** Modelled from the spec: [rule.NewRule(kind, name)], a rule of that kind
    and name with no attribute set yet. *)
Definition NewRule (kind name : string) : Rule :=
  {| Kind := kind; Name := name; Attrs := [] |}.

Fixpoint setKey (key : string) (value : AttrValue)
    (attrs : list (string * AttrValue)) : list (string * AttrValue) :=
  match attrs with
  | [] => [(key, value)]
  | (k, v) :: attrs' =>
      if String.eqb k key then (k, value) :: attrs'
      else (k, v) :: setKey key value attrs'
  end.

(** Modelled from the spec: [r.SetAttr(key, value)] on the ordered mapping,
    replacing the value of a key that is present and appending a new key. *)
Definition SetAttr (key : string) (value : AttrValue) (r : Rule) : Rule :=
  {| Kind := Kind r; Name := Name r; Attrs := setKey key value (Attrs r) |}.

Fixpoint getKey (key : string) (attrs : list (string * AttrValue))
    : option AttrValue :=
  match attrs with
  | [] => None
  | (k, v) :: attrs' => if String.eqb k key then Some v else getKey key attrs'
  end.

(** Modelled from the spec: the value the ordered mapping of [r] gives to
    [key], if any. *)
Definition Attr (r : Rule) (key : string) : option AttrValue :=
  getKey key (Attrs r).

End rule.

(** ** Package [language]: arguments and result of an import *)
Module language.

(** The fields of [language.ImportReposArgs] that dep.go reads. *)
Record ImportReposArgs : Type := {
  Path : string;
  GoProxy : string;
  GoPrivate : string
}.

(** The fields of [language.ImportReposResult] that dep.go sets. *)
Record ImportReposResult : Type := {
  Gen : list rule.Rule;
  Error : option string
}.

End language.

(** ** [language/go/dep.go] *)
Module Dep.
Import GoStrings.
Import language.

Definition defaultGoProxyBase : string := "https://proxy.golang.org".

Record depProject : Type := {
  Name : string;
  Revision : string;
  Source : string
}.

Record depLockFile : Type := {
  Projects : list depProject
}.

(** An HTTP response as far as [ruleUsingGoProxy] reads it. *)
Record Response (Body : Type) : Type := {
  StatusCode : Z;
  Status : string;
  RespBody : Body
}.
Arguments StatusCode {Body} _.
Arguments Status {Body} _.
Arguments RespBody {Body} _.

Definition StatusOK : Z := 200.

(** What the importer does to the outside world. *)
Inductive Event : Type :=
  | EvGet (url : string)
  | EvSleep (seconds : Z)
  | EvPrint (line : string).

(** The collaborators of the importer that are not part of dep.go.
    [http_Get i k url] is what the [k]-th request of goroutine [i] returns;
    leaving it arbitrary covers every network behaviour and every
    interleaving of the goroutines' requests. *)
Class Env : Type := {
  Body : Type;
  ImportPathToBazelRepoName : string → string;
  path_Match : string → string → bool * option string;
  unicode_ToLower : string → string;
  ioutil_ReadFile : string → result string;
  toml_Unmarshal : string → result depLockFile;
  http_Get : nat → nat → string → result (Response Body);
  json_DecodeVersion : Body → result string;
  sha256_Copy : Body → result string
}.

(** The state of one goroutine: how many requests it made so far, and the
    effects it performed, oldest first. *)
Record TaskState : Type := {
  calls : nat;
  trace : list Event
}.

Definition initTask : TaskState := {| calls := 0; trace := [] |}.

Definition Task (A : Type) : Type := TaskState → A * TaskState.

#[global] Instance task_ret : MRet Task := λ A a st, (a, st).

#[global] Instance task_bind : MBind Task :=
  λ A B f m st, let '(a, st') := m st in f a st'.

Definition emit (e : Event) : Task unit :=
  λ st, (tt, {| calls := calls st; trace := trace st ++ [e] |}).

Section Importer.
Context `{E : Env}.

(** [http.Get(url)] issued by goroutine [i]. *)
Definition httpGet (i : nat) (url : string) : Task (result (Response Body)) :=
  λ st, (http_Get i (calls st) url,
         {| calls := S (calls st); trace := trace st ++ [EvGet url] |}).

(** Lines 111-121 of [ruleUsingGoProxy]: the module path asked of the
    proxy. *)
Definition proxyModuleName (project : depProject) : string :=
  let name := Name project in
  let name :=
    if negb (String.eqb (Source project) "") then
      let name := Source project in
      let name :=
        if HasSuffix name ".git"
        then slice_to name (String.length name - String.length ".git")
        else name in
      let name :=
        if HasPrefix name "https://"
        then slice_from name (String.length "https://")
        else name in
      name
    else name in
  ToLower unicode_ToLower name.

Definition infoURL (goProxyBase name revision : string) : string :=
  goProxyBase +:+ "/" +:+ name +:+ "/@v/" +:+ revision +:+ ".info".

Definition zipURL (goProxyBase name version : string) : string :=
  goProxyBase +:+ "/" +:+ name +:+ "/@v/" +:+ version +:+ ".zip".

Definition errorf (what name revision cause : string) : string :=
  "failed to " +:+ what +:+ " for " +:+ name +:+ "@" +:+ revision
  +:+ ": " +:+ cause.

(** [ruleUsingGoProxy(goProxyBase, project, r)], run by goroutine [i]: the
    rule [r] points to after the call, and the error returned. *)
Definition ruleUsingGoProxy (i : nat) (goProxyBase : string)
    (project : depProject) (r : rule.Rule) : Task (rule.Rule * option string) :=
  let name := proxyModuleName project in
  resp ← httpGet i (infoURL goProxyBase name (Revision project));
  match resp with
  | Err err => mret (r, Some (errorf "fetch info" name (Revision project) err))
  | Ok resp =>
    if negb (StatusCode resp =? StatusOK)%Z then
      mret (r, Some (errorf "fetch info" name (Revision project) (Status resp)))
    else
      match json_DecodeVersion (RespBody resp) with
      | Err err =>
          mret (r, Some (errorf "decode response" name (Revision project) err))
      | Ok version =>
        let zip := zipURL goProxyBase name version in
        resp ← httpGet i zip;
        match resp with
        | Err err =>
            mret (r, Some (errorf "fetch zip" name (Revision project) err))
        | Ok resp =>
          if negb (StatusCode resp =? StatusOK)%Z then
            mret (r, Some (errorf "fetch zip" name (Revision project)
                             (Status resp)))
          else
            match sha256_Copy (RespBody resp) with
            | Err err =>
                mret (r, Some (errorf "hash zip" name (Revision project) err))
            | Ok sum =>
              _ ← emit (EvPrint (name +:+ "@" +:+ Revision project +:+ ": "
                                   +:+ sum +:+ nl));
              let r := rule.SetAttr "urls" (rule.AttrStrings [zip]) r in
              let r := rule.SetAttr "sha256" (rule.AttrString sum) r in
              let r := rule.SetAttr "strip_prefix"
                         (rule.AttrString (name +:+ "@" +:+ version)) r in
              mret (r, None)
            end
        end
      end
  end.

(** The loop [for attempt := 0; attempt < 5; attempt++] of lines 88-97, with
    [remaining = 5 - attempt] iterations left. *)
Fixpoint retryLoop (i : nat) (goProxyBase : string) (p : depProject)
    (remaining attempt : nat) (r : rule.Rule) : Task (Outcome rule.Rule) :=
  match remaining with
  | O => mret (Returned r)
  | S remaining' =>
      res ← ruleUsingGoProxy i goProxyBase p r;
      match res with
      | (r', None) => mret (Returned r')
      | (r', Some err) =>
          if attempt =? 4 then mret (Panicked err)
          else
            _ ← emit (EvSleep 5);
            retryLoop i goProxyBase p remaining' (S attempt) r'
      end
  end.

(** Is the project private: [ok || err != nil] for
    [ok, err := path.Match(args.GoPrivate, p.Name)]. *)
Definition isPrivate (args : ImportReposArgs) (p : depProject) : bool :=
  let '(ok, err) := path_Match (GoPrivate args) (Name p) in
  ok || match err with Some _ => true | None => false end.

(** The function literal of lines 70-100, up to [wg.Done()]: the rule left in
    [gen[i]], unless the goroutine panics. *)
Definition goroutine (args : ImportReposArgs) (goProxyBase : string)
    (i : nat) (p : depProject) : Task (Outcome rule.Rule) :=
  let r := rule.NewRule "go_repository" (ImportPathToBazelRepoName (Name p)) in
  let r := rule.SetAttr "importpath" (rule.AttrString (Name p)) r in
  if isPrivate args p then
    let r := rule.SetAttr "commit" (rule.AttrString (Revision p)) r in
    let r :=
      if negb (String.eqb (Source p) "") then
        let r := rule.SetAttr "remote" (rule.AttrString (Source p)) r in
        rule.SetAttr "vcs" (rule.AttrString "git") r
      else r in
    mret (Returned r)
  else
    retryLoop i goProxyBase p 5 0 r.

(** The goroutines finish in the order [sched]; each one writes its own
    slot of [gen].  A panic in any goroutine ends the process. *)
Fixpoint runGoroutines (args : ImportReposArgs) (goProxyBase : string)
    (projects : list depProject) (sched : list nat)
    (gen : list (option rule.Rule)) : Outcome (list (option rule.Rule)) :=
  match sched with
  | [] => Returned gen
  | i :: sched' =>
      match projects !! i with
      | None => runGoroutines args goProxyBase projects sched' gen
      | Some p =>
          match fst (goroutine args goProxyBase i p initTask) with
          | Returned r =>
              runGoroutines args goProxyBase projects sched' (<[i := Some r]> gen)
          | Panicked err => Panicked err
          end
      end
  end.

(** [gen[i].Name() < gen[j].Name()]. *)
Definition lessByName (a b : rule.Rule) : bool :=
  less (rule.Name a) (rule.Name b).

Definition nilDereference : string :=
  "runtime error: invalid memory address or nil pointer dereference".

(** [importReposFromDep(args)] when the goroutines finish in the order
    [sched].  [wg.Wait()] returns once every goroutine has called
    [wg.Done()], so [sched] lists every index of the manifest and no slot of
    [gen] is nil when the slice is sorted ([runGoroutines_complete]). *)
Definition importReposFromDep (args : ImportReposArgs) (sched : list nat)
    : Outcome ImportReposResult :=
  let goProxyBase :=
    if String.eqb (GoProxy args) "" then defaultGoProxyBase
    else GoProxy args in
  match ioutil_ReadFile (Path args) with
  | Err err => Returned {| Gen := []; Error := Some err |}
  | Ok data =>
    match toml_Unmarshal data with
    | Err err => Returned {| Gen := []; Error := Some err |}
    | Ok file =>
      let gen := replicate (length (Projects file)) None in
      match runGoroutines args goProxyBase (Projects file) sched gen with
      | Panicked err => Panicked err
      | Returned gen =>
        match mapM id gen with
        | None => Panicked nilDereference
        | Some gen =>
            Returned {| Gen := GoSort.SliceStable lessByName gen;
                        Error := None |}
        end
      end
    end
  end.

(** *** Vocabulary for the properties of the importer *)

(** The state in which the retry loop makes its next attempt after an
    attempt from [st] has failed: the attempt, then the sleep. *)
Definition afterFailure (i : nat) (goProxyBase : string) (p : depProject)
    (r : rule.Rule) (st : TaskState) : TaskState :=
  snd (emit (EvSleep 5) (snd (ruleUsingGoProxy i goProxyBase p r st))).

(** The state in which attempt [k] (from 0) starts when the attempts before
    it have failed. *)
Definition stateAt (i : nat) (goProxyBase : string) (p : depProject)
    (r : rule.Rule) (k : nat) : TaskState :=
  Nat.iter k (afterFailure i goProxyBase p r) initTask.

(** Attempt [k]: the rule and the error [ruleUsingGoProxy] gives, and the
    state it leaves. *)
Definition attemptAt (i : nat) (goProxyBase : string) (p : depProject)
    (r : rule.Rule) (k : nat) : (rule.Rule * option string) * TaskState :=
  ruleUsingGoProxy i goProxyBase p r (stateAt i goProxyBase p r k).

Definition isSleep (e : Event) : bool :=
  match e with
  | EvSleep _ => true
  | _ => false
  end.

Definition isGet (e : Event) : bool :=
  match e with
  | EvGet _ => true
  | _ => false
  end.

(** The proxy the importer talks to. *)
Definition proxyBaseOf (args : ImportReposArgs) : string :=
  if String.eqb (GoProxy args) "" then defaultGoProxyBase else GoProxy args.

(** The rule goroutine [i] starts from, before it resolves the project. *)
Definition freshRule (p : depProject) : rule.Rule :=
  rule.SetAttr "importpath" (rule.AttrString (Name p))
    (rule.NewRule "go_repository" (ImportPathToBazelRepoName (Name p))).

(** What each goroutine ends in, by index in the manifest. *)
Definition outcomes (args : ImportReposArgs) (projects : list depProject)
    : list (Outcome rule.Rule) :=
  imap (λ i p, fst (goroutine args (proxyBaseOf args) i p initTask)) projects.

(** [r'] is [r] with other values for the attributes the proxy path sets. *)
Definition keeps (r r' : rule.Rule) : Prop :=
  rule.Name r' = rule.Name r ∧ rule.Kind r' = rule.Kind r
  ∧ rule.Attr r' "importpath" = rule.Attr r "importpath".

(** The module path as the specification words it: "prefer the source
    override if present, stripping a [.git] suffix and an [https://] prefix;
    lower-case the result". *)
Fixpoint withoutPrefix (prefix s : string) : option string :=
  match prefix, s with
  | EmptyString, _ => Some s
  | String a prefix', String b s' =>
      if Ascii.eqb b a then withoutPrefix prefix' s' else None
  | String _ _, EmptyString => None
  end.

Fixpoint withoutSuffix (suffix s : string) : option string :=
  if String.eqb s suffix then Some EmptyString
  else
    match s with
    | EmptyString => None
    | String c s' => String c <$> withoutSuffix suffix s'
    end.

Definition specModulePath (p : depProject) : string :=
  let chosen :=
    if decide (Source p = "") then Name p
    else
      let s := Source p in
      let s := default s (withoutSuffix ".git" s) in
      let s := default s (withoutPrefix "https://" s) in
      s in
  ToLower unicode_ToLower chosen.

(** The number of requests in the trace of a goroutine. *)
Definition requests (st : TaskState) : nat := length (filter isGet (trace st)).

(** An effect on the proxy [goProxyBase] for the module of [p]: any request
    made is for a file under [{goProxyBase}/{name}/@v/]. *)
Definition onProxy (goProxyBase : string) (p : depProject) (e : Event) : Prop :=
  ∀ url, e = EvGet url →
    ∃ file, url = goProxyBase +:+ "/" +:+ proxyModuleName p +:+ "/@v/" +:+ file.

End Importer.
End Dep.

(** ** [cmd/autogazelle/autogazelle.go] *)
Module Autogazelle.
Import GoStrings.

(** File contents are byte sequences. *)
Abbreviation bytes := (list ascii).

Definition bytes_of (s : string) : bytes := String.list_ascii_of_string s.
Arguments bytes_of : simpl never.

Inductive mode : Type :=
  | fullMode
  | fastMode.

Definition mode_eqb (a b : mode) : bool :=
  match a, b with
  | fullMode, fullMode | fastMode, fastMode => true
  | _, _ => false
  end.

(** The operations the program performs on its surroundings. *)
Inductive Op : Type :=
  | OpOpen (path : string)
  | OpCreate (path : string)
  | OpStat (path : string)
  | OpRead (path : string)
  | OpWrite (path : string) (data : bytes)
  | OpClose (path : string)
  | OpExec (args : list string)
  | OpWalkFunc (dir : string) (files : list string).

(** The surroundings: the regular files by path (a path stands for the file
    it names: no links, and nobody else changes the tree meanwhile), the
    lines sent to [log], and the operations performed, oldest first. *)
Record World : Type := {
  files : gmap string bytes;
  log : list string;
  ops : list Op
}.

(** An open [*os.File]: the file it was opened on and its offset. *)
Record File : Type := {
  fpath : string;
  offset : nat
}.

(** What the program is started with, and the collaborators that are not
    part of autogazelle.go.  [fault k] is the error, if any, that the
    operating system answers to the operation performed after [k] earlier
    ones; [short_write k] is how many bytes such a failing write has
    written. *)
Class Sys : Type := {
  Args0 : string;
  gazelleLabel : string;
  BAZEL_REAL : string;
  fault : nat → option string;
  short_write : nat → nat;
  filepath_Join : string → string → string;
  filepath_Abs : string → result string;
  walk_Walk : string → list (string * list string)
}.

(** A computation on the world; [None] when it is still running after the
    given number of loop iterations. *)
Definition IO (A : Type) : Type := World → option (A * World).

#[global] Instance io_ret : MRet IO := λ A a w, Some (a, w).

#[global] Instance io_bind : MBind IO :=
  λ A B f m w, match m w with
               | None => None
               | Some (a, w') => f a w'
               end.

Definition separator : ascii := "/"%char.

Definition isPathSeparator (c : ascii) : bool := Ascii.eqb c separator.

Fixpoint dropSeparators (rpath : list ascii) : list ascii :=
  match rpath with
  | c :: rpath' => if isPathSeparator c then dropSeparators rpath' else rpath
  | [] => []
  end.

Fixpoint takeElement (rpath : list ascii) : list ascii :=
  match rpath with
  | c :: rpath' => if isPathSeparator c then [] else c :: takeElement rpath'
  | [] => []
  end.

(** [filepath.Base(path)] on Unix: the last element of [path], trailing
    slashes removed first; ["."] for the empty path, ["/"] for a path of
    slashes only.  The loops run from the end of [path], hence on its
    reversal. *)
Definition Base (path : string) : string :=
  if String.eqb path "" then "."
  else
    let rpath := dropSeparators (rev (String.list_ascii_of_string path)) in
    let elem := String.string_of_list_ascii (rev (takeElement rpath)) in
    if String.eqb elem "" then String separator EmptyString else elem.

Definition addOp (op : Op) (w : World) : World :=
  {| files := files w; log := log w; ops := ops w ++ [op] |}.

Definition addLog (msg : string) (w : World) : World :=
  {| files := files w; log := log w ++ [msg]; ops := ops w |}.

Definition putFile (path : string) (content : bytes) (w : World) : World :=
  {| files := <[path := content]> (files w); log := log w; ops := ops w |}.

Definition isStat (op : Op) : bool :=
  match op with
  | OpStat _ => true
  | _ => false
  end.

Definition isExec (op : Op) : bool :=
  match op with
  | OpExec _ => true
  | _ => false
  end.

Definition isWalkFunc (op : Op) : bool :=
  match op with
  | OpWalkFunc _ _ => true
  | _ => false
  end.

(** From [w] to [w'] operations were performed, none of them an
    [os.Stat]. *)
Definition fileOps (w w' : World) : Prop :=
  ∃ new, ops w' = ops w ++ new ∧ Forall (λ op, isStat op = false) new.

(** The buffer of [io.Copy]: [32 * 1024] bytes. *)
Definition copyBufSize : nat := 32 * 1024.
Arguments copyBufSize : simpl never.

Section Program.
Context `{sys : Sys}.

(** [var programName = filepath.Base(os.Args[0])]. *)
Definition programName : string := Base Args0.

(** Perform [op]: record it and learn whether the system fails it. *)
Definition perform (op : Op) : IO (option string) :=
  λ w, Some (fault (length (ops w)), addOp op w).

Definition opCount : IO nat := λ w, Some (length (ops w), w).

Definition getFiles : IO (gmap string bytes) := λ w, Some (files w, w).

Definition setFile (path : string) (content : bytes) : IO unit :=
  λ w, Some (tt, putFile path content w).

(** [log.Print] and [log.Printf]: the message, without the prefix and the
    time stamp. *)
Definition logPrint (msg : string) : IO unit :=
  λ w, Some (tt, addLog msg w).

Definition noSuchFile (op path : string) : string :=
  op +:+ " " +:+ path +:+ ": no such file or directory".

(** [os.Open(path)]. *)
Definition osOpen (path : string) : IO (result File) :=
  f ← perform (OpOpen path);
  match f with
  | Some err => mret (Err err)
  | None =>
      fs ← getFiles;
      match fs !! path with
      | None => mret (Err (noSuchFile "open" path))
      | Some _ => mret (Ok {| fpath := path; offset := 0 |})
      end
  end.

(** [os.Create(path)]: create the file, or truncate it when it exists. *)
Definition osCreate (path : string) : IO (result File) :=
  f ← perform (OpCreate path);
  match f with
  | Some err => mret (Err err)
  | None =>
      _ ← setFile path [];
      mret (Ok {| fpath := path; offset := 0 |})
  end.

(** [os.Stat(path)], of which only the error is used. *)
Definition osStat (path : string) : IO (option string) :=
  f ← perform (OpStat path);
  match f with
  | Some err => mret (Some err)
  | None =>
      fs ← getFiles;
      match fs !! path with
      | None => mret (Some (noSuchFile "stat" path))
      | Some _ => mret None
      end
  end.

Definition contentOf (fs : gmap string bytes) (path : string) : bytes :=
  default [] (fs !! path).

(** The bytes of [data] put at offset [off] of [content]. *)
Definition writeAt (content : bytes) (off : nat) (data : bytes) : bytes :=
  take off content ++ data ++ drop (off + length data) content.

(** [f.Write(data)]: all of [data] is written at the offset of [f], or the
    write fails after part of it. *)
Definition fileWrite (f : File) (data : bytes) : IO (File * option string) :=
  k ← opCount;
  flt ← perform (OpWrite (fpath f) data);
  let written :=
    match flt with
    | Some _ => take (short_write k) data
    | None => data
    end in
  fs ← getFiles;
  _ ← setFile (fpath f) (writeAt (contentOf fs (fpath f)) (offset f) written);
  mret ({| fpath := fpath f; offset := offset f + length written |}, flt).

(** [f.Read(buf)] with [len(buf) = n]: the next bytes of the file, at most
    [n]; none at the end of the file. *)
Definition fileRead (f : File) (n : nat) : IO (File * result bytes) :=
  flt ← perform (OpRead (fpath f));
  match flt with
  | Some err => mret (f, Err err)
  | None =>
      fs ← getFiles;
      let data := take n (drop (offset f) (contentOf fs (fpath f))) in
      mret ({| fpath := fpath f; offset := offset f + length data |}, Ok data)
  end.

(** [f.Close()]. *)
Definition fileClose (f : File) : IO (option string) :=
  perform (OpClose (fpath f)).

(** [io.Copy(w, r)]: read a buffer, write it, until the end of [r]; at most
    [fuel] rounds. *)
Fixpoint ioCopy (fuel : nat) (w r : File) : IO (option string) :=
  match fuel with
  | O => λ _, None
  | S fuel' =>
      rd ← fileRead r copyBufSize;
      match rd with
      | (_, Err err) => mret (Some err)
      | (_, Ok []) => mret None
      | (r', Ok data) =>
          wr ← fileWrite w data;
          match wr with
          | (_, Some err) => mret (Some err)
          | (w', None) => ioCopy fuel' w' r'
          end
      end
  end.

(** The text [restoreFile] puts before the template. *)
Definition header (src : string) : string :=
  "# This file was generated from " +:+ Base src +:+ nl
  +:+ "# by " +:+ programName +:+ nl
  +:+ "# DO NOT EDIT" +:+ nl
  +:+ nl.

(** [restoreFile(src, dest)]; the deferred calls run when it returns, the
    last deferred first. *)
Definition restoreFile (fuel : nat) (src dest : string) : IO (option string) :=
  r ← osOpen src;
  match r with
  | Err err => mret (Some err)
  | Ok r =>
      w ← osCreate dest;
      match w with
      | Err err => _ ← fileClose r; mret (Some err)
      | Ok w =>
          wr ← fileWrite w (bytes_of (header src));
          err ← match wr with
                | (_, Some err) => mret (Some err)
                | (w', None) => ioCopy fuel w' r
                end;
          cerr ← fileClose w;
          _ ← fileClose r;
          mret (match err with
                | None => cerr
                | Some _ => err
                end)
      end
  end.

(** One round of the loop of [restoreBuildFilesInDir]. *)
Definition restoreBase (fuel : nat) (dir base : string) : IO unit :=
  let inPath := filepath_Join dir (base +:+ ".in") in
  serr ← osStat inPath;
  match serr with
  | Some _ => mret tt
  | None =>
      err ← restoreFile fuel inPath (filepath_Join dir base);
      match err with
      | Some err => logPrint err
      | None => mret tt
      end
  end.

Fixpoint forEach {A : Type} (body : A → IO unit) (l : list A) : IO unit :=
  match l with
  | [] => mret tt
  | a :: l' => _ ← body a; forEach body l'
  end.

(** [restoreBuildFilesInDir(dir)]. *)
Definition restoreBuildFilesInDir (fuel : nat) (dir : string) : IO unit :=
  forEach (restoreBase fuel dir) ["BUILD.bazel"; "BUILD"].

(** [runGazelle(mode, dirs)]. *)
Definition runGazelle (m : mode) (dirs : list string) : IO (option string) :=
  if mode_eqb m fastMode && (length dirs =? 0) then mret None
  else
    let args := [BAZEL_REAL; "run"; gazelleLabel; "--"; "-args"] in
    let args := args ++ ["-index=false"] in
    let args :=
      if mode_eqb m fastMode then (args ++ ["-r=false"]) ++ dirs else args in
    _ ← logPrint ("running gazelle: " +:+ Join args " " +:+ nl);
    perform (OpExec args).

(** [walkWorkspace(root, walkFunc)].  [walk.Walk] is not part of
    autogazelle.go; it produces "for each directory reachable under the
    root that is not itself excluded, a callback with the directory's
    absolute path and the base names of its visible ordinary files", which
    the parameter [walk_Walk root] lists.  Each call of [walkFunc] is
    recorded as an [OpWalkFunc].  Setting up the configuration for the walk (lines 188-192
    and 200-204) has no effect on the world and is left out.  The function
    has no result, as in the source. *)
Definition walkWorkspace (root : string)
    (walkFunc : string → list string → IO unit) : IO unit :=
  match filepath_Abs root with
  | Err err => logPrint ("failed to find absolute path: " +:+ err)
  | Ok root =>
      forEach (λ '(dir, regularFiles),
                 _ ← perform (OpWalkFunc dir regularFiles);
                 walkFunc dir regularFiles)
              (walk_Walk root)
  end.

(** [restoreBuildFilesInRepo()]. *)
Definition restoreBuildFilesInRepo (fuel : nat) : IO unit :=
  walkWorkspace "." (λ dir files,
    forEach (λ file,
      if negb (String.eqb file "BUILD.bazel.in")
         && negb (String.eqb file "BUILD.in")
      then mret tt
      else
        let path := filepath_Join dir file in
        err ← restoreFile fuel path (TrimSuffix path ".in");
        match err with
        | Some err => logPrint err
        | None => mret tt
        end) files).

(** The world after [restoreFile] has opened [src], created [dest] and
    written the header. *)
Definition headerWritten (src dest : string) (w : World) : World :=
  putFile dest (bytes_of (header src))
    (addOp (OpWrite dest (bytes_of (header src)))
       (putFile dest [] (addOp (OpCreate dest) (addOp (OpOpen src) w)))).

(** The deferred calls: [w.Close()], then [r.Close()]. *)
Definition bothClosed (src dest : string) (w : World) : World :=
  addOp (OpClose src) (addOp (OpClose dest) w).

(** An operation of [io.Copy(w, r)] in [restoreFile(src, dest)]. *)
Definition copyOp (src dest : string) (op : Op) : Prop :=
  op = OpRead src ∨ ∃ data, op = OpWrite dest data.

Definition isOpen (op : Op) : bool :=
  match op with
  | OpOpen _ => true
  | _ => false
  end.

(** The files [restoreBuildFilesInRepo] does not pass over. *)
Definition isTemplate (file : string) : bool :=
  negb (negb (String.eqb file "BUILD.bazel.in")
        && negb (String.eqb file "BUILD.in")).

(** The paths of the templates in what the walk lists, in its order. *)
Definition templates (visited : list (string * list string)) : list string :=
  '(dir, regularFiles) ← visited;
  filepath_Join dir <$> filter (λ file, isTemplate file = true) regularFiles.

(** The files after a call [restoreFile(src, strings.TrimSuffix(src, ".in"))]
    that returned nil. *)
Definition putRestored (m : gmap string bytes) (src : string)
    : gmap string bytes :=
  <[TrimSuffix src ".in" := bytes_of (header src) ++ default [] (m !! src)]> m.

(** Each template of [srcs] is there when its turn comes, is not its own
    destination, and is shorter than [fuel] buffers. *)
Fixpoint ready (fuel : nat) (m : gmap string bytes) (srcs : list string)
    : Prop :=
  match srcs with
  | [] => True
  | src :: srcs' =>
      src ≠ TrimSuffix src ".in"
      ∧ (∃ B, m !! src = Some B ∧ length B < fuel)
      ∧ ready fuel (putRestored m src) srcs'
  end.

End Program.
End Autogazelle.

(** ** Upper-case bytes *)
Module GoStringsMore.

(** ['A' <= c && c <= 'Z']. *)
Definition isUpperByte (c : ascii) : bool :=
  let n := Ascii.nat_of_ascii c in (65 <=? n) && (n <=? 90).

(** Does [s] hold an upper-case ASCII letter? *)
Fixpoint hasUpper (s : string) : bool :=
  match s with
  | EmptyString => false
  | String c s' => isUpperByte c || hasUpper s'
  end.

End GoStringsMore.

(** ** A manifest and three proxies to run the importer on *)
Module DepExample.
Import language Dep.

(** A stand-in for [label.ImportPathToBazelRepoName]: dots, slashes and
    dashes become underscores. *)
Definition repoName (importpath : string) : string :=
  GoStrings.mapBytes
    (λ c, if Ascii.eqb c "."%char || Ascii.eqb c "/"%char
             || Ascii.eqb c "-"%char
          then "_"%char else c)
    importpath.

(** A stand-in for [path.Match] that agrees with it on patterns without
    meta-characters, which match themselves only, and on the malformed
    pattern ["["]. *)
Definition literalMatch (pattern name : string) : bool * option string :=
  if String.eqb pattern "[" then (false, Some "syntax error in pattern")
  else (String.eqb pattern name, None).

Definition manifest : depLockFile := {|
  Projects := [
    {| Name := "github.com/pkg/errors"; Revision := "ba968bfe"; Source := "" |};
    {| Name := "corp.example/secret"; Revision := "0f3a11c2";
       Source := "https://git.corp.example/secret.git" |};
    {| Name := "github.com/Masterminds/semver"; Revision := "c7af1294";
       Source := "https://github.com/Masterminds/semver.git" |};
    {| Name := "github.com/pkg-errors"; Revision := "614d223a"; Source := "" |}
  ]
|}.

Definition readLock (path : string) : result string :=
  if String.eqb path "Gopkg.lock" then Ok "[[projects]]"
  else Err ("open " +:+ path +:+ ": no such file or directory").

Definition parseLock (data : string) : result depLockFile :=
  if String.eqb data "[[projects]]" then Ok manifest
  else Err "toml: unexpected input".

Definition ok200 (body : string) : result (Response string) :=
  Ok {| StatusCode := 200; Status := "200 OK"; RespBody := body |}.

Definition gone410 : result (Response string) :=
  Ok {| StatusCode := 410; Status := "410 Gone"; RespBody := "" |}.

(** The collaborators but for the proxy. *)
Definition envWith (get : nat → nat → string → result (Response string))
    : Env := {|
  Body := string;
  ImportPathToBazelRepoName := repoName;
  path_Match := literalMatch;
  unicode_ToLower := id;
  ioutil_ReadFile := readLock;
  toml_Unmarshal := parseLock;
  http_Get := get;
  json_DecodeVersion := λ _, Ok "v1.2.3";
  sha256_Copy := λ body, Ok ("sha256 of " +:+ body)
|}.

(** A proxy that answers every request. *)
Definition goodProxy : Env := envWith (λ _ _ url, ok200 url).

(** A proxy that answers 410 to every request. *)
Definition goneProxy : Env := envWith (λ _ _ _, gone410).

(** A proxy that answers 410 to the first four requests of each goroutine. *)
Definition flakyProxy : Env :=
  envWith (λ _ k url, if k <? 4 then gone410 else ok200 url).

Definition importArgs : ImportReposArgs := {|
  Path := "Gopkg.lock";
  GoProxy := "";
  GoPrivate := "corp.example/secret"
|}.

(** The same import with a malformed private pattern. *)
Definition badPatternArgs : ImportReposArgs := {|
  Path := "Gopkg.lock";
  GoProxy := "";
  GoPrivate := "["
|}.

(** An order in which the four goroutines may finish. *)
Definition finishOrder : list nat := [2; 0; 3; 1].

Definition noResult : ImportReposResult := {| Gen := []; Error := None |}.

(** What the import returns with the good proxy. *)
Definition imported : ImportReposResult :=
  Eval vm_compute in
    match @importReposFromDep goodProxy importArgs finishOrder with
    | Returned res => res
    | Panicked _ => noResult
    end.

End DepExample.

(** ** A workspace to run autogazelle on *)
Module AutogazelleExample.
Import GoStrings Autogazelle.

(** A stand-in for [filepath.Join] that agrees with it when [dir] is a clean
    path and [file] a plain base name. *)
Definition joinPath (dir file : string) : string := dir +:+ "/" +:+ file.

Definition demoSys (faults : nat → option string)
    (abs : string → result string) : Sys := {|
  Args0 := "/usr/local/bin/autogazelle";
  gazelleLabel := "//:gazelle";
  BAZEL_REAL := "/usr/bin/bazel";
  fault := faults;
  short_write := λ _, 0;
  filepath_Join := joinPath;
  filepath_Abs := abs;
  walk_Walk := λ root, [(root, ["BUILD.in"; "main.go"]);
                        (root +:+ "/pkg", ["BUILD.bazel.in"; "pkg.go"])]
|}.

(** A system without faults whose working directory is [/work]. *)
Definition goodSys : Sys := demoSys (λ _, None) (λ _, Ok "/work").

(** A system whose disk is full: the third operation, the write of the
    header when a template is restored first, fails having written
    nothing. *)
Definition fullDisk : Sys :=
  demoSys (λ k, if k =? 2 then Some "write: no space left on device" else None)
          (λ _, Ok "/work").

(** A system whose working directory has been removed: [filepath.Abs]
    fails on a relative path. *)
Definition noCwdSys : Sys :=
  demoSys (λ _, None) (λ _, Err "getwd: no such file or directory").

Definition template : bytes := bytes_of ("go_library()" +:+ nl).

(** A workspace with a template and a stale generated file. *)
Definition workspace : World := {|
  files := {[ "/work/BUILD.in" := template;
              "/work/BUILD" := bytes_of "stale";
              "/work/main.go" := bytes_of "package main" ]};
  log := [];
  ops := []
|}.

(** The same directory without its template. *)
Definition bare : World := {|
  files := {[ "/work/main.go" := bytes_of "package main" ]};
  log := [];
  ops := []
|}.

(** A generated file whose template is gone. *)
Definition orphaned : World := {|
  files := {[ "/work/BUILD" := bytes_of "stale" ]};
  log := [];
  ops := []
|}.

Definition noCallback (dir : string) (files : list string) : IO unit :=
  mret tt.

(** A repository with the two templates the walk of [demoSys] lists. *)
Definition repository : World := {|
  files := {[ "/work/BUILD.in" := template;
              "/work/BUILD" := bytes_of "stale";
              "/work/main.go" := bytes_of "package main";
              "/work/pkg/BUILD.bazel.in" := bytes_of "filegroup()";
              "/work/pkg/pkg.go" := bytes_of "package pkg" ]};
  log := [];
  ops := []
|}.

End AutogazelleExample.

(** * Properties *)

(** ** The order on strings *)
Module GoStringsFacts.
Import GoStrings.

Lemma less_false_le (a b : string) : less a b = false ↔ String.le b a.
Proof.
  unfold less, String.le, String.ltb, String.leb.
  rewrite (String.compare_antisym a b).
  destruct (String.compare b a); simpl; split; intros; done.
Qed.

Lemma less_asym (a b : string) : less a b = true → less b a = false.
Proof.
  unfold less, String.ltb. rewrite (String.compare_antisym a b).
  by destruct (String.compare b a).
Qed.

Lemma less_irrefl (a : string) : less a a = false.
Proof. apply less_false_le. reflexivity. Qed.

Lemma less_trans_false (a b c : string) :
  less b a = false → less c b = false → less c a = false.
Proof. rewrite !less_false_le. intros. by etrans. Qed.

Lemma less_false_antisym (a b : string) :
  less a b = false → less b a = false → a = b.
Proof.
  rewrite !less_false_le. intros Hba Hab. by apply (anti_symm String.le).
Qed.

Lemma substring_full (s : string) : String.substring 0 (String.length s) s = s.
Proof. induction s; simpl; [done|]. by f_equal. Qed.

Lemma substring_zero (n : nat) (s : string) : String.substring n 0 s = "".
Proof. revert n. induction s; intros [|n]; simpl; done. Qed.

Lemma slice_from_zero (s : string) : slice_from s 0 = s.
Proof. unfold slice_from. rewrite Nat.sub_0_r. apply substring_full. Qed.

Lemma HasSuffix_self (s : string) : HasSuffix s s = true.
Proof.
  unfold HasSuffix. rewrite Nat.leb_refl, Nat.sub_diag, slice_from_zero.
  by rewrite String.eqb_refl.
Qed.

End GoStringsFacts.

(** ** [sort.SliceStable] sorts, permutes and is stable *)
Module GoSortFacts.
Import GoSort.

Section Facts.
Context {A : Type} (less : A → A → bool).

#[local] Abbreviation ordered := (GoSort.ordered less).
#[local] Abbreviation tied := (GoSort.tied less).

#[local] Instance tied_dec a b : Decision (tied a b).
Proof. unfold GoSort.tied. apply _. Defined.

Lemma bubbleLeft_perm x l : bubbleLeft less x l ≡ₚ x :: l.
Proof.
  induction l as [|y l IH]; simpl; [done|].
  destruct (less x y); [|done].
  rewrite IH. apply Permutation_swap.
Qed.

Lemma insertionLoop_perm sorted todo :
  insertionLoop less sorted todo ≡ₚ sorted ++ todo.
Proof.
  revert sorted. induction todo as [|x todo IH]; intros sorted; simpl.
  - by rewrite reverse_Permutation, app_nil_r.
  - rewrite IH, bubbleLeft_perm. simpl. apply Permutation_middle.
Qed.

Lemma SliceStable_perm l : SliceStable less l ≡ₚ l.
Proof. apply insertionLoop_perm. Qed.

Lemma SliceStable_length l : length (SliceStable less l) = length l.
Proof. by rewrite SliceStable_perm. Qed.

(** Moving [x] to the left only passes elements that [x] is less than, so
    it keeps the order among elements of which none is less than the
    other. *)
Lemma bubbleLeft_filter (P : A → Prop) `{!∀ a, Decision (P a)} x l :
  (∀ y, P x → P y → less x y = false) →
  filter P (bubbleLeft less x l) = filter P (x :: l).
Proof.
  intros HP. induction l as [|y l IH]; simpl; [done|].
  destruct (less x y) eqn:Hxy; [|done].
  rewrite (filter_cons _ y), IH, !filter_cons.
  destruct (decide (P x)) as [Hx|]; destruct (decide (P y)) as [Hy|]; try done.
  specialize (HP y Hx Hy). congruence.
Qed.

Lemma insertionLoop_filter (P : A → Prop) `{!∀ a, Decision (P a)} sorted todo :
  (∀ x y, P x → P y → less x y = false) →
  filter P (insertionLoop less sorted todo)
  = filter P (reverse sorted ++ todo).
Proof.
  intros HP. revert sorted.
  induction todo as [|x todo IH]; intros sorted; simpl.
  - by rewrite app_nil_r.
  - rewrite IH, !filter_app, filter_reverse, bubbleLeft_filter by auto.
    rewrite <- filter_reverse, reverse_cons, filter_app, (filter_cons _ x).
    rewrite <- app_assoc. f_equal.
    rewrite (filter_cons _ x todo). by destruct (decide (P x)).
Qed.

Lemma SliceStable_filter (P : A → Prop) `{!∀ a, Decision (P a)} l :
  (∀ x y, P x → P y → less x y = false) →
  filter P (SliceStable less l) = filter P l.
Proof. intros HP. unfold SliceStable. by rewrite insertionLoop_filter. Qed.

(** Sorting commutes with a map that respects the comparison. *)
Lemma bubbleLeft_fmap {B : Type} (lessB : B → B → bool) (f : B → A) x l :
  (∀ a b, lessB a b = less (f a) (f b)) →
  f <$> bubbleLeft lessB x l = bubbleLeft less (f x) (f <$> l).
Proof.
  intros Hf. induction l as [|y l IH]; [done|].
  rewrite fmap_cons. simpl. rewrite Hf.
  destruct (less (f x) (f y)); [|done].
  by rewrite fmap_cons, IH.
Qed.

Lemma insertionLoop_fmap {B : Type} (lessB : B → B → bool) (f : B → A)
    sorted todo :
  (∀ a b, lessB a b = less (f a) (f b)) →
  f <$> insertionLoop lessB sorted todo
  = insertionLoop less (f <$> sorted) (f <$> todo).
Proof.
  intros Hf. revert sorted.
  induction todo as [|x todo IH]; intros sorted.
  - simpl. by rewrite fmap_reverse.
  - rewrite fmap_cons. simpl. by rewrite IH, (bubbleLeft_fmap lessB f).
Qed.

Lemma SliceStable_fmap {B : Type} (lessB : B → B → bool) (f : B → A) l :
  (∀ a b, lessB a b = less (f a) (f b)) →
  f <$> SliceStable lessB l = SliceStable less (f <$> l).
Proof. intros Hf. by apply insertionLoop_fmap. Qed.

Section Ordered.
Hypothesis less_asym : ∀ a b, less a b = true → less b a = false.
Hypothesis less_trans_false :
  ∀ a b c, less b a = false → less c b = false → less c a = false.

#[local] Instance ordered_trans : Transitive ordered.
Proof. intros a b c. unfold GoSort.ordered. apply less_trans_false. Qed.

Lemma asym_irrefl a : less a a = false.
Proof.
  destruct (less a a) eqn:H; [|done].
  pose proof (less_asym _ _ H). congruence.
Qed.

Lemma tied_refl a : tied a a.
Proof. split; apply asym_irrefl. Qed.

Lemma tied_sym a b : tied a b → tied b a.
Proof. by intros [??]. Qed.

Lemma tied_trans a b c : tied a b → tied b c → tied a c.
Proof.
  intros [Hab Hba] [Hbc Hcb]. split.
  - by apply (less_trans_false c b a).
  - by apply (less_trans_false a b c).
Qed.

(** The elements left of position [i], nearest first, stay sorted. *)
Lemma bubbleLeft_sorted x l :
  Sorted (flip ordered) l → Sorted (flip ordered) (bubbleLeft less x l).
Proof.
  induction l as [|y l IH]; simpl; intros Hl.
  - by repeat constructor.
  - destruct (less x y) eqn:Hxy.
    + apply Sorted_inv in Hl as [Hl Hy]. constructor; [by apply IH|].
      destruct l as [|z l]; simpl.
      * constructor. unfold flip, GoSort.ordered. by apply less_asym.
      * destruct (less x z).
        -- constructor. by apply HdRel_inv in Hy.
        -- constructor. unfold flip, GoSort.ordered. by apply less_asym.
    + constructor; [done|]. by constructor.
Qed.

Lemma insertionLoop_sorted sorted todo :
  Sorted (flip ordered) sorted →
  Sorted ordered (insertionLoop less sorted todo).
Proof.
  revert sorted. induction todo as [|x todo IH]; intros sorted Hs; simpl.
  - apply Sorted_reverse in Hs. done.
  - apply IH. by apply bubbleLeft_sorted.
Qed.

Lemma SliceStable_sorted l : StronglySorted ordered (SliceStable less l).
Proof.
  apply Sorted_StronglySorted; [apply _|].
  apply insertionLoop_sorted. constructor.
Qed.

Lemma SliceStable_stable x l :
  filter (tied x) (SliceStable less l) = filter (tied x) l.
Proof.
  apply SliceStable_filter. intros a b Ha Hb.
  by destruct (tied_trans a x b (tied_sym _ _ Ha) Hb).
Qed.

(** Two sorted slices with the same elements in the same order among "equal
    elements" are the same slice. *)
Lemma sorted_stable_unique l1 l2 :
  StronglySorted ordered l1 → StronglySorted ordered l2 →
  (∀ x, filter (tied x) l1 = filter (tied x) l2) →
  l1 = l2.
Proof.
  revert l2. induction l1 as [|a l1 IH]; intros l2 Hs1 Hs2 Hf.
  - destruct l2 as [|b l2]; [done|].
    specialize (Hf b). rewrite filter_nil, filter_cons_True in Hf; [done|].
    apply tied_refl.
  - destruct l2 as [|b l2].
    { specialize (Hf a). rewrite filter_nil, filter_cons_True in Hf; [done|].
      apply tied_refl. }
    apply StronglySorted_inv in Hs1 as [Hs1 Ha].
    apply StronglySorted_inv in Hs2 as [Hs2 Hb].
    assert (a = b) as <-.
    { pose proof (Hf a) as Hfa.
      rewrite (filter_cons_True _ a) in Hfa by apply tied_refl.
      destruct (decide (tied a b)) as [Hab|Hab].
      { rewrite filter_cons_True in Hfa by done. congruence. }
      rewrite filter_cons_False in Hfa by done.
      assert (a ∈ l2) as Hin.
      { apply (list_elem_of_filter (tied a)). rewrite <- Hfa. left. }
      pose proof (Hf b) as Hfb.
      rewrite (filter_cons_True _ b l2) in Hfb by apply tied_refl.
      rewrite filter_cons_False in Hfb by (by intros ?%tied_sym).
      assert (b ∈ l1) as Hin'.
      { apply (list_elem_of_filter (tied b)). rewrite Hfb. left. }
      rewrite Forall_forall in Ha, Hb.
      exfalso. apply Hab. split.
      - exact (Hb a Hin).
      - exact (Ha b Hin'). }
    f_equal. apply IH; [done..|].
    intros x. specialize (Hf x). rewrite !filter_cons in Hf.
    destruct (decide (tied x a)); congruence.
Qed.

(** [SliceStable] is determined by its contract: the result is sorted, and
    equal elements keep their original order. *)
Theorem stable_sort_unique l l' :
  StronglySorted ordered l' →
  (∀ x, filter (tied x) l' = filter (tied x) l) →
  l' = SliceStable less l.
Proof.
  intros Hs Hf. apply sorted_stable_unique; [done|apply SliceStable_sorted|].
  intros x. by rewrite Hf, SliceStable_stable.
Qed.

End Ordered.
End Facts.
End GoSortFacts.

(** ** Lists: elements in a given order *)
Module ListFacts.
Section Facts.
Context {A : Type}.
Implicit Types l k : list A.

Lemma sublist_pair_lookup l i j x y :
  i < j → l !! i = Some x → l !! j = Some y → [x; y] `sublist_of` l.
Proof.
  revert i j. induction l as [|z l IH]; intros i j Hij Hx Hy; [done|].
  destruct i as [|i]; simpl in *.
  - simplify_eq. destruct j as [|j]; [lia|]. simpl in Hy.
    apply sublist_skip, singleton_sublist_l. by eapply list_elem_of_lookup_2.
  - destruct j as [|j]; [lia|]. simpl in Hy.
    apply sublist_cons. apply (IH i j); [lia|done..].
Qed.

Lemma lookup_sublist_pair l x y :
  [x; y] `sublist_of` l →
  ∃ a b, a < b ∧ l !! a = Some x ∧ l !! b = Some y.
Proof.
  induction l as [|z l IH]; intros Hsub; [by apply sublist_nil_r in Hsub|].
  apply sublist_cons_r in Hsub as [Hsub|(k & Hk & Hsub)].
  - destruct (IH Hsub) as (a & b & ? & ? & ?).
    exists (S a), (S b). split_and!; [lia|done..].
  - simplify_eq. apply singleton_sublist_l, list_elem_of_lookup in Hsub as [b Hb].
    exists 0, (S b). split_and!; [lia|done..].
Qed.

Lemma sublist_filter_mono (P : A → Prop) `{!∀ a, Decision (P a)} k l :
  k `sublist_of` l → filter P k `sublist_of` filter P l.
Proof.
  induction 1 as [|x k l _ IH|x k l _ IH]; [done| |].
  - rewrite !filter_cons. destruct (decide (P x)); [by apply sublist_skip|done].
  - rewrite filter_cons. destruct (decide (P x)); [by apply sublist_cons|done].
Qed.

Lemma StronglySorted_mono (R1 R2 : relation A) l :
  (∀ a b, R1 a b → R2 a b) → StronglySorted R1 l → StronglySorted R2 l.
Proof.
  intros HR. induction 1 as [|a l Hs IH Hall]; constructor; [done|].
  eapply Forall_impl; [done|]. auto.
Qed.

End Facts.
End ListFacts.

(** ** Rules *)
Module ruleFacts.
Import rule.

Lemma getKey_setKey_eq key value attrs :
  getKey key (setKey key value attrs) = Some value.
Proof.
  induction attrs as [|[k v] attrs IH]; simpl.
  - by rewrite String.eqb_refl.
  - destruct (String.eqb k key) eqn:Hk; simpl; by rewrite Hk.
Qed.

Lemma getKey_setKey_ne key key' value attrs :
  key ≠ key' → getKey key' (setKey key value attrs) = getKey key' attrs.
Proof.
  intros Hne. induction attrs as [|[k v] attrs IH]; simpl.
  - by apply String.eqb_neq in Hne as ->.
  - destruct (String.eqb k key) eqn:Hk; simpl.
    + apply String.eqb_eq in Hk as ->.
      by apply String.eqb_neq in Hne as ->.
    + by rewrite IH.
Qed.

Lemma Attr_SetAttr_eq key value r : Attr (SetAttr key value r) key = Some value.
Proof. apply getKey_setKey_eq. Qed.

Lemma Attr_SetAttr_ne key key' value r :
  key ≠ key' → Attr (SetAttr key value r) key' = Attr r key'.
Proof. apply getKey_setKey_ne. Qed.

Lemma Name_SetAttr key value r : Name (SetAttr key value r) = Name r.
Proof. done. Qed.

Lemma Kind_SetAttr key value r : Kind (SetAttr key value r) = Kind r.
Proof. done. Qed.

End ruleFacts.

(** ** The dep importer *)
Module DepFacts.
Import GoStrings GoSort language Dep.

#[local] Instance Returned_inj {A : Type} : Inj (=) (=) (@Returned A).
Proof. by intros a b [= ->]. Qed.

Section Facts.
Context `{E : Env}.

Lemma keeps_refl r : keeps r r.
Proof. done. Qed.

Lemma keeps_trans r1 r2 r3 : keeps r1 r2 → keeps r2 r3 → keeps r1 r3.
Proof. intros (?&?&?) (?&?&?). repeat split; congruence. Qed.

Ltac task_unfold :=
  unfold ruleUsingGoProxy, httpGet, emit, mbind, task_bind, mret, task_ret;
  simpl.

(** A failed call leaves the rule as it was; a successful one only sets
    [urls], [sha256] and [strip_prefix]. *)
Lemma ruleUsingGoProxy_rule i base p r st :
  match fst (ruleUsingGoProxy i base p r st) with
  | (r', Some _) => r' = r
  | (r', None) => keeps r r'
  end.
Proof.
  task_unfold. repeat case_match; simplify_eq/=; try done.
  unfold keeps. by rewrite !ruleFacts.Attr_SetAttr_ne.
Qed.

Lemma ruleUsingGoProxy_failed i base p r st r' err st' :
  ruleUsingGoProxy i base p r st = ((r', Some err), st') → r' = r.
Proof.
  intros Heq. pose proof (ruleUsingGoProxy_rule i base p r st) as H.
  by rewrite Heq in H.
Qed.

(** [ruleUsingGoProxy] does not sleep. *)
Lemma ruleUsingGoProxy_sleeps i base p r st :
  filter isSleep (trace (snd (ruleUsingGoProxy i base p r st)))
  = filter isSleep (trace st).
Proof.
  task_unfold. repeat case_match; simplify_eq/=;
    rewrite ?filter_app, ?filter_cons, ?filter_nil; simpl;
    repeat case_decide; try done; by rewrite ?app_nil_r.
Qed.

Section Retry.
Variables (i : nat) (base : string) (p : depProject) (r : rule.Rule).

#[local] Abbreviation attemptFrom := (ruleUsingGoProxy i base p r).
#[local] Abbreviation next := (afterFailure i base p r).

Lemma retryLoop_keeps remaining attempt st :
  match fst (retryLoop i base p remaining attempt r st) with
  | Returned r' => keeps r r'
  | Panicked _ => True
  end.
Proof.
  revert attempt st. induction remaining as [|rem IH]; intros attempt st.
  - simpl. apply keeps_refl.
  - simpl. unfold mbind, task_bind.
    pose proof (ruleUsingGoProxy_rule i base p r st) as Hr.
    destruct (ruleUsingGoProxy i base p r st) as [[r' [err|]] st']; simpl in *.
    + subst r'. destruct (attempt =? 4); simpl; [done|]. apply IH.
    + done.
Qed.

(** A failed attempt that is not the fifth: sleep, then go on. *)
Lemma retryLoop_step rem attempt st err :
  snd (fst (attemptFrom st)) = Some err → attempt ≠ 4 →
  retryLoop i base p (S rem) attempt r st
  = retryLoop i base p rem (S attempt) r (next st).
Proof.
  intros Herr Hne. simpl. unfold mbind, task_bind, afterFailure.
  pose proof (ruleUsingGoProxy_rule i base p r st) as Hr.
  destruct (ruleUsingGoProxy i base p r st) as [[r' e] st']; simpl in *.
  subst e r'. by apply Nat.eqb_neq in Hne as ->.
Qed.

(** The first success, at attempt [k], ends the loop. *)
Lemma retryLoop_success k : ∀ rem attempt st,
  attempt + rem = 5 → k < rem →
  (∀ j, j < k → snd (fst (attemptFrom (Nat.iter j next st))) ≠ None) →
  snd (fst (attemptFrom (Nat.iter k next st))) = None →
  retryLoop i base p rem attempt r st
  = (Returned (fst (fst (attemptFrom (Nat.iter k next st)))),
     snd (attemptFrom (Nat.iter k next st))).
Proof.
  induction k as [|k IH]; intros rem attempt st Hsum Hk Hfail Hok.
  - destruct rem as [|rem]; [lia|]. simpl in *.
    unfold mbind, task_bind.
    destruct (ruleUsingGoProxy i base p r st) as [[r' e] st']; simpl in *.
    by subst e.
  - destruct rem as [|rem]; [lia|].
    destruct (snd (fst (attemptFrom st))) as [err|] eqn:Herr.
    2:{ by destruct (Hfail 0 ltac:(lia)). }
    rewrite (retryLoop_step rem attempt st err) by (done || lia).
    rewrite Nat.iter_succ_r in Hok |- *.
    apply IH; [lia|lia| |done].
    intros j Hj. specialize (Hfail (S j) ltac:(lia)).
    by rewrite Nat.iter_succ_r in Hfail.
Qed.

(** When every attempt up to the fifth fails, the loop panics with the error
    of the fifth. *)
Lemma retryLoop_exhausted : ∀ rem attempt st,
  attempt + rem = 5 → 0 < rem →
  (∀ j, j < rem → snd (fst (attemptFrom (Nat.iter j next st))) ≠ None) →
  ∃ err,
    snd (fst (attemptFrom (Nat.iter (rem - 1) next st))) = Some err
    ∧ retryLoop i base p rem attempt r st
      = (Panicked err, snd (attemptFrom (Nat.iter (rem - 1) next st))).
Proof.
  induction rem as [|rem IH]; intros attempt st Hsum Hpos Hfail; [lia|].
  destruct (snd (fst (attemptFrom st))) as [err|] eqn:Herr.
  2:{ by destruct (Hfail 0 ltac:(lia)). }
  destruct (decide (rem = 0)) as [->|Hrem].
  - exists err. split; [done|]. simpl in *.
    unfold mbind, task_bind.
    destruct (ruleUsingGoProxy i base p r st) as [[r' e] st']; simpl in *.
    subst e. by replace attempt with 4 by lia.
  - rewrite (retryLoop_step rem attempt st err) by (done || lia).
    destruct (IH (S attempt) (next st)) as (e & He & Hloop); [lia|lia| |].
    { intros j Hj. specialize (Hfail (S j) ltac:(lia)).
      by rewrite Nat.iter_succ_r in Hfail. }
    exists e. replace (S rem - 1) with (S (rem - 1)) by lia.
    by rewrite Nat.iter_succ_r.
Qed.

(** [k] failed attempts cost [k] sleeps of five seconds. *)
Lemma stateAt_sleeps k :
  filter isSleep (trace (stateAt i base p r k)) = replicate k (EvSleep 5).
Proof.
  unfold stateAt. induction k as [|k IH]; [done|].
  change (Nat.iter (S k) next initTask) with (next (Nat.iter k next initTask)).
  set (st := Nat.iter k next initTask) in *.
  unfold afterFailure, emit. simpl.
  rewrite filter_app, ruleUsingGoProxy_sleeps, IH.
  rewrite filter_cons_True by done. rewrite filter_nil.
  by rewrite replicate_cons_app.
Qed.

End Retry.

Lemma goroutine_private args base i p st :
  isPrivate args p = true →
  goroutine args base i p st
  = (Returned
       (let r := rule.SetAttr "commit" (rule.AttrString (Revision p))
                   (freshRule p) in
        if negb (String.eqb (Source p) "") then
          rule.SetAttr "vcs" (rule.AttrString "git")
            (rule.SetAttr "remote" (rule.AttrString (Source p)) r)
        else r),
     st).
Proof. intros Hp. unfold goroutine. by rewrite Hp. Qed.

Lemma goroutine_proxy args base i p st :
  isPrivate args p = false →
  goroutine args base i p st = retryLoop i base p 5 0 (freshRule p) st.
Proof. intros Hp. unfold goroutine. by rewrite Hp. Qed.

Lemma freshRule_name p :
  rule.Name (freshRule p) = ImportPathToBazelRepoName (Name p)
  ∧ rule.Kind (freshRule p) = "go_repository"
  ∧ rule.Attr (freshRule p) "importpath" = Some (rule.AttrString (Name p)).
Proof. done. Qed.

(** Whatever path a goroutine takes, the rule it leaves has the kind, the
    name and the import path it was created with. *)
Lemma goroutine_keeps args base i p st :
  match fst (goroutine args base i p st) with
  | Returned r => keeps (freshRule p) r
  | Panicked _ => True
  end.
Proof.
  destruct (isPrivate args p) eqn:Hp.
  - rewrite goroutine_private by done. simpl.
    destruct (negb (String.eqb (Source p) "")); unfold keeps;
      by rewrite !ruleFacts.Attr_SetAttr_ne.
  - rewrite goroutine_proxy by done. apply retryLoop_keeps.
Qed.

Section Schedule.
Variables (args : ImportReposArgs) (projects : list depProject).

#[local] Abbreviation base := (proxyBaseOf args).
#[local] Abbreviation run := (runGoroutines args base projects).
#[local] Abbreviation outcomeOf i p :=
  (fst (goroutine args base i p initTask)).

Lemma outcomes_lookup i :
  outcomes args projects !! i = (λ p, outcomeOf i p) <$> projects !! i.
Proof. unfold outcomes. apply list_lookup_imap. Qed.

Lemma outcomes_length : length (outcomes args projects) = length projects.
Proof. unfold outcomes. apply length_imap. Qed.

(** What the slots hold once the goroutines of [sched] are done. *)
Lemma run_Returned sched : ∀ gen gen',
  run sched gen = Returned gen' →
  length gen' = length gen
  ∧ (∀ i p, i ∈ sched → projects !! i = Some p → i < length gen →
       ∃ r, outcomeOf i p = Returned r ∧ gen' !! i = Some (Some r))
  ∧ (∀ i, i ∉ sched → gen' !! i = gen !! i).
Proof.
  induction sched as [|j sched IH]; intros gen gen' Hrun; simpl in Hrun.
  - simplify_eq. split_and!; [done| |done]. intros i p Hi. by inv Hi.
  - destruct (projects !! j) as [q|] eqn:Hq.
    + destruct (outcomeOf j q) as [r|err] eqn:Hr; [|done].
      apply IH in Hrun as (Hlen & Hin & Hout).
      rewrite length_insert in Hlen, Hin. split_and!; [done| |].
      * intros i p Hi Hp Hlt.
        destruct (decide (i ∈ sched)) as [Hs|Hs]; [by eapply Hin|].
        apply elem_of_cons in Hi as [->|?]; [|done].
        simplify_eq. exists r. split; [done|].
        rewrite Hout by done. by apply list_lookup_insert_eq.
      * intros i Hi. apply not_elem_of_cons in Hi as [Hne Hi].
        rewrite Hout by done. by apply list_lookup_insert_ne.
    + apply IH in Hrun as (Hlen & Hin & Hout). split_and!; [done| |].
      * intros i p Hi Hp Hlt.
        apply elem_of_cons in Hi as [->|?]; [congruence|by eapply Hin].
      * intros i Hi. apply not_elem_of_cons in Hi as [Hne Hi]. by apply Hout.
Qed.

(** When no goroutine of [sched] panics, all of them write their slot. *)
Lemma run_no_panic sched : ∀ gen,
  (∀ i p, i ∈ sched → projects !! i = Some p →
     ∃ r, outcomeOf i p = Returned r) →
  ∃ gen', run sched gen = Returned gen'.
Proof.
  induction sched as [|j sched IH]; intros gen Hall; simpl; [by eexists|].
  destruct (projects !! j) as [q|] eqn:Hq.
  - destruct (Hall j q) as [r Hr]; [left|done|]. rewrite Hr.
    apply IH. intros i p Hi. apply Hall. by right.
  - apply IH. intros i p Hi. apply Hall. by right.
Qed.

(** A panic in one goroutine is a panic of the process. *)
Lemma run_panic sched : ∀ gen i p err,
  i ∈ sched → projects !! i = Some p → outcomeOf i p = Panicked err →
  ∃ err', run sched gen = Panicked err'.
Proof.
  induction sched as [|j sched IH]; intros gen i p err Hi Hp Herr.
  { by inv Hi. }
  simpl. destruct (projects !! j) as [q|] eqn:Hq.
  - destruct (outcomeOf j q) as [r|err'] eqn:Hr; [|by eexists].
    apply elem_of_cons in Hi as [->|Hi]; [congruence|]. by eapply IH.
  - apply elem_of_cons in Hi as [->|Hi]; [congruence|]. by eapply IH.
Qed.

(** After the barrier every slot holds the rule of its own project. *)
Lemma runGoroutines_complete sched gen' :
  sched ≡ₚ seq 0 (length projects) →
  run sched (replicate (length projects) None) = Returned gen' →
  ∃ rules, gen' = Some <$> rules
           ∧ outcomes args projects = Returned <$> rules.
Proof.
  intros Hperm Hrun. apply run_Returned in Hrun as (Hlen & Hin & _).
  rewrite length_replicate in Hlen, Hin.
  assert (∀ i p, projects !! i = Some p →
            ∃ r, outcomeOf i p = Returned r ∧ gen' !! i = Some (Some r)) as H.
  { intros i p Hp. pose proof (lookup_lt_Some _ _ _ Hp) as Hlt.
    apply Hin; [|done..]. rewrite Hperm. apply elem_of_seq. lia. }
  destruct (mapM id gen') as [rules|] eqn:Hm.
  2:{ apply mapM_None_1, Exists_exists in Hm as (x & Hx & Hnone).
      apply list_elem_of_lookup in Hx as [i Hi].
      pose proof (lookup_lt_Some _ _ _ Hi) as Hlt. rewrite Hlen in Hlt.
      destruct (lookup_lt_is_Some_2 projects i Hlt) as [p Hp].
      destruct (H i p Hp) as (r & _ & Hr). simpl in Hnone. congruence. }
  apply mapM_Some_1 in Hm. exists rules.
  assert (gen' = Some <$> rules) as Hgen.
  { clear -Hm. induction Hm; simpl in *; [done|]. by subst. }
  split; [done|]. subst gen'. rewrite length_fmap in Hlen.
  apply list_eq. intros i. rewrite outcomes_lookup, list_lookup_fmap.
  destruct (projects !! i) as [p|] eqn:Hp; simpl.
  - destruct (H i p Hp) as (r & Hr & Hi). rewrite list_lookup_fmap in Hi.
    destruct (rules !! i); simplify_eq/=. by rewrite Hr.
  - apply lookup_ge_None in Hp. rewrite <- Hlen in Hp.
    by apply lookup_ge_None in Hp as ->.
Qed.

End Schedule.

Section Imported.
Variables (args : ImportReposArgs) (data : string) (file : depLockFile).
Hypothesis Hread : ioutil_ReadFile (Path args) = Ok data.
Hypothesis Hparse : toml_Unmarshal data = Ok file.

#[local] Abbreviation projects := (Projects file).

(** The import returns exactly when no goroutine panics, and then it returns
    the rules of the goroutines, sorted. *)
Lemma importReposFromDep_inv sched res :
  sched ≡ₚ seq 0 (length projects) →
  importReposFromDep args sched = Returned res →
  ∃ rules, outcomes args projects = Returned <$> rules
           ∧ res = {| Gen := SliceStable lessByName rules; Error := None |}.
Proof.
  intros Hperm. unfold importReposFromDep. rewrite Hread, Hparse.
  fold (proxyBaseOf args).
  destruct (runGoroutines _ _ _ _ _) as [gen|err] eqn:Hrun; [|done].
  apply runGoroutines_complete in Hrun as (rules & -> & Hout); [|done].
  rewrite mapM_fmap_Some by done. intros [= <-]. by exists rules.
Qed.

Lemma importReposFromDep_complete sched rules :
  sched ≡ₚ seq 0 (length projects) →
  outcomes args projects = Returned <$> rules →
  importReposFromDep args sched
  = Returned {| Gen := SliceStable lessByName rules; Error := None |}.
Proof.
  intros Hperm Hout. unfold importReposFromDep. rewrite Hread, Hparse.
  fold (proxyBaseOf args).
  destruct (run_no_panic args projects sched
              (replicate (length projects) None)) as [gen Hrun].
  { intros i p _ Hp.
    pose proof (outcomes_lookup args projects i) as Hi.
    rewrite Hout, Hp, list_lookup_fmap in Hi.
    destruct (rules !! i) as [r|]; simplify_eq/=. by exists r. }
  rewrite Hrun.
  apply runGoroutines_complete in Hrun as (rules' & -> & Hout'); [|done].
  rewrite mapM_fmap_Some by done.
  rewrite Hout in Hout'. apply (inj (fmap Returned)) in Hout' as <-. done.
Qed.

(** The rules of the goroutines, in the order of the manifest. *)
Lemma outcomes_rules rules :
  outcomes args projects = Returned <$> rules →
  Forall2 (λ p r,
      rule.Kind r = "go_repository"
      ∧ rule.Name r = ImportPathToBazelRepoName (Name p)
      ∧ rule.Attr r "importpath" = Some (rule.AttrString (Name p)))
    projects rules.
Proof.
  intros Hout. apply Forall2_same_length_lookup. split.
  { by rewrite <- (outcomes_length args), Hout, length_fmap. }
  intros i p r Hp Hr.
  pose proof (outcomes_lookup args projects i) as Hi.
  rewrite Hout, Hp, list_lookup_fmap, Hr in Hi. simpl in Hi.
  pose proof (goroutine_keeps args (proxyBaseOf args) i p initTask) as Hk.
  injection Hi as Hi. rewrite <- Hi in Hk. by destruct Hk as (-> & -> & ->).
Qed.

Lemma lessByName_sorted rules :
  StronglySorted (λ a b, String.le (rule.Name a) (rule.Name b))
    (SliceStable lessByName rules).
Proof.
  eapply ListFacts.StronglySorted_mono;
    [|apply (GoSortFacts.SliceStable_sorted lessByName)].
  - intros a b. unfold GoSort.ordered, lessByName.
    apply GoStringsFacts.less_false_le.
  - intros a b. apply GoStringsFacts.less_asym.
  - intros a b c. apply GoStringsFacts.less_trans_false.
Qed.

(** C1: when the import of a manifest of N projects returns, it returns no
    error and exactly N rules, one per project: a go_repository rule whose
    name is [ImportPathToBazelRepoName] of the project's name.  The rules
    are in ascending order of their names, and the result is the same for
    every order in which the goroutines finish. *)
Theorem importReposFromDep_sorted sched res :
  sched ≡ₚ seq 0 (length projects) →
  importReposFromDep args sched = Returned res →
  Error res = None
  ∧ length (Gen res) = length projects
  ∧ (∃ rules,
        Gen res ≡ₚ rules
        ∧ Forall2 (λ p r,
              rule.Kind r = "go_repository"
              ∧ rule.Name r = ImportPathToBazelRepoName (Name p)
              ∧ rule.Attr r "importpath" = Some (rule.AttrString (Name p)))
            projects rules)
  ∧ StronglySorted (λ a b, String.le (rule.Name a) (rule.Name b)) (Gen res)
  ∧ ∀ sched', sched' ≡ₚ seq 0 (length projects) →
        importReposFromDep args sched' = Returned res.
Proof.
  intros Hperm Hres.
  apply importReposFromDep_inv in Hres as (rules & Hout & ->); [|done].
  pose proof (outcomes_rules rules Hout) as Hrules. simpl.
  split_and!.
  - done.
  - rewrite GoSortFacts.SliceStable_length. symmetry.
    by eapply Forall2_length.
  - exists rules. split; [apply GoSortFacts.SliceStable_perm|done].
  - apply lessByName_sorted.
  - intros sched' Hperm'. by apply importReposFromDep_complete.
Qed.

(** When no goroutine panics the import does return. *)
Lemma importReposFromDep_returns sched :
  sched ≡ₚ seq 0 (length projects) →
  (∀ i p, projects !! i = Some p →
     ∃ r, fst (goroutine args (proxyBaseOf args) i p initTask) = Returned r) →
  ∃ res, importReposFromDep args sched = Returned res ∧ Error res = None.
Proof.
  intros Hperm Hall.
  destruct (run_no_panic args projects sched
              (replicate (length projects) None)) as [gen Hrun].
  { intros i p _ Hp. by apply Hall. }
  apply runGoroutines_complete in Hrun as (rules & _ & Hout); [|done].
  eexists. split; [by apply importReposFromDep_complete|done].
Qed.

Lemma fmap_snd_imap_pair {A : Type} (l : list A) :
  snd <$> imap (λ i a, (i, a)) l = l.
Proof.
  apply list_eq. intros i. rewrite list_lookup_fmap, list_lookup_imap.
  by destruct (l !! i).
Qed.

Lemma fmap_fst_imap_pair {A : Type} (l : list A) :
  fst <$> imap (λ i a, (i, a)) l = seq 0 (length l).
Proof.
  apply list_eq. intros i. rewrite list_lookup_fmap, list_lookup_imap.
  destruct (l !! i) as [a|] eqn:Hi; simpl.
  - symmetry. apply lookup_seq. split; [done|]. by eapply lookup_lt_Some.
  - symmetry. apply lookup_seq_ge. by apply lookup_ge_None.
Qed.

(** C10: the sort is stable.  [order] lists, for each position of the
    output, the index in the manifest of the project whose rule stands
    there; of two projects with equal rule names, the one that comes first
    in the manifest comes first in the output. *)
Theorem importReposFromDep_stable sched res :
  sched ≡ₚ seq 0 (length projects) →
  importReposFromDep args sched = Returned res →
  ∃ (rules : list rule.Rule) (order : list nat),
    outcomes args projects = Returned <$> rules
    ∧ order ≡ₚ seq 0 (length projects)
    ∧ Forall2 (λ k r, rules !! k = Some r) order (Gen res)
    ∧ ∀ i j pi pj,
        i < j → projects !! i = Some pi → projects !! j = Some pj →
        ImportPathToBazelRepoName (Name pi)
        = ImportPathToBazelRepoName (Name pj) →
        ∃ a b, a < b ∧ order !! a = Some i ∧ order !! b = Some j.
Proof.
  intros Hperm Hres.
  apply importReposFromDep_inv in Hres as (rules & Hout & ->); [|done].
  pose proof (outcomes_rules rules Hout) as Hrules. simpl.
  set (tagged := imap (λ i r, (i, r)) rules).
  set (lessT := λ a b : nat * rule.Rule, lessByName (snd a) (snd b)).
  set (sortedT := SliceStable lessT tagged).
  assert (snd <$> sortedT = SliceStable lessByName rules) as Hsnd.
  { unfold sortedT.
    rewrite (GoSortFacts.SliceStable_fmap lessByName lessT snd) by done.
    unfold tagged. by rewrite fmap_snd_imap_pair. }
  assert (sortedT ≡ₚ tagged) as HpermT by apply GoSortFacts.SliceStable_perm.
  assert (∀ k r, (k, r) ∈ sortedT → rules !! k = Some r) as Hin.
  { intros k r Hk. rewrite HpermT in Hk.
    apply list_elem_of_lookup in Hk as [i Hi]. unfold tagged in Hi.
    rewrite list_lookup_imap in Hi.
    destruct (rules !! i) eqn:?; by simplify_eq/=. }
  exists rules, (fst <$> sortedT). split_and!.
  - done.
  - rewrite HpermT. unfold tagged. rewrite fmap_fst_imap_pair.
    by rewrite <- (Forall2_length _ _ _ Hrules).
  - rewrite <- Hsnd. apply Forall2_fmap, Forall_Forall2_diag, Forall_forall.
    intros [k r] Hk. by apply Hin.
  - intros i j pi pj Hij Hpi Hpj Hname.
    destruct (Forall2_lookup_l _ _ _ _ _ Hrules Hpi) as (ri & Hri & _ & Hni & _).
    destruct (Forall2_lookup_l _ _ _ _ _ Hrules Hpj) as (rj & Hrj & _ & Hnj & _).
    set (P := λ t : nat * rule.Rule, rule.Name (snd t) = rule.Name ri).
    assert ([(i, ri); (j, rj)] `sublist_of` sortedT) as Hsub.
    { transitivity (filter P sortedT); [|apply sublist_filter].
      unfold sortedT. rewrite GoSortFacts.SliceStable_filter.
      2:{ intros x y Hx Hy. unfold lessT, lessByName.
          rewrite Hx, Hy. apply GoStringsFacts.less_irrefl. }
      assert (filter P [(i, ri); (j, rj)] = [(i, ri); (j, rj)]) as <-.
      { rewrite filter_cons_True by done.
        rewrite filter_cons_True by (unfold P; simpl; congruence).
        by rewrite filter_nil. }
      apply ListFacts.sublist_filter_mono.
      apply (ListFacts.sublist_pair_lookup _ i j); [done|..];
        unfold tagged; rewrite list_lookup_imap.
      - by rewrite Hri.
      - by rewrite Hrj. }
    apply ListFacts.lookup_sublist_pair in Hsub as (a & b & Hab & Ha & Hb).
    exists a, b. rewrite !list_lookup_fmap, Ha, Hb. done.
Qed.

End Imported.

Section Resolution.
Variables (args : ImportReposArgs) (data : string) (file : depLockFile).
Hypothesis Hread : ioutil_ReadFile (Path args) = Ok data.
Hypothesis Hparse : toml_Unmarshal data = Ok file.

#[local] Abbreviation base := (proxyBaseOf args).

(** A goroutine that panics takes the import with it, whatever the order in
    which the goroutines finish. *)
Lemma importReposFromDep_panics sched i p err :
  sched ≡ₚ seq 0 (length (Projects file)) →
  Projects file !! i = Some p →
  fst (goroutine args base i p initTask) = Panicked err →
  ∃ err', importReposFromDep args sched = Panicked err'.
Proof.
  intros Hperm Hp Herr. unfold importReposFromDep. rewrite Hread, Hparse.
  fold (proxyBaseOf args).
  destruct (run_panic args (Projects file) sched
              (replicate (length (Projects file)) None) i p err)
    as [err' ->]; [|done..|by eexists].
  rewrite Hperm. apply elem_of_seq. apply lookup_lt_Some in Hp. lia.
Qed.

(** The rule of a goroutine that returns is among the rules of the import. *)
Lemma importReposFromDep_elem sched res i p r :
  sched ≡ₚ seq 0 (length (Projects file)) →
  importReposFromDep args sched = Returned res →
  Projects file !! i = Some p →
  fst (goroutine args base i p initTask) = Returned r →
  r ∈ Gen res.
Proof.
  intros Hperm Hres Hp Hr.
  apply (importReposFromDep_inv args data file Hread Hparse) in Hres
    as (rules & Hout & ->); [|done].
  simpl. rewrite GoSortFacts.SliceStable_perm.
  pose proof (outcomes_lookup args (Projects file) i) as Hi.
  rewrite Hout, Hp, list_lookup_fmap in Hi. simpl in Hi. rewrite Hr in Hi.
  destruct (rules !! i) as [r'|] eqn:Hr'; simplify_eq/=.
  by eapply list_elem_of_lookup_2.
Qed.

(** C2: a project that is not private is resolved by [ruleUsingGoProxy],
    the info query then the zip query, in at most five attempts.  An
    attempt that fails is followed by a sleep of five seconds and the next
    attempt; the first attempt that succeeds gives the rule.  When the
    fifth attempt fails too, the goroutine panics with its error, after
    four sleeps, and the import panics with it, whatever the order in which
    the goroutines finish: no result, hence no partial rule set. *)
Theorem retry_five_attempts i p :
  Projects file !! i = Some p →
  isPrivate args p = false →
  (∀ k,
     k < 5 →
     (∀ j, j < k → snd (fst (attemptAt i base p (freshRule p) j)) ≠ None) →
     snd (fst (attemptAt i base p (freshRule p) k)) = None →
     goroutine args base i p initTask
     = (Returned (fst (fst (attemptAt i base p (freshRule p) k))),
        snd (attemptAt i base p (freshRule p) k))
     ∧ filter isSleep (trace (snd (attemptAt i base p (freshRule p) k)))
       = replicate k (EvSleep 5))
  ∧ ((∀ j, j < 5 → snd (fst (attemptAt i base p (freshRule p) j)) ≠ None) →
     (∃ err,
        snd (fst (attemptAt i base p (freshRule p) 4)) = Some err
        ∧ goroutine args base i p initTask
          = (Panicked err, snd (attemptAt i base p (freshRule p) 4)))
     ∧ filter isSleep (trace (snd (attemptAt i base p (freshRule p) 4)))
       = replicate 4 (EvSleep 5)
     ∧ ∀ sched, sched ≡ₚ seq 0 (length (Projects file)) →
         ∃ err, importReposFromDep args sched = Panicked err).
Proof.
  intros Hp Hpriv. split.
  - intros k Hk Hfail Hok. split.
    + rewrite goroutine_proxy by done.
      by apply (retryLoop_success i base p (freshRule p) k 5 0 initTask).
    + unfold attemptAt. by rewrite ruleUsingGoProxy_sleeps, stateAt_sleeps.
  - intros Hfail.
    destruct (retryLoop_exhausted i base p (freshRule p) 5 0 initTask)
      as (err & Herr & Hloop); [done|lia|done|].
    split_and!.
    + exists err. split; [done|]. by rewrite goroutine_proxy.
    + unfold attemptAt. by rewrite ruleUsingGoProxy_sleeps, stateAt_sleeps.
    + intros sched Hperm.
      apply (importReposFromDep_panics sched i p err); [done..|].
      rewrite goroutine_proxy by done. by rewrite Hloop.
Qed.

(** C3: a project whose name matches the private pattern, or for which
    [path.Match] reports a malformed pattern, gets its rule without any
    effect on the outside world: no request is made.  The rule has the
    revision as [commit]; with a source override it has the source as
    [remote] and [vcs = "git"], and neither attribute without one.  It is
    one of the rules the import returns. *)
Theorem private_project_rule i p :
  fst (path_Match (GoPrivate args) (Name p)) = true
  ∨ snd (path_Match (GoPrivate args) (Name p)) ≠ None →
  ∃ r,
    (∀ st, goroutine args base i p st = (Returned r, st))
    ∧ rule.Name r = ImportPathToBazelRepoName (Name p)
    ∧ rule.Attr r "commit" = Some (rule.AttrString (Revision p))
    ∧ (Source p ≠ "" →
         rule.Attr r "remote" = Some (rule.AttrString (Source p))
         ∧ rule.Attr r "vcs" = Some (rule.AttrString "git"))
    ∧ (Source p = "" →
         rule.Attr r "remote" = None ∧ rule.Attr r "vcs" = None)
    ∧ rule.Attr r "urls" = None
    ∧ ∀ sched res,
        sched ≡ₚ seq 0 (length (Projects file)) →
        Projects file !! i = Some p →
        importReposFromDep args sched = Returned res →
        r ∈ Gen res.
Proof.
  intros Hmatch.
  assert (isPrivate args p = true) as Hpriv.
  { unfold isPrivate.
    destruct (path_Match (GoPrivate args) (Name p)) as [ok [err|]];
      simpl in *; [by rewrite orb_true_r|].
    destruct Hmatch as [->|?]; done. }
  eexists. split_and!.
  - intros st. by apply goroutine_private.
  - simpl. by destruct (String.eqb (Source p) "").
  - simpl. destruct (negb (String.eqb (Source p) ""));
      rewrite ?ruleFacts.Attr_SetAttr_ne by done;
      apply ruleFacts.Attr_SetAttr_eq.
  - intros Hsrc. apply String.eqb_neq in Hsrc. simpl. rewrite Hsrc. simpl.
    split; [|apply ruleFacts.Attr_SetAttr_eq].
    rewrite ruleFacts.Attr_SetAttr_ne by done.
    apply ruleFacts.Attr_SetAttr_eq.
  - intros Hsrc. simpl. rewrite Hsrc. done.
  - simpl. by destruct (String.eqb (Source p) "").
  - intros sched res Hperm Hp Hres.
    apply (importReposFromDep_elem sched res i p); [done..|].
    by rewrite goroutine_private.
Qed.

End Resolution.

(** The slicing of the source agrees with stripping a prefix or a suffix. *)
Lemma withoutPrefix_slice prefix : ∀ s,
  withoutPrefix prefix s
  = if HasPrefix s prefix then Some (slice_from s (String.length prefix))
    else None.
Proof.
  induction prefix as [|a prefix IH]; intros s.
  - unfold HasPrefix, slice_to. simpl.
    rewrite GoStringsFacts.substring_zero, GoStringsFacts.slice_from_zero.
    done.
  - destruct s as [|b s]; [done|]. simpl. rewrite IH.
    unfold HasPrefix, slice_to, slice_from. simpl.
    destruct (Ascii.eqb b a); simpl; [done|].
    by rewrite andb_false_r.
Qed.

Lemma withoutSuffix_unfold suffix s :
  withoutSuffix suffix s
  = if String.eqb s suffix then Some EmptyString
    else match s with
         | EmptyString => None
         | String c s' => String c <$> withoutSuffix suffix s'
         end.
Proof. by destruct s. Qed.

Lemma withoutSuffix_slice suffix : ∀ s,
  withoutSuffix suffix s
  = if HasSuffix s suffix
    then Some (slice_to s (String.length s - String.length suffix))
    else None.
Proof.
  induction s as [|c s IH].
  - destruct suffix; done.
  - rewrite withoutSuffix_unfold.
    destruct (String.eqb (String c s) suffix) eqn:Heq.
    { apply String.eqb_eq in Heq as <-.
      rewrite GoStringsFacts.HasSuffix_self, Nat.sub_diag. done. }
    rewrite IH. unfold HasSuffix, slice_from, slice_to.
    destruct (decide (String.length suffix ≤ String.length s)) as [Hle|Hgt].
    + replace (String.length (String c s) - String.length suffix)
        with (S (String.length s - String.length suffix)) by (simpl; lia).
      replace (String.length suffix <=? String.length (String c s))
        with true by (symmetry; apply Nat.leb_le; simpl; lia).
      replace (String.length suffix <=? String.length s)
        with true by (symmetry; by apply Nat.leb_le).
      simpl. destruct (String.eqb (String.substring _ _ s) suffix); reflexivity.
    + replace (String.length suffix <=? String.length s)
        with false by (symmetry; apply Nat.leb_gt; lia).
      simpl.
      destruct (decide (String.length suffix = S (String.length s)))
        as [Heq'|Hne].
      * rewrite Heq', Nat.leb_refl, Nat.sub_diag. simpl.
        rewrite GoStringsFacts.substring_full.
        simpl in Heq. by rewrite Heq.
      * replace (String.length suffix <=? S (String.length s))
          with false by (symmetry; apply Nat.leb_gt; lia).
        done.
Qed.

(** Every request of [ruleUsingGoProxy] goes to
    [{goProxyBase}/{name}/@v/...] for the module path [name], the first
    one to the info endpoint of the revision. *)
Lemma ruleUsingGoProxy_requests i base p r st :
  ∃ evs,
    trace (snd (ruleUsingGoProxy i base p r st))
    = trace st ++ EvGet (infoURL base (proxyModuleName p) (Revision p)) :: evs
    ∧ Forall (λ e, ∀ url, e = EvGet url →
                ∃ version,
                  url = zipURL base (proxyModuleName p) version) evs.
Proof.
  task_unfold. repeat case_match; simplify_eq/=;
    eexists; rewrite <- ?app_assoc; (split; [reflexivity|]);
    repeat constructor; intros url [= <-]; by eexists.
Qed.

(** C4: the module path asked of the proxy is the one the specification
    describes: the source override when there is one, without a trailing
    [.git] and without a leading [https://], the name of the project
    otherwise, in lower case.  So [https://example.com/foo.git] gives
    [example.com/foo].  Every proxy URL of the project is built on it. *)
Theorem proxy_module_path p :
  proxyModuleName p = specModulePath p
  ∧ (∀ name revision,
       proxyModuleName {| Name := name; Revision := revision;
                          Source := "https://example.com/foo.git" |}
       = "example.com/foo")
  ∧ ∀ i goProxyBase r st,
      ∃ evs,
        trace (snd (ruleUsingGoProxy i goProxyBase p r st))
        = trace st
          ++ EvGet (goProxyBase +:+ "/" +:+ proxyModuleName p +:+ "/@v/"
                    +:+ Revision p +:+ ".info") :: evs
        ∧ Forall (λ e, ∀ url, e = EvGet url →
                    ∃ version,
                      url = goProxyBase +:+ "/" +:+ proxyModuleName p
                            +:+ "/@v/" +:+ version +:+ ".zip") evs.
Proof.
  split_and!.
  - unfold proxyModuleName, specModulePath.
    destruct (decide (Source p = "")) as [->|Hsrc]; [done|].
    apply String.eqb_neq in Hsrc as ->. simpl negb. cbv iota.
    f_equal. rewrite withoutSuffix_slice, withoutPrefix_slice.
    destruct (HasSuffix (Source p) ".git"); unfold default; cbv iota;
      by destruct (HasPrefix _ "https://").
  - done.
  - intros i goProxyBase r st. apply ruleUsingGoProxy_requests.
Qed.

End Facts.

(** *** The example import *)
Import DepExample.

Ltac by_decide :=
  lazymatch goal with
  | |- ?P => apply (bool_decide_unpack P); vm_compute; exact I
  end.

Example imported_names :
  rule.Name <$> Gen imported
  = ["corp_example_secret"; "github_com_Masterminds_semver";
     "github_com_pkg_errors"; "github_com_pkg_errors"].
Proof. reflexivity. Qed.

Lemma finishOrder_complete :
  finishOrder ≡ₚ seq 0 (length (Projects manifest)).
Proof. by_decide. Defined.

Lemma importReposFromDep_sorted_witness :
  length (Gen imported) = 4
  ∧ StronglySorted (λ a b, String.le (rule.Name a) (rule.Name b))
      (Gen imported)
  ∧ @importReposFromDep goodProxy importArgs [3; 2; 1; 0] = Returned imported.
Proof.
  destruct (importReposFromDep_sorted (E := goodProxy) importArgs
              "[[projects]]" manifest eq_refl eq_refl finishOrder imported)
    as (_ & Hlen & _ & Hsorted & Hany).
  - exact finishOrder_complete.
  - vm_compute. reflexivity.
  - split_and!; [exact Hlen|exact Hsorted|].
    apply Hany. by_decide.
Defined.

Lemma importReposFromDep_stable_witness :
  ∃ order a b,
    order ≡ₚ [0; 1; 2; 3] ∧ a < b
    ∧ order !! a = Some 0 ∧ order !! b = Some 3.
Proof.
  destruct (importReposFromDep_stable (E := goodProxy) importArgs
              "[[projects]]" manifest eq_refl eq_refl finishOrder imported)
    as (rules & order & _ & Hperm & _ & Hstable).
  - exact finishOrder_complete.
  - vm_compute. reflexivity.
  - destruct (Hstable 0 3
                {| Name := "github.com/pkg/errors"; Revision := "ba968bfe";
                   Source := "" |}
                {| Name := "github.com/pkg-errors"; Revision := "614d223a";
                   Source := "" |})
      as (a & b & Hab & Ha & Hb); [lia|reflexivity|reflexivity|reflexivity|].
    exists order, a, b. split_and!; [exact Hperm|exact Hab|exact Ha|exact Hb].
Defined.

Lemma retry_five_attempts_witness :
  ∃ err, @importReposFromDep goneProxy importArgs finishOrder = Panicked err.
Proof.
  destruct (retry_five_attempts (E := goneProxy) importArgs
              "[[projects]]" manifest eq_refl eq_refl 0
              {| Name := "github.com/pkg/errors"; Revision := "ba968bfe";
                 Source := "" |} eq_refl eq_refl)
    as [_ Hexhausted].
  destruct Hexhausted as (_ & _ & Hpanic).
  - intros j Hj. destruct j as [|[|[|[|[|j]]]]]; [done..|lia].
  - apply Hpanic. exact finishOrder_complete.
Defined.

(** Four failures, then a success: the fifth attempt gives the rule, after
    five info requests and four sleeps. *)
Example flaky_fifth_attempt :
  let p := {| Name := "github.com/pkg/errors"; Revision := "ba968bfe";
              Source := "" |} in
  ∃ r st,
    @goroutine flakyProxy importArgs defaultGoProxyBase 0 p initTask
    = (Returned r, st)
    ∧ filter isGet (trace st)
      = replicate 5
          (EvGet "https://proxy.golang.org/github.com/pkg/errors/@v/ba968bfe.info")
        ++ [EvGet "https://proxy.golang.org/github.com/pkg/errors/@v/v1.2.3.zip"]
    ∧ filter isSleep (trace st) = replicate 4 (EvSleep 5).
Proof. simpl. eexists _, _. split_and!; reflexivity. Qed.

Lemma private_project_rule_witness :
  ∃ r,
    @goroutine goodProxy importArgs defaultGoProxyBase 1
      {| Name := "corp.example/secret"; Revision := "0f3a11c2";
         Source := "https://git.corp.example/secret.git" |} initTask
    = (Returned r, initTask)
    ∧ rule.Attr r "commit" = Some (rule.AttrString "0f3a11c2")
    ∧ rule.Attr r "remote"
      = Some (rule.AttrString "https://git.corp.example/secret.git")
    ∧ rule.Attr r "vcs" = Some (rule.AttrString "git")
    ∧ r ∈ Gen imported.
Proof.
  destruct (private_project_rule (E := goodProxy) importArgs
              "[[projects]]" manifest eq_refl eq_refl 1
              {| Name := "corp.example/secret"; Revision := "0f3a11c2";
                 Source := "https://git.corp.example/secret.git" |})
    as (r & Hrun & _ & Hcommit & Hsource & _ & _ & Hin).
  - left. reflexivity.
  - destruct Hsource as [Hremote Hvcs]; [done|].
    exists r. split_and!;
      [apply Hrun|exact Hcommit|exact Hremote|exact Hvcs|].
    apply (Hin finishOrder imported);
      [exact finishOrder_complete|reflexivity|vm_compute; reflexivity].
Defined.

Example proxyModuleName_examples :
  @proxyModuleName goodProxy
    {| Name := "github.com/Masterminds/semver"; Revision := "c7af1294";
       Source := "" |}
  = "github.com/masterminds/semver"
  ∧ @proxyModuleName goodProxy
      {| Name := "semver"; Revision := "c7af1294";
         Source := "https://GitHub.com/Masterminds/semver.git" |}
    = "github.com/masterminds/semver"
  ∧ @proxyModuleName goodProxy
      {| Name := "semver"; Revision := "c7af1294";
         Source := "git.example.com/semver" |}
    = "git.example.com/semver".
Proof. repeat split. Qed.

(** A malformed pattern makes every project private. *)
Example malformed_pattern_is_private :
  Forall (λ p, @isPrivate goodProxy badPatternArgs p = true)
    (Projects manifest).
Proof. repeat constructor. Qed.

End DepFacts.

(** ** autogazelle *)
Module AutogazelleFacts.
Import GoStrings Autogazelle.

Lemma copyBufSize_pos : 0 < copyBufSize.
Proof. unfold copyBufSize. lia. Qed.

Lemma writeAt_end (content data : bytes) :
  writeAt content (length content) data = content ++ data.
Proof.
  unfold writeAt. rewrite take_ge by lia. rewrite drop_ge by lia.
  by rewrite app_nil_r.
Qed.

Section Facts.
Context `{sys : Sys}.

Ltac io_unfold :=
  unfold osOpen, osCreate, osStat, fileWrite, fileRead, fileClose, perform,
    opCount, getFiles, setFile, logPrint, mbind, io_bind, mret, io_ret;
  simpl; cbn [files log ops addOp addLog putFile].

(** One round of [io.Copy] from a file to another file. *)
Lemma ioCopy_unfold fuel wf rf w :
  ioCopy (S fuel) wf rf w
  = match fault (length (ops w)) with
    | Some err => Some (Some err, addOp (OpRead (fpath rf)) w)
    | None =>
        let data := take copyBufSize
                      (drop (offset rf) (contentOf (files w) (fpath rf))) in
        let w1 := addOp (OpRead (fpath rf)) w in
        match data with
        | [] => Some (None, w1)
        | _ :: _ =>
            let written :=
              match fault (length (ops w1)) with
              | Some _ => take (short_write (length (ops w1))) data
              | None => data
              end in
            let w2 :=
              putFile (fpath wf)
                (writeAt (contentOf (files w1) (fpath wf)) (offset wf) written)
                (addOp (OpWrite (fpath wf) data) w1) in
            match fault (length (ops w1)) with
            | Some err => Some (Some err, w2)
            | None =>
                ioCopy fuel
                  {| fpath := fpath wf; offset := offset wf + length data |}
                  {| fpath := fpath rf; offset := offset rf + length data |}
                  w2
            end
        end
    end.
Proof.
  simpl. io_unfold.
  destruct (fault (length (ops w))) as [err|]; [done|].
  destruct (take copyBufSize _) as [|c data]; [done|].
  unfold addOp at 1 2 3 4 5. simpl.
  destruct (fault (length (ops w ++ [OpRead (fpath rf)]))); done.
Qed.

Lemma take_drop_length {A : Type} (n : nat) (l : list A) :
  take n l ++ drop (length (take n l)) l = l.
Proof.
  rewrite length_take. destruct (decide (n ≤ length l)).
  - rewrite Nat.min_l by done. apply take_drop.
  - rewrite Nat.min_r by lia. rewrite take_ge, drop_ge by lia.
    apply app_nil_r.
Qed.

Lemma take_nil_inv {A : Type} (n : nat) (l : list A) :
  0 < n → take n l = [] → l = [].
Proof. destruct n, l; simpl; (lia || done). Qed.

Lemma contentOf_Some (fs : gmap string bytes) path content :
  fs !! path = Some content → contentOf fs path = content.
Proof. unfold contentOf. by intros ->. Qed.

(** [io.Copy] between two different files: the source is left alone, and
    when the copy succeeds the rest of the source has been put at the end
    of the destination. *)
Lemma ioCopy_distinct fuel : ∀ wf rf w B C res w',
  fpath wf ≠ fpath rf →
  files w !! fpath rf = Some B → files w !! fpath wf = Some C →
  offset wf = length C → offset rf ≤ length B →
  ioCopy fuel wf rf w = Some (res, w') →
  files w' !! fpath rf = Some B
  ∧ log w' = log w
  ∧ (res = None → files w' !! fpath wf = Some (C ++ drop (offset rf) B))
  ∧ ∀ path, path ≠ fpath wf → files w' !! path = files w !! path.
Proof.
  induction fuel as [|fuel IH]; intros wf rf w B C res w' Hne HB HC Hwo Hro Hrun;
    [done|].
  rewrite ioCopy_unfold in Hrun.
  destruct (fault (length (ops w))) as [err|]; [by simplify_eq/=|].
  rewrite (contentOf_Some _ _ _ HB) in Hrun. simpl in Hrun.
  destruct (take copyBufSize (drop (offset rf) B)) as [|c data] eqn:Hdata.
  { simplify_eq/=. split_and!; [done..| |done].
    intros _. apply take_nil_inv in Hdata; [|apply copyBufSize_pos].
    by rewrite Hdata, app_nil_r. }
  rewrite (contentOf_Some _ _ _ HC) in Hrun.
  destruct (fault (length (ops w ++ [OpRead (fpath rf)]))) as [err|].
  { simplify_eq/=. split_and!; [|done..|].
    - by rewrite lookup_insert_ne.
    - intros path Hp. by rewrite lookup_insert_ne. }
  rewrite Hwo, writeAt_end in Hrun.
  assert (length (c :: data) ≤ length B - offset rf) as Hlen.
  { rewrite <- Hdata, length_take, <- (length_drop B). lia. }
  eapply (IH _ _ _ B (C ++ c :: data)) in Hrun as (HB' & Hlog & Hcont & Hrest);
    simpl; [|done|by rewrite lookup_insert_ne|by rewrite lookup_insert_eq
            |by rewrite length_app|simpl in Hlen; lia].
  simpl in *. split_and!; [done..| |].
  - intros Hres. rewrite (Hcont Hres). f_equal. rewrite <- app_assoc. f_equal.
    rewrite <- (drop_drop B), <- Hdata.
    change (S (length data)) with (length (c :: data)). rewrite <- Hdata.
    by rewrite take_drop_length.
  - intros path Hp. rewrite Hrest by done. by rewrite lookup_insert_ne.
Qed.

(** Without faults and with a round per byte, that copy succeeds. *)
Lemma ioCopy_runs fuel : ∀ wf rf w B C,
  (∀ k, fault k = None) →
  fpath wf ≠ fpath rf →
  files w !! fpath rf = Some B → files w !! fpath wf = Some C →
  length B - offset rf < fuel →
  ∃ w', ioCopy fuel wf rf w = Some (None, w').
Proof.
  induction fuel as [|fuel IH]; intros wf rf w B C Hok Hne HB HC Hfuel; [lia|].
  rewrite ioCopy_unfold, !Hok.
  rewrite (contentOf_Some _ _ _ HB). simpl.
  destruct (take copyBufSize (drop (offset rf) B)) as [|c data] eqn:Hdata;
    [by eexists|].
  rewrite Hok.
  assert (length (c :: data) ≤ length B - offset rf) as Hlen.
  { rewrite <- Hdata, length_take, <- (length_drop B). lia. }
  simpl in Hlen.
  eapply (IH _ _ _ B); simpl; [done|done|by rewrite lookup_insert_ne
                                |by rewrite lookup_insert_eq|lia].
Qed.

(** [io.Copy] from a file to its own end never reaches the end of the
    file: it fails or it goes on for ever. *)
Lemma ioCopy_same fuel : ∀ wf rf w C res w',
  fpath wf = fpath rf →
  files w !! fpath wf = Some C →
  offset wf = length C → offset rf < length C →
  ioCopy fuel wf rf w = Some (res, w') →
  res ≠ None.
Proof.
  induction fuel as [|fuel IH]; intros wf rf w C res w' Heq HC Hwo Hro Hrun;
    [done|].
  rewrite ioCopy_unfold in Hrun.
  destruct (fault (length (ops w))) as [err|]; [by simplify_eq/=|].
  rewrite <- Heq, (contentOf_Some _ _ _ HC) in Hrun. simpl in Hrun.
  destruct (take copyBufSize (drop (offset rf) C)) as [|c data] eqn:Hdata.
  { apply take_nil_inv in Hdata; [|apply copyBufSize_pos].
    apply (f_equal length) in Hdata. rewrite length_drop in Hdata.
    simpl in Hdata. lia. }
  destruct (fault (length (ops w ++ [OpRead (fpath wf)]))) as [err|];
    [by simplify_eq/=|].
  rewrite (contentOf_Some _ _ _ HC), Hwo, writeAt_end in Hrun.
  eapply (IH _ _ _ (C ++ c :: data)) in Hrun; simpl;
    [done|done|by rewrite lookup_insert_eq|by rewrite length_app
    |rewrite length_app; simpl; lia].
Qed.

Lemma header_text src :
  header src
  = "# This file was generated from " +:+ Base src +:+ nl
    +:+ "# by " +:+ programName +:+ nl
    +:+ "# DO NOT EDIT" +:+ nl +:+ nl.
Proof. reflexivity. Qed.

Lemma header_nonempty src : 0 < length (bytes_of (header src)).
Proof. unfold header, bytes_of, String.append. simpl. lia. Qed.

Lemma io_bind_eq {A B : Type} (m : IO A) (f : A → IO B) w :
  (m ≫= f) w = match m w with
               | None => None
               | Some (a, w') => f a w'
               end.
Proof. reflexivity. Qed.

Lemma osOpen_eq src w :
  osOpen src w
  = Some (match fault (length (ops w)) with
          | Some err => Err err
          | None =>
              match files w !! src with
              | None => Err (noSuchFile "open" src)
              | Some _ => Ok {| fpath := src; offset := 0 |}
              end
          end, addOp (OpOpen src) w).
Proof.
  io_unfold. destruct (fault (length (ops w))); [done|].
  cbn [files addOp]. by destruct (files w !! _).
Qed.

Lemma osCreate_eq dest w :
  osCreate dest w
  = Some (match fault (length (ops w)) with
          | Some err => (Err err, addOp (OpCreate dest) w)
          | None => (Ok {| fpath := dest; offset := 0 |},
                     putFile dest [] (addOp (OpCreate dest) w))
          end).
Proof. io_unfold. by destruct (fault (length (ops w))). Qed.

Lemma osStat_eq path w :
  osStat path w
  = Some (match fault (length (ops w)) with
          | Some err => Some err
          | None =>
              match files w !! path with
              | None => Some (noSuchFile "stat" path)
              | Some _ => None
              end
          end, addOp (OpStat path) w).
Proof.
  io_unfold. destruct (fault (length (ops w))); [done|].
  cbn [files addOp]. by destruct (files w !! _).
Qed.

Lemma fileWrite_eq f data w :
  fileWrite f data w
  = let written :=
      match fault (length (ops w)) with
      | Some _ => take (short_write (length (ops w))) data
      | None => data
      end in
    Some (({| fpath := fpath f; offset := offset f + length written |},
           fault (length (ops w))),
          putFile (fpath f)
            (writeAt (contentOf (files w) (fpath f)) (offset f) written)
            (addOp (OpWrite (fpath f) data) w)).
Proof. reflexivity. Qed.

Lemma fileClose_eq f w :
  fileClose f w = Some (fault (length (ops w)), addOp (OpClose (fpath f)) w).
Proof. reflexivity. Qed.

(** [os.Open] fails when the system refuses or the file is missing, and
    only then; it changes no file. *)
Lemma osOpen_Err src w err w1 :
  osOpen src w = Some (Err err, w1) →
  (fault (length (ops w)) = Some err
   ∨ fault (length (ops w)) = None ∧ files w !! src = None)
  ∧ w1 = addOp (OpOpen src) w.
Proof.
  rewrite osOpen_eq. intros H. repeat case_match; simplify_eq/=; auto.
Qed.

Lemma osOpen_Ok src w B :
  fault (length (ops w)) = None → files w !! src = Some B →
  osOpen src w
  = Some (Ok {| fpath := src; offset := 0 |}, addOp (OpOpen src) w).
Proof. rewrite osOpen_eq. by intros -> ->. Qed.

Lemma writeAt_nil (data : bytes) : writeAt [] 0 data = data.
Proof. unfold writeAt. simpl. by rewrite drop_nil, app_nil_r. Qed.

(** What a successful [restoreFile] has done. *)
Lemma restoreFile_success fuel src dest w B w' :
  files w !! src = Some B →
  restoreFile fuel src dest w = Some (None, w') →
  src ≠ dest
  ∧ files w' !! dest = Some (bytes_of (header src) ++ B)
  ∧ files w' !! src = Some B
  ∧ log w' = log w
  ∧ ∀ path, path ≠ dest → files w' !! path = files w !! path.
Proof.
  intros HB. unfold restoreFile.
  rewrite io_bind_eq, osOpen_eq, HB.
  destruct (fault (length (ops w))) as [err|]; [done|].
  rewrite io_bind_eq, osCreate_eq.
  destruct (fault (length (ops (addOp (OpOpen src) w)))) as [err|].
  { rewrite io_bind_eq, fileClose_eq. done. }
  rewrite io_bind_eq, fileWrite_eq. cbv zeta. cbn [fpath offset].
  set (w3 := putFile dest [] _).
  assert (contentOf (files w3) dest = []) as ->.
  { apply contentOf_Some. apply lookup_insert_eq. }
  destruct (fault (length (ops w3))) as [err|].
  { rewrite !io_bind_eq. unfold mret, io_ret. rewrite !io_bind_eq, !fileClose_eq.
    done. }
  rewrite writeAt_nil, Nat.add_0_l.
  rewrite !io_bind_eq.
  destruct (ioCopy fuel _ _ _) as [[res w5]|] eqn:Hcopy; [|done].
  rewrite !io_bind_eq, !fileClose_eq. unfold mret, io_ret.
  intros Hres.
  assert (res = None) as ->.
  { destruct res; by simplify_eq/=. }
  rewrite io_bind_eq, fileClose_eq in Hres.
  set (H := bytes_of (header src)) in *.
  set (w4 := putFile dest H _) in *.
  assert (files w4 !! dest = Some H) as Hdest by apply lookup_insert_eq.
  destruct (decide (src = dest)) as [->|Hne].
  { destruct (ioCopy_same fuel
                {| fpath := dest; offset := length H |}
                {| fpath := dest; offset := 0 |} w4 H None w5);
      [done..|apply header_nonempty|done|done]. }
  destruct (ioCopy_distinct fuel
              {| fpath := dest; offset := length H |}
              {| fpath := src; offset := 0 |} w4 B H None w5)
    as (HB' & Hlog & Hcont & Hrest); [by intros ?| |done|done|simpl; lia|done|].
  { unfold w4, w3. cbn [files putFile addOp fpath].
    by rewrite !lookup_insert_ne. }
  cbn [fpath offset] in *. simplify_eq/=.
  split_and!; [done|by rewrite Hcont|done..|].
  intros path Hp. rewrite Hrest by done. by rewrite !lookup_insert_ne.
Qed.

(** Without faults, and with a round of [io.Copy] per byte of the template,
    [restoreFile] to another file succeeds. *)
Lemma restoreFile_runs fuel src dest w B :
  (∀ k, fault k = None) → src ≠ dest →
  files w !! src = Some B → length B < fuel →
  ∃ w', restoreFile fuel src dest w = Some (None, w').
Proof.
  intros Hok Hne HB Hfuel. unfold restoreFile.
  rewrite io_bind_eq, osOpen_eq, HB, Hok.
  rewrite io_bind_eq, osCreate_eq, Hok.
  rewrite io_bind_eq, fileWrite_eq, Hok. cbv zeta. cbn [fpath offset].
  set (w4 := putFile dest _ _).
  destruct (ioCopy_runs fuel
              {| fpath := dest;
                 offset := 0 + length (bytes_of (header src)) |}
              {| fpath := src; offset := 0 |} w4 B
              (writeAt (contentOf (files (putFile dest []
                         (addOp (OpCreate dest) (addOp (OpOpen src) w)))) dest)
                 0 (bytes_of (header src))))
    as [w5 Hcopy]; [done|by intros ?| |apply lookup_insert_eq|simpl; lia|].
  { unfold w4. cbn [files putFile addOp fpath]. by rewrite !lookup_insert_ne. }
  rewrite !io_bind_eq, Hcopy.
  rewrite !io_bind_eq, fileClose_eq, Hok.
  rewrite !io_bind_eq, fileClose_eq. by eexists.
Qed.

(** C5: when [restoreFile(src, dest)] succeeds on a template of bytes [B],
    [dest] holds the header, [# This file was generated from <base name of
    src>], [# by <program name>], [# DO NOT EDIT] and an empty line, and
    then [B], whatever [dest] held before or whether it existed.  A second
    successful restore leaves the same content.  Without faults the restore
    to a file other than the template does succeed. *)
Theorem restoreFile_content src dest B w :
  files w !! src = Some B →
  header src
  = "# This file was generated from " +:+ Base src +:+ nl
    +:+ "# by " +:+ programName +:+ nl
    +:+ "# DO NOT EDIT" +:+ nl +:+ nl
  ∧ (∀ fuel w',
       restoreFile fuel src dest w = Some (None, w') →
       files w' !! dest = Some (bytes_of (header src) ++ B)
       ∧ ∀ fuel2 w'',
           restoreFile fuel2 src dest w' = Some (None, w'') →
           files w'' !! dest = files w' !! dest)
  ∧ (src ≠ dest → (∀ k, fault k = None) →
       ∃ w', restoreFile (S (length B)) src dest w = Some (None, w')).
Proof.
  intros HB. split_and!.
  - reflexivity.
  - intros fuel w' Hrun.
    destruct (restoreFile_success _ _ _ _ _ _ HB Hrun)
      as (Hne & Hdest & Hsrc & _).
    split; [done|]. intros fuel2 w'' Hrun2.
    destruct (restoreFile_success _ _ _ _ _ _ Hsrc Hrun2) as (_ & Hdest2 & _).
    by rewrite Hdest, Hdest2.
  - intros Hne Hok. apply (restoreFile_runs _ _ _ _ B); [done..|lia].
Qed.

(** C9: when [os.Open(src)] fails, [restoreFile] returns its error having
    performed nothing but the open: [dest] is not opened, and no file is
    created, truncated or changed. *)
Theorem restoreFile_open_error fuel src dest w err w1 :
  osOpen src w = Some (Err err, w1) →
  restoreFile fuel src dest w = Some (Some err, w1)
  ∧ ops w1 = ops w ++ [OpOpen src]
  ∧ files w1 = files w
  ∧ files w1 !! dest = files w !! dest
  ∧ log w1 = log w.
Proof.
  intros Hopen. unfold restoreFile. rewrite io_bind_eq, Hopen.
  apply osOpen_Err in Hopen as [_ ->]. done.
Qed.

(** [os.Open] fails exactly when the system refuses it or the file is
    missing. *)
Lemma osOpen_fails_iff src w :
  (∃ err w1, osOpen src w = Some (Err err, w1))
  ↔ fault (length (ops w)) ≠ None ∨ files w !! src = None.
Proof.
  rewrite osOpen_eq. split.
  - intros (err & w1 & H).
    destruct (fault (length (ops w))); [by left|].
    destruct (files w !! src); [done|by right].
  - intros [Hf|Hs].
    + destruct (fault (length (ops w))); [by eexists _, _|done].
    + rewrite Hs. destruct (fault (length (ops w))); by eexists _, _.
Qed.

Lemma fileOps_refl w : fileOps w w.
Proof. exists []. by rewrite app_nil_r. Qed.

Lemma fileOps_trans w1 w2 w3 : fileOps w1 w2 → fileOps w2 w3 → fileOps w1 w3.
Proof.
  intros (n1 & H1 & F1) (n2 & H2 & F2). exists (n1 ++ n2).
  rewrite H2, H1, app_assoc. split; [done|]. by apply Forall_app.
Qed.

Lemma fileOps_addOp op w : isStat op = false → fileOps w (addOp op w).
Proof. intros Hop. exists [op]. split; [done|]. by constructor. Qed.

Lemma fileOps_putFile path content w : fileOps w (putFile path content w).
Proof. exists []. simpl. by rewrite app_nil_r. Qed.

Ltac file_ops :=
  repeat first
    [ apply fileOps_refl
    | eapply fileOps_trans; [|apply fileOps_putFile]
    | eapply fileOps_trans; [|by apply fileOps_addOp] ].

Lemma ioCopy_ops fuel : ∀ wf rf w res w',
  ioCopy fuel wf rf w = Some (res, w') → fileOps w w'.
Proof.
  induction fuel as [|fuel IH]; intros wf rf w res w' Hrun; [done|].
  rewrite ioCopy_unfold in Hrun. cbv zeta in Hrun.
  destruct (fault (length (ops w))) as [err|].
  { simplify_eq. file_ops. }
  destruct (take copyBufSize _) as [|c data].
  { simplify_eq. file_ops. }
  destruct (fault (length (ops (addOp (OpRead (fpath rf)) w)))) as [err|].
  { simplify_eq. file_ops. }
  apply IH in Hrun. eapply fileOps_trans; [|done]. file_ops.
Qed.

Lemma restoreFile_ops fuel src dest w res w' :
  restoreFile fuel src dest w = Some (res, w') → fileOps w w'.
Proof.
  unfold restoreFile. rewrite io_bind_eq, osOpen_eq.
  destruct (match fault (length (ops w)) with
            | Some err => Err err
            | None => _
            end) as [r|err].
  2:{ intros [= <- <-]. file_ops. }
  rewrite io_bind_eq, osCreate_eq.
  destruct (fault (length (ops (addOp (OpOpen src) w)))) as [err|].
  { rewrite io_bind_eq, fileClose_eq. intros [= <- <-]. file_ops. }
  rewrite io_bind_eq, fileWrite_eq. cbv zeta.
  destruct (fault (length (ops (putFile dest [] _)))) as [err|].
  { rewrite !io_bind_eq. unfold mret at 1, io_ret at 1.
    rewrite !io_bind_eq, fileClose_eq, !io_bind_eq, fileClose_eq.
    intros [= <- <-]. file_ops. }
  rewrite !io_bind_eq.
  destruct (ioCopy fuel _ _ _) as [[err w5]|] eqn:Hcopy; [|done].
  rewrite !io_bind_eq, fileClose_eq, !io_bind_eq, fileClose_eq.
  intros [= <- <-]. apply ioCopy_ops in Hcopy.
  eapply fileOps_trans; [|eapply fileOps_trans; [exact Hcopy|file_ops]].
  file_ops.
Qed.

(** A base name whose [.in] file cannot be examined is passed over: nothing
    but the [os.Stat] happens. *)
Lemma restoreBase_skip fuel dir base w :
  fault (length (ops w)) ≠ None
  ∨ files w !! filepath_Join dir (base +:+ ".in") = None →
  restoreBase fuel dir base w
  = Some (tt, addOp (OpStat (filepath_Join dir (base +:+ ".in"))) w).
Proof.
  intros Hmiss. unfold restoreBase. rewrite io_bind_eq, osStat_eq.
  destruct (fault (length (ops w))) as [err|]; [done|].
  destruct Hmiss as [? | ->]; done.
Qed.

Lemma restoreBase_ops fuel dir base w w' :
  restoreBase fuel dir base w = Some (tt, w') →
  fileOps (addOp (OpStat (filepath_Join dir (base +:+ ".in"))) w) w'.
Proof.
  unfold restoreBase. rewrite io_bind_eq, osStat_eq.
  destruct (match fault (length (ops w)) with
            | Some err => Some err
            | None => _
            end) as [err|].
  { intros [= <-]. apply fileOps_refl. }
  rewrite io_bind_eq.
  destruct (restoreFile fuel _ _ _) as [[res w1]|] eqn:Hrun; [|done].
  apply restoreFile_ops in Hrun. destruct res as [err|]; intros [= <-]; [|done].
  eapply fileOps_trans; [done|]. exists []. simpl. by rewrite app_nil_r.
Qed.

(** C8: [restoreBuildFilesInDir] examines [BUILD.bazel.in] first and
    [BUILD.in] second, and these are its only calls of [os.Stat].  A base
    name whose [.in] file is missing, or cannot be examined, is passed over
    with nothing logged and no file touched.  With neither [.in] file the
    whole call only makes the two [os.Stat] calls: no file changes and
    nothing is logged. *)
Theorem restoreBuildFilesInDir_order fuel dir w :
  (∀ w', restoreBuildFilesInDir fuel dir w = Some (tt, w') →
     ∃ ops1 ops2,
       ops w' = ops w ++ OpStat (filepath_Join dir "BUILD.bazel.in") :: ops1
                      ++ OpStat (filepath_Join dir "BUILD.in") :: ops2
       ∧ Forall (λ op, isStat op = false) ops1
       ∧ Forall (λ op, isStat op = false) ops2)
  ∧ (∀ base w0,
       fault (length (ops w0)) ≠ None
       ∨ files w0 !! filepath_Join dir (base +:+ ".in") = None →
       restoreBase fuel dir base w0
       = Some (tt, addOp (OpStat (filepath_Join dir (base +:+ ".in"))) w0))
  ∧ (files w !! filepath_Join dir "BUILD.bazel.in" = None →
     files w !! filepath_Join dir "BUILD.in" = None →
     ∃ w', restoreBuildFilesInDir fuel dir w = Some (tt, w')
           ∧ files w' = files w ∧ log w' = log w
           ∧ ops w' = ops w ++ [OpStat (filepath_Join dir "BUILD.bazel.in");
                                OpStat (filepath_Join dir "BUILD.in")]).
Proof.
  split_and!.
  - intros w'. unfold restoreBuildFilesInDir. simpl forEach.
    rewrite io_bind_eq.
    destruct (restoreBase fuel dir "BUILD.bazel" w) as [[[] w1]|] eqn:H1;
      [|done].
    rewrite io_bind_eq.
    destruct (restoreBase fuel dir "BUILD" w1) as [[[] w2]|] eqn:H2; [|done].
    intros [= <-].
    apply restoreBase_ops in H1 as (ops1 & Hops1 & F1).
    apply restoreBase_ops in H2 as (ops2 & Hops2 & F2).
    exists ops1, ops2. split; [|done].
    rewrite Hops2. simpl. rewrite Hops1. simpl.
    by rewrite <- !app_assoc.
  - intros base w0. apply restoreBase_skip.
  - intros Hbazel Hbuild. unfold restoreBuildFilesInDir. simpl forEach.
    rewrite io_bind_eq, restoreBase_skip by (by right).
    rewrite io_bind_eq, restoreBase_skip by (by right).
    eexists. split; [done|]. simpl. by rewrite <- app_assoc.
Qed.

(** C7: in fast mode [runGazelle] with no directory returns nil at once:
    the world is as before, no process was run.  With directories it runs
    one command, [$BAZEL_REAL run <label> -- -args -index=false -r=false]
    followed by the directories and nothing else, and returns what the
    command returns. *)
Theorem runGazelle_fast dirs w :
  (dirs = [] → runGazelle fastMode dirs w = Some (None, w))
  ∧ (dirs ≠ [] →
     let args := [BAZEL_REAL; "run"; gazelleLabel; "--"; "-args";
                  "-index=false"; "-r=false"] ++ dirs in
     runGazelle fastMode dirs w
     = Some (fault (length (ops w)),
             addOp (OpExec args)
               (addLog ("running gazelle: " +:+ Join args " " +:+ nl) w))).
Proof.
  split.
  - by intros ->.
  - intros Hdirs. unfold runGazelle. destruct dirs as [|d dirs]; done.
Qed.

(** In full mode the command has neither [-r=false] nor directories. *)
Lemma runGazelle_full dirs w :
  let args := [BAZEL_REAL; "run"; gazelleLabel; "--"; "-args";
               "-index=false"] in
  runGazelle fullMode dirs w
  = Some (fault (length (ops w)),
          addOp (OpExec args)
            (addLog ("running gazelle: " +:+ Join args " " +:+ nl) w)).
Proof. done. Qed.

(** C6, as the code has it: when the root cannot be made absolute,
    [walkWorkspace] logs the error and returns.  It has no result, so the
    caller is given no error; [walkFunc] is not called and no operation is
    performed. *)
Theorem walkWorkspace_abs_error root walkFunc w err :
  filepath_Abs root = Err err →
  walkWorkspace root walkFunc w
  = Some (tt, addLog ("failed to find absolute path: " +:+ err) w)
  ∧ filter isWalkFunc
      (ops (addLog ("failed to find absolute path: " +:+ err) w))
    = filter isWalkFunc (ops w).
Proof. intros Habs. unfold walkWorkspace. by rewrite Habs. Qed.

End Facts.

(** *** The example workspace *)
Import AutogazelleExample.

Example Base_examples :
  Base "/work/BUILD.in" = "BUILD.in" ∧ Base "tools/" = "tools"
  ∧ Base "" = "." ∧ Base "///" = "/" ∧ Base "autogazelle" = "autogazelle".
Proof. repeat split. Qed.

Example programName_example : @programName goodSys = "autogazelle".
Proof. reflexivity. Qed.

Lemma restoreFile_content_witness :
  ∃ w',
    @restoreFile goodSys 14 "/work/BUILD.in" "/work/BUILD" workspace
    = Some (None, w')
    ∧ files w' !! "/work/BUILD"
      = Some (bytes_of ("# This file was generated from BUILD.in" +:+ nl
                        +:+ "# by autogazelle" +:+ nl
                        +:+ "# DO NOT EDIT" +:+ nl +:+ nl
                        +:+ "go_library()" +:+ nl)).
Proof.
  destruct (restoreFile_content (sys := goodSys)
              "/work/BUILD.in" "/work/BUILD" template workspace)
    as (_ & Hcontent & Hruns); [reflexivity|].
  destruct Hruns as [w' Hrun]; [done|done|].
  exists w'. split; [exact Hrun|].
  exact (proj1 (Hcontent _ _ Hrun)).
Defined.

(** Restoring a template onto itself does not come to an end. *)
Example restoreFile_onto_itself :
  @restoreFile goodSys 25 "/work/BUILD.in" "/work/BUILD.in" workspace = None.
Proof. vm_compute. reflexivity. Qed.

Lemma restoreFile_open_error_witness :
  ∃ w1,
    @restoreFile goodSys 14 "/work/BUILD.in" "/work/BUILD" orphaned
    = Some (Some "open /work/BUILD.in: no such file or directory", w1)
    ∧ files w1 !! "/work/BUILD" = Some (bytes_of "stale")
    ∧ ops w1 = [OpOpen "/work/BUILD.in"].
Proof.
  eexists.
  destruct (restoreFile_open_error (sys := goodSys) 14
              "/work/BUILD.in" "/work/BUILD" orphaned
              "open /work/BUILD.in: no such file or directory"
              (addOp (OpOpen "/work/BUILD.in") orphaned))
    as (Hrun & Hops & _ & Hdest & _); [reflexivity|].
  split_and!; [exact Hrun|by rewrite Hdest|exact Hops].
Defined.

Lemma restoreBuildFilesInDir_order_witness :
  ∃ w',
    @restoreBuildFilesInDir goodSys 14 "/work" bare = Some (tt, w')
    ∧ files w' = files bare ∧ log w' = []
    ∧ ops w' = [OpStat "/work/BUILD.bazel.in"; OpStat "/work/BUILD.in"].
Proof.
  destruct (restoreBuildFilesInDir_order (sys := goodSys) 14 "/work" bare)
    as (_ & _ & Hnone).
  destruct Hnone as (w' & Hrun & Hfiles & Hlog & Hops);
    [reflexivity|reflexivity|].
  exists w'. split_and!; [exact Hrun|exact Hfiles|exact Hlog|exact Hops].
Defined.

(** With the template present the restore comes after both checks of the
    first base name and before nothing else. *)
Example restoreBuildFilesInDir_restores :
  ∃ w',
    @restoreBuildFilesInDir goodSys 14 "/work" workspace = Some (tt, w')
    ∧ files w' !! "/work/BUILD"
      = Some (bytes_of (@header goodSys "/work/BUILD.in") ++ template)
    ∧ take 3 (ops w')
      = [OpStat "/work/BUILD.bazel.in"; OpStat "/work/BUILD.in";
         OpOpen "/work/BUILD.in"].
Proof. eexists. split_and!; vm_compute; reflexivity. Qed.

Lemma runGazelle_fast_witness :
  @runGazelle goodSys fastMode [] workspace = Some (None, workspace)
  ∧ ∃ w',
      @runGazelle goodSys fastMode ["cmd/tool"; "pkg"] workspace
      = Some (None, w')
      ∧ ops w' = [OpExec ["/usr/bin/bazel"; "run"; "//:gazelle"; "--"; "-args";
                          "-index=false"; "-r=false"; "cmd/tool"; "pkg"]].
Proof.
  split.
  - exact (proj1 (runGazelle_fast (sys := goodSys) [] workspace) eq_refl).
  - eexists. split.
    + apply (proj2 (runGazelle_fast (sys := goodSys) ["cmd/tool"; "pkg"]
                      workspace)).
      discriminate.
    + reflexivity.
Defined.

Lemma walkWorkspace_abs_error_witness :
  @walkWorkspace noCwdSys "." noCallback workspace
  = Some (tt, addLog "failed to find absolute path: getwd: no such file or directory"
                workspace).
Proof.
  exact (proj1 (walkWorkspace_abs_error (sys := noCwdSys) "." noCallback
                  workspace "getwd: no such file or directory" eq_refl)).
Defined.

(** C6 as the specification states it does not hold: the walk does not
    report the error to its caller.  [walkWorkspace] hands its caller the
    same value, nothing, whether the root could be made absolute or not; no
    caller can tell the failed walk from a walk that went through. *)
Lemma walkWorkspace_error_not_reported :
  ¬ ∃ tell : option unit → bool,
      tell (fst <$> @walkWorkspace noCwdSys "." noCallback workspace) = true
      ∧ tell (fst <$> @walkWorkspace goodSys "." noCallback workspace) = false.
Proof.
  intros (tell & Hfailed & Hwalked).
  vm_compute in Hfailed, Hwalked. congruence.
Qed.

(** A walk that goes through calls [walkFunc] for each directory. *)
Example walkWorkspace_walks :
  ∃ w',
    @walkWorkspace goodSys "." noCallback workspace = Some (tt, w')
    ∧ ops w' = [OpWalkFunc "/work" ["BUILD.in"; "main.go"];
                OpWalkFunc "/work/pkg" ["BUILD.bazel.in"; "pkg.go"]].
Proof. eexists. split; reflexivity. Qed.

End AutogazelleFacts.

(** ** More on the dep importer: [ruleUsingGoProxy], the retry loop and the
    results of the import *)
Module DepMore.
Import GoStrings GoSort language Dep.

Section Facts.
Context `{E : Env}.

Ltac task_unfold :=
  unfold ruleUsingGoProxy, httpGet, emit, mbind, task_bind, mret, task_ret;
  simpl.

(** X1: a resolution that returns nil has asked for the info of the revision and
    then for the zip of the version the info names, both answered 200; the
    rule gets the zip URL as its only url, the digest of the zip and the
    strip prefix [name@version], and nothing else changes. *)
Theorem ruleUsingGoProxy_success i base p r st r' st' :
  ruleUsingGoProxy i base p r st = ((r', None), st') →
  let name := proxyModuleName p in
  ∃ info zip version sum,
    http_Get i (calls st) (infoURL base name (Revision p)) = Ok info
    ∧ StatusCode info = StatusOK
    ∧ json_DecodeVersion (RespBody info) = Ok version
    ∧ http_Get i (S (calls st)) (zipURL base name version) = Ok zip
    ∧ StatusCode zip = StatusOK
    ∧ sha256_Copy (RespBody zip) = Ok sum
    ∧ rule.Attr r' "urls"
      = Some (rule.AttrStrings [zipURL base name version])
    ∧ rule.Attr r' "sha256" = Some (rule.AttrString sum)
    ∧ rule.Attr r' "strip_prefix"
      = Some (rule.AttrString (name +:+ "@" +:+ version))
    ∧ (∀ key, key ≠ "urls" → key ≠ "sha256" → key ≠ "strip_prefix" →
         rule.Attr r' key = rule.Attr r key)
    ∧ rule.Name r' = rule.Name r ∧ rule.Kind r' = rule.Kind r
    ∧ calls st' = calls st + 2
    ∧ filter isGet (trace st')
      = filter isGet (trace st)
        ++ [EvGet (infoURL base name (Revision p));
            EvGet (zipURL base name version)].
Proof.
  task_unfold. intros Hrun.
  repeat case_match; simplify_eq/=.
  repeat match goal with
         | H : negb _ = false |- _ => apply negb_false_iff, Z.eqb_eq in H
         end.
  eexists _, _, _, _. split_and!; try done.
  - rewrite !ruleFacts.Attr_SetAttr_ne by done.
    apply ruleFacts.Attr_SetAttr_eq.
  - rewrite ruleFacts.Attr_SetAttr_ne by done.
    apply ruleFacts.Attr_SetAttr_eq.
  - apply ruleFacts.Attr_SetAttr_eq.
  - intros key ???. by rewrite !ruleFacts.Attr_SetAttr_ne.
  - lia.
  - rewrite <- !app_assoc, !filter_app. done.
Qed.

(** X2: a resolution that fails leaves the rule as it was and prints nothing.
    Its error names the step that failed, the module and the revision.  The
    zip is asked for only after the info endpoint has answered 200 with a
    body that decodes. *)
Theorem ruleUsingGoProxy_failure i base p r st r' err st' :
  ruleUsingGoProxy i base p r st = ((r', Some err), st') →
  let name := proxyModuleName p in
  r' = r
  ∧ (∃ what cause,
       what ∈ ["fetch info"; "decode response"; "fetch zip"; "hash zip"]
       ∧ err = "failed to " +:+ what +:+ " for " +:+ name +:+ "@"
               +:+ Revision p +:+ ": " +:+ cause)
  ∧ (trace st' = trace st ++ [EvGet (infoURL base name (Revision p))]
     ∧ calls st' = calls st + 1
     ∨ ∃ info version,
         http_Get i (calls st) (infoURL base name (Revision p)) = Ok info
         ∧ StatusCode info = StatusOK
         ∧ json_DecodeVersion (RespBody info) = Ok version
         ∧ trace st' = trace st ++ [EvGet (infoURL base name (Revision p));
                                    EvGet (zipURL base name version)]
         ∧ calls st' = calls st + 2).
Proof.
  task_unfold. intros Hrun.
  repeat case_match; simplify_eq/=;
    repeat match goal with
           | H : negb _ = false |- _ => apply negb_false_iff, Z.eqb_eq in H
           end;
    (split_and!;
     [ done
     | eexists _, _; split; [|reflexivity]; set_solver
     | first [ left; split; [done|lia]
             | right; eexists _, _; rewrite <- !app_assoc;
               split_and!; [done..|lia] ] ]).
Qed.

Lemma requests_app st evs :
  length (filter isGet (trace st ++ evs))
  = requests st + length (filter isGet evs).
Proof. unfold requests. by rewrite filter_app, length_app. Qed.

(** One call of [ruleUsingGoProxy] makes one or two requests, all on the
    proxy, and counts them. *)
Lemma ruleUsingGoProxy_effects i base p r st :
  let st' := snd (ruleUsingGoProxy i base p r st) in
  ∃ evs,
    trace st' = trace st ++ evs
    ∧ Forall (onProxy base p) evs
    ∧ 1 ≤ length (filter isGet evs) ≤ 2
    ∧ calls st' = calls st + length (filter isGet evs).
Proof.
  task_unfold.
  repeat case_match; simplify_eq/=; eexists; rewrite <- ?app_assoc;
    (split_and!;
     [ reflexivity
     | repeat (constructor;
               [intros url Hurl; simplify_eq; by eexists|]);
       constructor
     | simpl; lia | simpl; lia | simpl; lia ]).
Qed.

(** The effects of the retry loop: at most two requests per iteration left,
    all on the proxy, and sleeps of five seconds, fewer than the iterations
    left. *)
Lemma retryLoop_effects i base p : ∀ remaining attempt r st,
  attempt + remaining = 5 →
  let st' := snd (retryLoop i base p remaining attempt r st) in
  ∃ evs,
    trace st' = trace st ++ evs
    ∧ Forall (onProxy base p) evs
    ∧ length (filter isGet evs) ≤ 2 * remaining
    ∧ calls st' = calls st + length (filter isGet evs)
    ∧ ∃ n, filter isSleep evs = replicate n (EvSleep 5) ∧ n ≤ remaining - 1.
Proof.
  induction remaining as [|rem IH]; intros attempt r st Hsum.
  { exists []. simpl. rewrite app_nil_r.
    split_and!; [done|constructor|lia|lia|]. exists 0. split; [done|lia]. }
  simpl. unfold mbind, task_bind.
  destruct (ruleUsingGoProxy_effects i base p r st)
    as (evs & Htrace & Hon & Hn & Hcalls).
  pose proof (f_equal (filter isSleep) Htrace) as Hsleep.
  rewrite DepFacts.ruleUsingGoProxy_sleeps, filter_app in Hsleep.
  apply (f_equal length) in Hsleep. rewrite length_app in Hsleep.
  assert (filter isSleep evs = []) as Hnosleep.
  { apply length_zero_iff_nil. lia. }
  destruct (ruleUsingGoProxy i base p r st) as [[r' [err|]] st1]; simpl in *.
  2:{ exists evs. split_and!; [done|done|lia|done|].
      exists 0. rewrite Hnosleep. split; [done|lia]. }
  destruct (attempt =? 4) eqn:Hlast; simpl.
  { exists evs. split_and!; [done|done|lia|done|].
    exists 0. rewrite Hnosleep. split; [done|lia]. }
  apply Nat.eqb_neq in Hlast.
  destruct (IH (S attempt) r'
              {| calls := calls st1; trace := trace st1 ++ [EvSleep 5] |})
    as (evs' & Htrace' & Hon' & Hn' & Hcalls' & n & Hsleeps & Hle); [lia|].
  simpl in *.
  exists (evs ++ EvSleep 5 :: evs'). split_and!.
  - rewrite Htrace', Htrace, <- !app_assoc. done.
  - apply Forall_app. split; [done|]. constructor; [by intros url ?|done].
  - rewrite filter_app, length_app, filter_cons_False by (by intros []). lia.
  - rewrite Hcalls', Hcalls, filter_app, length_app.
    rewrite filter_cons_False by (by intros []). lia.
  - exists (S n). split; [|lia].
    rewrite filter_app, Hnosleep, filter_cons_True by done.
    by rewrite Hsleeps.
Qed.

(** X3: However the proxy behaves, the goroutine of a project makes at most ten
    requests and sleeps at most four times, five seconds each: twenty
    seconds at most.  [calls] counts its requests. *)
Theorem goroutine_bounds args base i p :
  let st' := snd (goroutine args base i p initTask) in
  requests st' ≤ 10
  ∧ calls st' = requests st'
  ∧ ∃ n, filter isSleep (trace st') = replicate n (EvSleep 5) ∧ n ≤ 4.
Proof.
  destruct (isPrivate args p) eqn:Hp.
  - rewrite DepFacts.goroutine_private by done. simpl.
    split_and!; [unfold requests; simpl; lia|done|].
    exists 0. split; [done|lia].
  - rewrite DepFacts.goroutine_proxy by done.
    destruct (retryLoop_effects i base p 5 0 (freshRule p) initTask)
      as (evs & Htrace & _ & Hn & Hcalls & n & Hsleeps & Hle); [done|].
    simpl in *. unfold requests. rewrite Htrace.
    split_and!; [lia|lia|]. exists n. split; [done|lia].
Qed.


(** The rule the retry loop returns is the one a successful call of
    [ruleUsingGoProxy] made of the rule the loop started with. *)
Lemma retryLoop_Returned i base p : ∀ remaining attempt r st r' st',
  attempt + remaining = 5 → 0 < remaining →
  retryLoop i base p remaining attempt r st = (Returned r', st') →
  ∃ st0, ruleUsingGoProxy i base p r st0 = ((r', None), st').
Proof.
  induction remaining as [|rem IH]; intros attempt r st r' st' Hsum Hpos;
    [lia|].
  simpl. unfold mbind, task_bind.
  pose proof (DepFacts.ruleUsingGoProxy_rule i base p r st) as Hr.
  destruct (ruleUsingGoProxy i base p r st) as [[r1 [err|]] st1] eqn:Hrun;
    simpl in *.
  - subst r1. destruct (attempt =? 4) eqn:Hlast; [done|].
    apply Nat.eqb_neq in Hlast. apply IH; lia.
  - intros [= <- <-]. by exists st.
Qed.

(** X5: The attributes of the rule a goroutine leaves are fixed by the path it
    took: the import path and the commit for a private project, with the
    remote and the vcs when it has a source; the import path, the url of
    the zip, its digest and the strip prefix for a project resolved through
    the proxy, and then no commit. *)
Theorem goroutine_rule_attrs args base i p r st' :
  goroutine args base i p initTask = (Returned r, st') →
  rule.Kind r = "go_repository"
  ∧ rule.Name r = ImportPathToBazelRepoName (Name p)
  ∧ (isPrivate args p = true ∧ Source p = ""
     ∧ rule.Attrs r = [("importpath", rule.AttrString (Name p));
                       ("commit", rule.AttrString (Revision p))]
     ∨ isPrivate args p = true ∧ Source p ≠ ""
       ∧ rule.Attrs r = [("importpath", rule.AttrString (Name p));
                         ("commit", rule.AttrString (Revision p));
                         ("remote", rule.AttrString (Source p));
                         ("vcs", rule.AttrString "git")]
     ∨ isPrivate args p = false
       ∧ ∃ version sum,
           rule.Attrs r
           = [("importpath", rule.AttrString (Name p));
              ("urls", rule.AttrStrings
                         [zipURL base (proxyModuleName p) version]);
              ("sha256", rule.AttrString sum);
              ("strip_prefix",
               rule.AttrString (proxyModuleName p +:+ "@" +:+ version))]).
Proof.
  destruct (isPrivate args p) eqn:Hp.
  - rewrite DepFacts.goroutine_private by done. intros [= <- <-].
    destruct (decide (Source p = "")) as [Hs|Hs].
    + rewrite Hs. simpl. split_and!; [done..|]. by left.
    + pose proof Hs as Hs'. apply String.eqb_neq in Hs' as ->. simpl.
      split_and!; [done..|]. right. by left.
  - rewrite DepFacts.goroutine_proxy by done. intros Hloop.
    apply retryLoop_Returned in Hloop as [st0 Hrun]; [|done|lia].
    revert Hrun. task_unfold. intros Hrun.
    repeat case_match; simplify_eq/=.
    split_and!; [done..|]. right. right. split; [done|]. by eexists _, _.
Qed.


Section Imported.
Variables (args : ImportReposArgs) (data : string) (file : depLockFile).
Hypothesis Hread : ioutil_ReadFile (Path args) = Ok data.
Hypothesis Hparse : toml_Unmarshal data = Ok file.

#[local] Abbreviation base := (proxyBaseOf args).

Lemma run_Panicked sched : ∀ gen err,
  runGoroutines args base (Projects file) sched gen = Panicked err →
  ∃ i p, i ∈ sched ∧ Projects file !! i = Some p
         ∧ fst (goroutine args base i p initTask) = Panicked err.
Proof.
  induction sched as [|j sched IH]; intros gen err Hrun; [done|].
  simpl in Hrun. destruct (Projects file !! j) as [q|] eqn:Hq.
  - destruct (fst (goroutine args base j q initTask)) as [r|err'] eqn:Hr.
    + apply IH in Hrun as (i & p & ? & ? & ?).
      exists i, p. split_and!; [by right|done..].
    + simplify_eq. exists j, q. split_and!; [by left|done..].
  - apply IH in Hrun as (i & p & ? & ? & ?).
    exists i, p. split_and!; [by right|done..].
Qed.

(** X7: The import panics exactly when the goroutine of some project panics,
    and then with the error of such a goroutine: a project that is not
    private and whose fifth attempt failed.  Otherwise it returns. *)
Theorem importReposFromDep_panic_iff sched :
  sched ≡ₚ seq 0 (length (Projects file)) →
  (∀ err,
     importReposFromDep args sched = Panicked err →
     ∃ i p,
       Projects file !! i = Some p
       ∧ isPrivate args p = false
       ∧ fst (goroutine args base i p initTask) = Panicked err)
  ∧ ((∃ i p err,
        Projects file !! i = Some p
        ∧ fst (goroutine args base i p initTask) = Panicked err) →
     ∃ err, importReposFromDep args sched = Panicked err)
  ∧ ((∀ i p, Projects file !! i = Some p →
        ∃ r, fst (goroutine args base i p initTask) = Returned r) →
     ∃ res, importReposFromDep args sched = Returned res
            ∧ Error res = None).
Proof.
  intros Hperm. split_and!.
  - intros err. unfold importReposFromDep. rewrite Hread, Hparse.
    fold (proxyBaseOf args).
    destruct (runGoroutines _ _ _ _ _) as [gen|err'] eqn:Hrun.
    { apply DepFacts.runGoroutines_complete in Hrun
        as (rules & -> & _); [|done].
      by rewrite mapM_fmap_Some. }
    intros [= ->]. apply run_Panicked in Hrun as (i & p & _ & Hp & Hpanic).
    exists i, p. split_and!; [done| |done].
    destruct (isPrivate args p) eqn:Hpriv; [|done].
    by rewrite DepFacts.goroutine_private in Hpanic.
  - intros (i & p & err & Hp & Hpanic).
    by eapply DepFacts.importReposFromDep_panics.
  - intros Hall. by eapply DepFacts.importReposFromDep_returns.
Qed.

(** X8: a manifest of private projects only is imported without a request and
    without a panic: the import returns one rule per project. *)
Theorem importReposFromDep_all_private sched :
  sched ≡ₚ seq 0 (length (Projects file)) →
  Forall (λ p, isPrivate args p = true) (Projects file) →
  (∃ res, importReposFromDep args sched = Returned res
          ∧ Error res = None
          ∧ length (Gen res) = length (Projects file)
          ∧ Forall (λ r, rule.Attr r "urls" = None
                         ∧ is_Some (rule.Attr r "commit")) (Gen res))
  ∧ ∀ i p, Projects file !! i = Some p →
      trace (snd (goroutine args base i p initTask)) = [].
Proof.
  intros Hperm Hall. rewrite Forall_lookup in Hall. split.
  - destruct (DepFacts.importReposFromDep_returns args data file Hread Hparse
                sched Hperm) as (res & Hres & Herr).
    { intros i p Hp. rewrite DepFacts.goroutine_private by eauto.
      by eexists. }
    exists res. split_and!; [done..| |].
    + apply (DepFacts.importReposFromDep_inv args data file Hread Hparse)
        in Hres as (rules & Hout & ->); [|done].
      simpl. rewrite GoSortFacts.SliceStable_length.
      by rewrite <- (DepFacts.outcomes_length args), Hout, length_fmap.
    + apply (DepFacts.importReposFromDep_inv args data file Hread Hparse)
        in Hres as (rules & Hout & ->); [|done].
      simpl. rewrite GoSortFacts.SliceStable_perm.
      apply Forall_lookup. intros i r Hr.
      pose proof (DepFacts.outcomes_lookup args (Projects file) i) as Hi.
      rewrite Hout, list_lookup_fmap, Hr in Hi. simpl in Hi.
      destruct (Projects file !! i) as [p|] eqn:Hp; [|done].
      simpl in Hi. rewrite DepFacts.goroutine_private in Hi by eauto.
      injection Hi as ->. simpl.
      destruct (negb (String.eqb (Source p) "")); split;
        rewrite ?ruleFacts.Attr_SetAttr_ne by done; try done;
        by rewrite ruleFacts.Attr_SetAttr_eq.
  - intros i p Hp. by rewrite DepFacts.goroutine_private by eauto.
Qed.

End Imported.

Lemma isASCII_substring s : ∀ n m,
  isASCII s = true → isASCII (String.substring n m s) = true.
Proof.
  induction s as [|c s IH]; intros n m Hs.
  - by destruct n, m.
  - simpl in Hs. apply andb_true_iff in Hs as [Hc Hs].
    destruct n as [|n]; simpl.
    + destruct m as [|m]; [done|]. simpl. by rewrite Hc, IH.
    + by apply IH.
Qed.

Lemma lowerByte_not_upper c : GoStringsMore.isUpperByte (lowerByte c) = false.
Proof.
  unfold GoStringsMore.isUpperByte, lowerByte.
  destruct ((65 <=? Ascii.nat_of_ascii c) && (Ascii.nat_of_ascii c <=? 90))
    eqn:Hup; [|done].
  apply andb_true_iff in Hup as [H1%Nat.leb_le H2%Nat.leb_le].
  rewrite Ascii.nat_ascii_embedding by lia.
  apply andb_false_iff. right. apply Nat.leb_gt. lia.
Qed.

Lemma lowerByte_ascii c : isASCIIByte c = true → isASCIIByte (lowerByte c) = true.
Proof.
  unfold isASCIIByte, lowerByte. intros Hc.
  destruct ((65 <=? Ascii.nat_of_ascii c) && (Ascii.nat_of_ascii c <=? 90))
    eqn:Hup; [|done].
  apply andb_true_iff in Hup as [H1%Nat.leb_le H2%Nat.leb_le].
  rewrite Ascii.nat_ascii_embedding by lia. apply Nat.ltb_lt. lia.
Qed.

Lemma mapBytes_lower_facts s :
  GoStringsMore.hasUpper (mapBytes lowerByte s) = false
  ∧ (isASCII s = true → isASCII (mapBytes lowerByte s) = true)
  ∧ (GoStringsMore.hasUpper s = false → mapBytes lowerByte s = s).
Proof.
  induction s as [|c s (IH1 & IH2 & IH3)]; [done|]. simpl. split_and!.
  - by rewrite lowerByte_not_upper, IH1.
  - intros [Hc Hs]%andb_true_iff. by rewrite lowerByte_ascii, IH2.
  - intros [Hc Hs]%orb_false_iff. rewrite IH3 by done. f_equal.
    unfold lowerByte. unfold GoStringsMore.isUpperByte in Hc. by rewrite Hc.
Qed.

(** X9: For a project whose name and source are ASCII, the module path asked of
    the proxy is ASCII without upper-case letters, whatever
    [unicode.ToLower] does, and lowering it again changes nothing. *)
Theorem proxyModuleName_lower p :
  isASCII (Name p) = true → isASCII (Source p) = true →
  isASCII (proxyModuleName p) = true
  ∧ GoStringsMore.hasUpper (proxyModuleName p) = false
  ∧ ToLower unicode_ToLower (proxyModuleName p) = proxyModuleName p.
Proof.
  intros Hname Hsource. unfold proxyModuleName.
  set (chosen := if negb _ then _ else _).
  assert (isASCII chosen = true) as Hchosen.
  { unfold chosen. destruct (negb _); [|done].
    unfold slice_to, slice_from.
    destruct (HasSuffix _ _); destruct (HasPrefix _ _);
      repeat apply isASCII_substring; done. }
  unfold ToLower. rewrite Hchosen.
  destruct (mapBytes_lower_facts chosen) as (Hup & Hascii & _).
  rewrite Hascii by done. split_and!; [done..|].
  by apply mapBytes_lower_facts.
Qed.

End Facts.

(** *** On the example import *)
Import DepExample.

Lemma ruleUsingGoProxy_success_witness :
  ∃ r' st',
    @ruleUsingGoProxy goodProxy 0 defaultGoProxyBase
      {| Name := "github.com/pkg/errors"; Revision := "ba968bfe";
         Source := "" |}
      (rule.NewRule "go_repository" "com_github_pkg_errors") initTask
    = ((r', None), st')
    ∧ rule.Attr r' "strip_prefix"
      = Some (rule.AttrString "github.com/pkg/errors@v1.2.3")
    ∧ calls st' = 2.
Proof.
  eexists _, _. split; [vm_compute; reflexivity|].
  lazymatch goal with
  | |- rule.Attr ?r _ = _ ∧ calls ?st = _ =>
      destruct (ruleUsingGoProxy_success (E := goodProxy) 0 defaultGoProxyBase
                  {| Name := "github.com/pkg/errors"; Revision := "ba968bfe";
                     Source := "" |}
                  (rule.NewRule "go_repository" "com_github_pkg_errors")
                  initTask r st)
        as (info & zip & version & sum & _ & _ & Hv & _ & _ & _ & _ & _
            & Hstrip & _ & _ & _ & Hcalls & _); [vm_compute; reflexivity|]
  end.
  injection Hv as <-. split; [exact Hstrip|exact Hcalls].
Defined.

Lemma ruleUsingGoProxy_failure_witness :
  ∃ err st',
    @ruleUsingGoProxy goneProxy 0 defaultGoProxyBase
      {| Name := "github.com/pkg/errors"; Revision := "ba968bfe";
         Source := "" |}
      (rule.NewRule "go_repository" "com_github_pkg_errors") initTask
    = ((rule.NewRule "go_repository" "com_github_pkg_errors", Some err), st')
    ∧ err = "failed to fetch info for github.com/pkg/errors@ba968bfe: 410 Gone"
    ∧ calls st' = 1.
Proof.
  eexists _, _. split; [vm_compute; reflexivity|].
  lazymatch goal with
  | |- ?err = _ ∧ calls ?st = _ =>
      destruct (ruleUsingGoProxy_failure (E := goneProxy) 0 defaultGoProxyBase
                  {| Name := "github.com/pkg/errors"; Revision := "ba968bfe";
                     Source := "" |}
                  (rule.NewRule "go_repository" "com_github_pkg_errors")
                  initTask
                  (rule.NewRule "go_repository" "com_github_pkg_errors")
                  err st)
        as (_ & _ & [[_ Hcalls]|(info & version & Hget & Hstatus & _)]);
        [vm_compute; reflexivity| |]
  end.
  - split; [reflexivity|exact Hcalls].
  - injection Hget as <-. discriminate Hstatus.
Defined.


Lemma goroutine_rule_attrs_witness :
  ∃ r st',
    @goroutine flakyProxy importArgs defaultGoProxyBase 0
      {| Name := "github.com/pkg/errors"; Revision := "ba968bfe";
         Source := "" |} initTask = (Returned r, st')
    ∧ rule.Name r = "github_com_pkg_errors"
    ∧ length (rule.Attrs r) = 4.
Proof.
  eexists _, _. split; [vm_compute; reflexivity|].
  lazymatch goal with
  | |- rule.Name ?r = _ ∧ _ =>
      destruct (goroutine_rule_attrs (E := flakyProxy) importArgs
                  defaultGoProxyBase 0
                  {| Name := "github.com/pkg/errors"; Revision := "ba968bfe";
                     Source := "" |} r
                  (snd (@goroutine flakyProxy importArgs defaultGoProxyBase 0
                          {| Name := "github.com/pkg/errors";
                             Revision := "ba968bfe"; Source := "" |}
                          initTask)))
        as (_ & Hname & [(Hp & _)|[(Hp & _)|(_ & version & sum & Hattrs)]]);
        [vm_compute; reflexivity| | |]
  end.
  - discriminate Hp.
  - discriminate Hp.
  - split; [exact Hname|]. by rewrite Hattrs.
Defined.


Lemma importReposFromDep_panic_iff_witness :
  ∃ i p,
    Projects manifest !! i = Some p
    ∧ @isPrivate goneProxy importArgs p = false
    ∧ fst (@goroutine goneProxy importArgs defaultGoProxyBase i p initTask)
      = Panicked
          "failed to fetch info for github.com/masterminds/semver@c7af1294: 410 Gone".
Proof.
  apply (proj1 (importReposFromDep_panic_iff (E := goneProxy) importArgs
                  "[[projects]]" manifest eq_refl eq_refl finishOrder
                  DepFacts.finishOrder_complete)).
  vm_compute. reflexivity.
Defined.

Lemma importReposFromDep_all_private_witness :
  ∃ res,
    @importReposFromDep goneProxy badPatternArgs finishOrder = Returned res
    ∧ Error res = None ∧ length (Gen res) = 4.
Proof.
  destruct (importReposFromDep_all_private (E := goneProxy) badPatternArgs
              "[[projects]]" manifest eq_refl eq_refl finishOrder
              DepFacts.finishOrder_complete)
    as [(res & Hres & Herr & Hlen & _) _].
  - repeat constructor.
  - exists res. split_and!; [exact Hres|exact Herr|exact Hlen].
Defined.

Lemma proxyModuleName_lower_witness :
  GoStringsMore.hasUpper
    (@proxyModuleName goodProxy
       {| Name := "github.com/Masterminds/semver"; Revision := "c7af1294";
          Source := "https://GitHub.com/Masterminds/semver.git" |})
  = false.
Proof.
  apply (proxyModuleName_lower (E := goodProxy)
           {| Name := "github.com/Masterminds/semver"; Revision := "c7af1294";
              Source := "https://GitHub.com/Masterminds/semver.git" |});
    reflexivity.
Defined.

End DepMore.

(** ** More on autogazelle: what [restoreFile] and its callers change *)
Module AutogazelleMore.
Import GoStrings Autogazelle.

Section Facts.
Context `{sys : Sys}.

Ltac rw_ops :=
  repeat first
    [ assumption
    | by apply Forall_nil
    | apply Forall_cons; split; [first [by left | right; by eexists]|] ].

(** [io.Copy] logs nothing, changes no file but the one written to, and only
    reads the one and writes the other; when it returns nil none of its
    operations was failed. *)
Lemma ioCopy_general fuel : ∀ wf rf w res w',
  ioCopy fuel wf rf w = Some (res, w') →
  log w' = log w
  ∧ (∀ path, path ≠ fpath wf → files w' !! path = files w !! path)
  ∧ (∃ rw, ops w' = ops w ++ rw
           ∧ Forall (λ op, op = OpRead (fpath rf)
                           ∨ ∃ data, op = OpWrite (fpath wf) data) rw)
  ∧ (res = None →
     ∀ k, length (ops w) ≤ k < length (ops w') → fault k = None).
Proof.
  induction fuel as [|fuel IH]; intros wf rf w res w' Hrun; [done|].
  rewrite AutogazelleFacts.ioCopy_unfold in Hrun. cbv zeta in Hrun.
  destruct (fault (length (ops w))) as [err|] eqn:Hf0.
  { simplify_eq. simpl. split_and!; [done..| |done].
    exists [OpRead (fpath rf)]. split; [done|]. rw_ops. }
  destruct (take copyBufSize _) as [|c data].
  { simplify_eq. simpl. split_and!; [done..| |].
    - exists [OpRead (fpath rf)]. split; [done|]. rw_ops.
    - intros _ k. rewrite length_app. simpl. intros Hk.
      by replace k with (length (ops w)) by lia. }
  cbn [ops addOp] in Hrun.
  destruct (fault (length (ops w ++ [OpRead (fpath rf)]))) as [err|] eqn:Hf1.
  { simplify_eq. simpl. split_and!; [done| | |done].
    - intros path Hp. by rewrite lookup_insert_ne.
    - exists [OpRead (fpath rf); OpWrite (fpath wf) (c :: data)].
      rewrite <- app_assoc. split; [done|]. rw_ops. }
  apply IH in Hrun as (Hlog & Hframe & (rw & Hops & Hrw) & Hok).
  simpl in *. split_and!; [done| | |].
  - intros path Hp. rewrite Hframe by done. by rewrite lookup_insert_ne.
  - exists (OpRead (fpath rf) :: OpWrite (fpath wf) (c :: data) :: rw).
    rewrite Hops, <- !app_assoc. split; [done|]. rw_ops.
  - intros Hres k Hk. rewrite !length_app in Hok. simpl in Hok.
    rewrite length_app in Hf1. simpl in Hf1.
    destruct (decide (k = length (ops w))) as [->|]; [done|].
    destruct (decide (k = length (ops w) + 1)) as [->|]; [done|].
    apply Hok; [done|lia].
Qed.

Lemma take_length_take {A : Type} (n : nat) (l : list A) :
  take (length (take n l)) l = take n l.
Proof.
  rewrite length_take. destruct (decide (n ≤ length l)).
  - by rewrite Nat.min_l.
  - rewrite Nat.min_r by lia. by rewrite !take_ge by lia.
Qed.

(** Whatever becomes of [io.Copy] between two files, the destination has
    grown by a prefix of what was left of the source. *)
Lemma ioCopy_prefix fuel : ∀ wf rf w B C res w',
  fpath wf ≠ fpath rf →
  files w !! fpath rf = Some B → files w !! fpath wf = Some C →
  offset wf = length C →
  ioCopy fuel wf rf w = Some (res, w') →
  ∃ m, files w' !! fpath wf = Some (C ++ take m (drop (offset rf) B)).
Proof.
  induction fuel as [|fuel IH]; intros wf rf w B C res w' Hne HB HC Hwo Hrun;
    [done|].
  rewrite AutogazelleFacts.ioCopy_unfold in Hrun. cbv zeta in Hrun.
  destruct (fault (length (ops w))) as [err|].
  { simplify_eq. exists 0. simpl. by rewrite take_0, app_nil_r. }
  rewrite (AutogazelleFacts.contentOf_Some _ _ _ HB) in Hrun.
  destruct (take copyBufSize (drop (offset rf) B)) as [|c data] eqn:Hdata.
  { simplify_eq. exists 0. simpl. by rewrite take_0, app_nil_r. }
  cbn [ops addOp files] in Hrun.
  rewrite (AutogazelleFacts.contentOf_Some _ _ _ HC) in Hrun.
  rewrite Hwo, AutogazelleFacts.writeAt_end in Hrun.
  destruct (fault (length (ops w ++ [OpRead (fpath rf)]))) as [err|].
  { simplify_eq. simpl. rewrite lookup_insert_eq.
    exists (short_write (length (ops w ++ [OpRead (fpath rf)]))
              `min` copyBufSize).
    by rewrite <- Hdata, take_take. }
  eapply (IH _ _ _ B (C ++ c :: data)) in Hrun as [m Hm]; simpl;
    [|done|by rewrite lookup_insert_ne|by rewrite lookup_insert_eq
     |by rewrite length_app].
  simpl in Hm. exists (length (c :: data) + m).
  rewrite Hm. f_equal. rewrite <- app_assoc. f_equal.
  rewrite <- (drop_drop B), <- take_take_drop. f_equal.
  by rewrite <- Hdata, take_length_take.
Qed.

(** [restoreFile], step by step. *)
Lemma restoreFile_eq fuel src dest w :
  restoreFile fuel src dest w
  = let w1 := addOp (OpOpen src) w in
    let w2 := addOp (OpCreate dest) w1 in
    let w3 := putFile dest [] w2 in
    let H := bytes_of (header src) in
    let closed w5 := addOp (OpClose src) (addOp (OpClose dest) w5) in
    match fault (length (ops w)) with
    | Some err => Some (Some err, w1)
    | None =>
      match files w !! src with
      | None => Some (Some (noSuchFile "open" src), w1)
      | Some _ =>
        match fault (length (ops w1)) with
        | Some err => Some (Some err, addOp (OpClose src) w2)
        | None =>
          match fault (length (ops w3)) with
          | Some err =>
              Some (Some err,
                    closed (putFile dest (take (short_write (length (ops w3))) H)
                              (addOp (OpWrite dest H) w3)))
          | None =>
            match ioCopy fuel {| fpath := dest; offset := length H |}
                    {| fpath := src; offset := 0 |}
                    (putFile dest H (addOp (OpWrite dest H) w3)) with
            | None => None
            | Some (err, w5) =>
                Some (match err with
                      | None => fault (length (ops w5))
                      | Some _ => err
                      end, closed w5)
            end
          end
        end
      end
    end.
Proof.
  cbv zeta. unfold restoreFile.
  rewrite AutogazelleFacts.io_bind_eq, AutogazelleFacts.osOpen_eq.
  destruct (fault (length (ops w))) as [err|]; [done|].
  destruct (files w !! src) as [B|]; [|done].
  rewrite AutogazelleFacts.io_bind_eq, AutogazelleFacts.osCreate_eq.
  destruct (fault (length (ops (addOp (OpOpen src) w)))) as [err|].
  { rewrite AutogazelleFacts.io_bind_eq, AutogazelleFacts.fileClose_eq. done. }
  rewrite AutogazelleFacts.io_bind_eq, AutogazelleFacts.fileWrite_eq.
  cbv zeta. cbn [fpath offset].
  set (w3 := putFile dest [] _).
  assert (contentOf (files w3) dest = []) as ->.
  { apply AutogazelleFacts.contentOf_Some. apply lookup_insert_eq. }
  rewrite AutogazelleFacts.writeAt_nil.
  destruct (fault (length (ops w3))) as [err|].
  { rewrite !AutogazelleFacts.io_bind_eq. unfold mret at 1, io_ret at 1.
    rewrite !AutogazelleFacts.io_bind_eq, AutogazelleFacts.fileClose_eq.
    rewrite !AutogazelleFacts.io_bind_eq, AutogazelleFacts.fileClose_eq.
    done. }
  rewrite !AutogazelleFacts.io_bind_eq. rewrite Nat.add_0_l.
  destruct (ioCopy fuel _ _ _) as [[err w5]|]; [|done].
  rewrite !AutogazelleFacts.io_bind_eq, AutogazelleFacts.fileClose_eq.
  rewrite !AutogazelleFacts.io_bind_eq, AutogazelleFacts.fileClose_eq.
  done.
Qed.

(** The four ways [restoreFile] can end: at the open, at the create, at the
    header, or after [io.Copy]. *)
Lemma restoreFile_cases fuel src dest w res w' :
  restoreFile fuel src dest w = Some (res, w') →
  let k := length (ops w) in
  ((fault k ≠ None ∨ files w !! src = None)
   ∧ is_Some res ∧ w' = addOp (OpOpen src) w)
  ∨ (fault k = None ∧ is_Some (files w !! src)
     ∧ is_Some (fault (k + 1)) ∧ res = fault (k + 1)
     ∧ w' = addOp (OpClose src)
              (addOp (OpCreate dest) (addOp (OpOpen src) w)))
  ∨ (fault k = None ∧ is_Some (files w !! src) ∧ fault (k + 1) = None
     ∧ is_Some (fault (k + 2)) ∧ res = fault (k + 2)
     ∧ w' = bothClosed src dest
              (putFile dest
                 (take (short_write (k + 2)) (bytes_of (header src)))
                 (addOp (OpWrite dest (bytes_of (header src)))
                    (putFile dest []
                       (addOp (OpCreate dest) (addOp (OpOpen src) w))))))
  ∨ (fault k = None ∧ is_Some (files w !! src) ∧ fault (k + 1) = None
     ∧ fault (k + 2) = None
     ∧ ∃ err w5,
         ioCopy fuel
           {| fpath := dest; offset := length (bytes_of (header src)) |}
           {| fpath := src; offset := 0 |} (headerWritten src dest w)
         = Some (err, w5)
         ∧ res = match err with
                 | None => fault (length (ops w5))
                 | Some _ => err
                 end
         ∧ w' = bothClosed src dest w5).
Proof.
  rewrite restoreFile_eq. cbv zeta. cbn [ops addOp putFile].
  rewrite !length_app. simpl length. rewrite <- Nat.add_assoc. simpl Nat.add.
  destruct (fault (length (ops w))) as [err|] eqn:Hf0.
  { intros [= <- <-]. left. split_and!; [by left|done..]. }
  destruct (files w !! src) as [B|] eqn:HB.
  2:{ intros [= <- <-]. left. split_and!; [by right|done..]. }
  destruct (fault (length (ops w) + 1)) as [err|] eqn:Hf1.
  { intros [= <- <-]. right. left. by split_and!. }
  destruct (fault (length (ops w) + 2)) as [err|] eqn:Hf2.
  { intros [= <- <-]. right. right. left. by split_and!. }
  destruct (ioCopy fuel _ _ _) as [[err w5]|] eqn:Hcopy; [|done].
  intros [= <- <-]. right. right. right.
  split_and!; [done..|]. by exists err, w5.
Qed.

(** X10: [restoreFile] logs nothing and changes no file but [dest], whether it
    succeeds or fails; the template, when it is another file, is left as it
    was. *)
Theorem restoreFile_frame fuel src dest w res w' :
  restoreFile fuel src dest w = Some (res, w') →
  log w' = log w
  ∧ (∀ path, path ≠ dest → files w' !! path = files w !! path)
  ∧ (src ≠ dest → files w' !! src = files w !! src).
Proof.
  intros Hrun.
  assert (log w' = log w
          ∧ ∀ path, path ≠ dest → files w' !! path = files w !! path)
    as [Hlog Hframe].
  { apply restoreFile_cases in Hrun
      as [(_ & _ & ->)|[(_ & _ & _ & _ & ->)|[(_ & _ & _ & _ & _ & ->)
         |(_ & _ & _ & _ & err & w5 & Hcopy & _ & ->)]]]; simpl.
    - done.
    - done.
    - split; [done|]. intros path Hp. by rewrite !lookup_insert_ne.
    - apply ioCopy_general in Hcopy as (Hlog & Hframe & _). simpl in *.
      split; [done|]. intros path Hp.
      rewrite Hframe by done. by rewrite !lookup_insert_ne. }
  split_and!; [done..|]. intros Hne. by apply Hframe.
Qed.

(** X11: [restoreFile] closes what it has opened, the destination before the
    template: it performs the open alone, or the open, the create and the
    close of the template, or the open, the create, the write of the
    header, reads of the template and writes to the destination, and the
    two closes. *)
Theorem restoreFile_trace fuel src dest w res w' :
  restoreFile fuel src dest w = Some (res, w') →
  ops w' = ops w ++ [OpOpen src]
  ∨ ops w' = ops w ++ [OpOpen src; OpCreate dest; OpClose src]
  ∨ ∃ rw,
      ops w' = ops w ++ OpOpen src :: OpCreate dest
                     :: OpWrite dest (bytes_of (header src))
                     :: rw ++ [OpClose dest; OpClose src]
      ∧ Forall (copyOp src dest) rw.
Proof.
  intros Hrun.
  apply restoreFile_cases in Hrun
    as [(_ & _ & ->)|[(_ & _ & _ & _ & ->)|[(_ & _ & _ & _ & _ & ->)
       |(_ & _ & _ & _ & err & w5 & Hcopy & _ & ->)]]]; simpl.
  - by left.
  - right. left. by rewrite <- !app_assoc.
  - right. right. exists []. rewrite <- !app_assoc. split; [done|]. constructor.
  - right. right.
    apply ioCopy_general in Hcopy as (_ & _ & (rw & Hops & Hrw) & _).
    exists rw. simpl in *. rewrite Hops, <- !app_assoc. done.
Qed.

(** X12: [restoreFile] returns nil only when the system failed none of its
    operations up to and including the close of the destination; only the
    error of closing the template is dropped. *)
Theorem restoreFile_nil_no_fault fuel src dest w w' :
  restoreFile fuel src dest w = Some (None, w') →
  (∃ before, ops w' = before ++ [OpClose dest; OpClose src])
  ∧ ∀ k, length (ops w) ≤ k < length (ops w') - 1 → fault k = None.
Proof.
  intros Hrun.
  apply restoreFile_cases in Hrun
    as [(_ & [? [=]] & _)|[(_ & _ & [? Hf] & Hres & _)
       |[(_ & _ & _ & [? Hf] & Hres & _)
        |(Hf0 & _ & Hf1 & Hf2 & err & w5 & Hcopy & Hres & ->)]]];
    [congruence..|].
  destruct err as [err|]; [done|].
  apply ioCopy_general in Hcopy as (_ & _ & (rw & Hops & _) & Hok).
  specialize (Hok eq_refl).
  assert (length (ops (headerWritten src dest w)) = length (ops w) + 3)
    as Hlen4 by (simpl; rewrite !length_app; simpl; lia).
  assert (length (ops w5) = length (ops w) + 3 + length rw) as Hlen5
    by (rewrite Hops, length_app; lia).
  split.
  { simpl. eexists. by rewrite <- app_assoc. }
  intros k Hk. simpl in Hk. rewrite !length_app in Hk. simpl in Hk.
  destruct (decide (k = length (ops w))) as [->|]; [done|].
  destruct (decide (k = length (ops w) + 1)) as [->|]; [done|].
  destruct (decide (k = length (ops w) + 2)) as [->|]; [done|].
  destruct (decide (k < length (ops w5))) as [Hlt|].
  - apply Hok. lia.
  - replace k with (length (ops w5)) by lia. by symmetry.
Qed.

(** X13: After [restoreFile(src, dest)] on a template of bytes [B] in another
    file, [dest] is as it was when the open or the create failed, and
    otherwise holds a prefix of the header followed by [B]: nothing of its
    old content and nothing else; on success it holds all of it. *)
Theorem restoreFile_dest fuel src dest w B res w' :
  src ≠ dest → files w !! src = Some B →
  restoreFile fuel src dest w = Some (res, w') →
  let k := length (ops w) in
  ((fault k ≠ None ∨ fault (k + 1) ≠ None) ∧ files w' = files w)
  ∨ (fault k = None ∧ fault (k + 1) = None
     ∧ (∃ n, files w' !! dest
             = Some (take n (bytes_of (header src) ++ B)))
     ∧ (res = None
        → files w' !! dest = Some (bytes_of (header src) ++ B))).
Proof.
  intros Hne HB Hrun.
  pose proof (AutogazelleFacts.restoreFile_success fuel src dest w B) as Hok.
  pose proof Hrun as Hrun0.
  apply restoreFile_cases in Hrun
    as [([Hf|Hs] & _ & ->)|[(Hf0 & _ & [e Hf] & _ & ->)
       |[(Hf0 & _ & Hf1 & [e Hf2] & -> & ->)
        |(Hf0 & _ & Hf1 & Hf2 & err & w5 & Hcopy & -> & ->)]]];
    cbn [files bothClosed addOp putFile].
  - left. split; [by left|done].
  - congruence.
  - left. split; [right; congruence|done].
  - right. split_and!; [done..| |congruence].
    exists (short_write (length (ops w) + 2)
              `min` length (bytes_of (header src))).
    rewrite lookup_insert_eq, take_app_le by lia.
    f_equal. rewrite <- take_take. f_equal. by rewrite take_ge by lia.
  - right. split_and!; [done..| |].
    + eapply (ioCopy_prefix _ _ _ _ B (bytes_of (header src))) in Hcopy
        as [m Hm]; cbn [fpath offset files headerWritten addOp putFile];
        [|done|by rewrite !lookup_insert_ne|by rewrite lookup_insert_eq|done].
      cbn [fpath offset] in Hm. rewrite drop_0 in Hm.
      exists (length (bytes_of (header src)) + m).
      by rewrite Hm, take_app_add.
    + intros Hres. rewrite Hres in Hrun0.
      by destruct (Hok _ HB Hrun0) as (_ & Hdest & _).
Qed.

(** One round of [restoreBuildFilesInDir] changes no file but
    [dir/base], and logs nothing or one message. *)
Lemma restoreBase_frame fuel dir base w w' :
  restoreBase fuel dir base w = Some (tt, w') →
  (∀ path, path ≠ filepath_Join dir base → files w' !! path = files w !! path)
  ∧ ∃ errs, log w' = log w ++ errs ∧ length errs ≤ 1.
Proof.
  unfold restoreBase. rewrite AutogazelleFacts.io_bind_eq, AutogazelleFacts.osStat_eq.
  destruct (match fault (length (ops w)) with
            | Some err => Some err
            | None => _
            end) as [err|].
  { intros [= <-]. split; [done|]. exists []. simpl.
    rewrite app_nil_r. split; [done|lia]. }
  rewrite AutogazelleFacts.io_bind_eq.
  destruct (restoreFile fuel _ _ _) as [[res w1]|] eqn:Hrun; [|done].
  apply restoreFile_cases in Hrun
    as [(_ & _ & ->)|[(_ & _ & _ & _ & ->)|[(_ & _ & _ & _ & _ & ->)
       |(_ & _ & _ & _ & err & w5 & Hcopy & _ & ->)]]].
  1-3: destruct res as [err|]; intros [= <-];
    cbn [files log bothClosed addOp addLog putFile];
    (split; [intros path Hp; by rewrite ?lookup_insert_ne by done|]);
    [exists [err]|exists []]; rewrite ?app_nil_r; (split; [done|simpl; lia]).
  apply ioCopy_general in Hcopy as (Hlog & Hframe & _).
  cbn [fpath headerWritten files log addOp putFile] in Hlog, Hframe.
  destruct res as [e|]; intros [= <-];
    cbn [files log bothClosed addOp addLog putFile];
    (split; [intros path Hp; rewrite Hframe by done;
             by rewrite !lookup_insert_ne by done|]);
    [exists [e]|exists []]; rewrite Hlog, ?app_nil_r; (split; [done|simpl; lia]).
Qed.

(** X14: [restoreBuildFilesInDir(dir)] changes no file but [dir/BUILD.bazel] and
    [dir/BUILD], whatever the system fails, and logs at most two
    messages. *)
Theorem restoreBuildFilesInDir_frame fuel dir w w' :
  restoreBuildFilesInDir fuel dir w = Some (tt, w') →
  (∀ path,
     path ≠ filepath_Join dir "BUILD.bazel" → path ≠ filepath_Join dir "BUILD" →
     files w' !! path = files w !! path)
  ∧ ∃ errs, log w' = log w ++ errs ∧ length errs ≤ 2.
Proof.
  unfold restoreBuildFilesInDir. simpl forEach. rewrite AutogazelleFacts.io_bind_eq.
  destruct (restoreBase fuel dir "BUILD.bazel" w) as [[[] w1]|] eqn:H1;
    [|done].
  rewrite AutogazelleFacts.io_bind_eq.
  destruct (restoreBase fuel dir "BUILD" w1) as [[[] w2]|] eqn:H2; [|done].
  intros [= <-].
  apply restoreBase_frame in H1 as (Hframe1 & errs1 & Hlog1 & Hlen1).
  apply restoreBase_frame in H2 as (Hframe2 & errs2 & Hlog2 & Hlen2).
  split.
  - intros path Hbazel Hbuild. by rewrite Hframe2, Hframe1.
  - exists (errs1 ++ errs2). rewrite Hlog2, Hlog1, <- app_assoc, length_app.
    split; [done|lia].
Qed.

(** A round of [restoreBuildFilesInDir] whose template is there, on a
    system that fails nothing. *)
Lemma restoreBase_restores fuel dir base w B :
  (∀ k, fault k = None) →
  filepath_Join dir (base +:+ ".in") ≠ filepath_Join dir base →
  files w !! filepath_Join dir (base +:+ ".in") = Some B →
  length B < fuel →
  ∃ w', restoreBase fuel dir base w = Some (tt, w')
        ∧ log w' = log w
        ∧ files w' !! filepath_Join dir base
          = Some (bytes_of (header (filepath_Join dir (base +:+ ".in"))) ++ B)
        ∧ ∀ path, path ≠ filepath_Join dir base →
                  files w' !! path = files w !! path.
Proof.
  intros Hok Hne HB Hfuel.
  unfold restoreBase. rewrite AutogazelleFacts.io_bind_eq, AutogazelleFacts.osStat_eq, Hok, HB.
  rewrite AutogazelleFacts.io_bind_eq.
  destruct (AutogazelleFacts.restoreFile_runs fuel
              (filepath_Join dir (base +:+ ".in")) (filepath_Join dir base)
              (addOp (OpStat (filepath_Join dir (base +:+ ".in"))) w) B)
    as [w' Hrun]; [done..|].
  rewrite Hrun. exists w'. split; [done|].
  apply AutogazelleFacts.restoreFile_success with (B := B) in Hrun
    as (_ & Hdest & _ & Hlog & Hframe); [|done].
  done.
Qed.

(** X15: On a system that fails nothing, [restoreBuildFilesInDir(dir)] returns
    having written, for each of [BUILD.bazel] and [BUILD] whose template
    [.in] is in [dir], the header and the template to it; the other of the
    two is left as it was, and nothing is logged.  The four paths are
    taken to be different ones. *)
Theorem restoreBuildFilesInDir_writes fuel dir w :
  let path := filepath_Join dir in
  let restored base w' :=
    match files w !! path (base +:+ ".in") with
    | Some B =>
        files w' !! path base
        = Some (bytes_of (header (path (base +:+ ".in"))) ++ B)
    | None => files w' !! path base = files w !! path base
    end in
  (∀ k, fault k = None) →
  NoDup [path "BUILD.bazel.in"; path "BUILD.bazel";
         path "BUILD.in"; path "BUILD"] →
  (∀ base B, base ∈ ["BUILD.bazel"; "BUILD"] →
             files w !! path (base +:+ ".in") = Some B → length B < fuel) →
  ∃ w', restoreBuildFilesInDir fuel dir w = Some (tt, w')
        ∧ log w' = log w
        ∧ restored "BUILD.bazel" w' ∧ restored "BUILD" w'.
Proof.
  intros path restored Hok Hdup Hfuel.
  apply NoDup_cons in Hdup as [Hn1 Hdup].
  apply NoDup_cons in Hdup as [Hn2 Hdup].
  apply NoDup_cons in Hdup as [Hn3 _].
  assert (path "BUILD.bazel.in" ≠ path "BUILD.bazel") as Ha by set_solver.
  assert (path "BUILD.bazel" ≠ path "BUILD.in") as Hb by set_solver.
  assert (path "BUILD.bazel" ≠ path "BUILD") as Hc by set_solver.
  assert (path "BUILD.in" ≠ path "BUILD") as Hd by set_solver.
  clear Hn1 Hn2 Hn3.
  assert (∃ w1, restoreBase fuel dir "BUILD.bazel" w = Some (tt, w1)
                ∧ log w1 = log w ∧ restored "BUILD.bazel" w1
                ∧ ∀ p, p ≠ path "BUILD.bazel" → files w1 !! p = files w !! p)
    as (w1 & Hrun1 & Hlog1 & Hres1 & Hframe1).
  { unfold restored.
    destruct (files w !! path ("BUILD.bazel" +:+ ".in")) as [B|] eqn:HB.
    - destruct (restoreBase_restores fuel dir "BUILD.bazel" w B)
        as (w1 & ? & ? & ? & ?); [done|done|done|eapply Hfuel; [|done]; set_solver|].
      by exists w1.
    - eexists. rewrite AutogazelleFacts.restoreBase_skip by (by right).
      done. }
  assert (∃ w2, restoreBase fuel dir "BUILD" w1 = Some (tt, w2)
                ∧ log w2 = log w1
                ∧ match files w !! path ("BUILD" +:+ ".in") with
                  | Some B =>
                      files w2 !! path "BUILD"
                      = Some (bytes_of (header (path ("BUILD" +:+ ".in")))
                              ++ B)
                  | None => files w2 !! path "BUILD" = files w1 !! path "BUILD"
                  end
                ∧ ∀ p, p ≠ path "BUILD" → files w2 !! p = files w1 !! p)
    as (w2 & Hrun2 & Hlog2 & Hres2 & Hframe2).
  { assert (files w1 !! path ("BUILD" +:+ ".in")
            = files w !! path ("BUILD" +:+ ".in")) as Hsame
      by (apply Hframe1; done).
    destruct (files w !! path ("BUILD" +:+ ".in")) as [B|] eqn:HB.
    - destruct (restoreBase_restores fuel dir "BUILD" w1 B)
        as (w2 & ? & ? & ? & ?); [done|done|done|eapply Hfuel; [|done]; set_solver|].
      by exists w2.
    - eexists. rewrite AutogazelleFacts.restoreBase_skip by (by right).
      done. }
  exists w2. unfold restoreBuildFilesInDir. simpl forEach.
  rewrite AutogazelleFacts.io_bind_eq, Hrun1, AutogazelleFacts.io_bind_eq, Hrun2.
  split_and!; [done|congruence| |].
  - unfold restored in *. rewrite Hframe2 by done. done.
  - unfold restored.
    destruct (files w !! path ("BUILD" +:+ ".in")); [done|].
    rewrite Hres2. apply Hframe1. done.
Qed.

Lemma filter_none (f : Op → bool) (l : list Op) :
  Forall (λ op, f op = false) l → filter f l = [].
Proof.
  induction 1 as [|op l Hop _ IH]; [done|].
  rewrite filter_cons_False; [done|]. rewrite Hop. by intros [].
Qed.

(** [restoreFile(src, dest)] opens [src] and nothing else, and calls no
    function of the walk. *)
Lemma restoreFile_opens fuel src dest w res w' :
  restoreFile fuel src dest w = Some (res, w') →
  filter isOpen (ops w') = filter isOpen (ops w) ++ [OpOpen src]
  ∧ filter isWalkFunc (ops w') = filter isWalkFunc (ops w).
Proof.
  intros Hrun.
  apply restoreFile_cases in Hrun
    as [(_ & _ & ->)|[(_ & _ & _ & _ & ->)|[(_ & _ & _ & _ & _ & ->)
       |(_ & _ & _ & _ & err & w5 & Hcopy & _ & ->)]]];
    cbn [ops bothClosed addOp putFile].
  1-3: by rewrite !filter_app, ?app_nil_r.
  apply ioCopy_general in Hcopy as (_ & _ & (rw & Hops & Hrw) & _).
  cbn [ops headerWritten addOp putFile] in Hops.
  rewrite Hops, !filter_app.
  rewrite (filter_none isOpen rw), (filter_none isWalkFunc rw), ?app_nil_r;
    [done|..]; (eapply Forall_impl; [done|]); by intros op [->|[data ->]].
Qed.

(** The body of the loop of [restoreBuildFilesInRepo]. *)
#[local] Abbreviation restoreIn fuel dir :=
  (λ file : string,
     if negb (String.eqb file "BUILD.bazel.in")
        && negb (String.eqb file "BUILD.in")
     then mret tt
     else
       let path := filepath_Join dir file in
       err ← restoreFile fuel path (TrimSuffix path ".in");
       match err with
       | Some err => logPrint err
       | None => mret tt
       end).

#[local] Abbreviation inDir dir regularFiles :=
  (filepath_Join dir <$> filter (λ file, isTemplate file = true) regularFiles).

#[local] Abbreviation destOf := (λ src : string, TrimSuffix src ".in").

Lemma restoreIn_effects fuel dir : ∀ regularFiles w w',
  forEach (restoreIn fuel dir) regularFiles w = Some (tt, w') →
  filter isOpen (ops w')
  = filter isOpen (ops w) ++ (OpOpen <$> inDir dir regularFiles)
  ∧ filter isWalkFunc (ops w') = filter isWalkFunc (ops w)
  ∧ (∀ path, path ∉ destOf <$> inDir dir regularFiles →
             files w' !! path = files w !! path)
  ∧ ∃ errs, log w' = log w ++ errs
            ∧ length errs ≤ length (inDir dir regularFiles).
Proof.
  induction regularFiles as [|file regularFiles IH]; intros w w'.
  { intros [= <-]. rewrite app_nil_r. split_and!; [done..|].
    exists []. by rewrite app_nil_r. }
  cbn [forEach]. rewrite AutogazelleFacts.io_bind_eq.
  destruct (negb (String.eqb file "BUILD.bazel.in")
            && negb (String.eqb file "BUILD.in")) eqn:Hfile.
  { rewrite filter_cons_False by (unfold isTemplate; by rewrite Hfile).
    apply IH. }
  rewrite filter_cons_True by (unfold isTemplate; by rewrite Hfile).
  rewrite AutogazelleFacts.io_bind_eq.
  destruct (restoreFile fuel _ _ w) as [[res w1]|] eqn:Hrun; [|done].
  pose proof (restoreFile_opens _ _ _ _ _ _ Hrun) as [Hopen Hwalk].
  apply restoreFile_cases in Hrun as Hcases.
  assert (log w1 = log w
          ∧ ∀ path, path ≠ destOf (filepath_Join dir file) →
                    files w1 !! path = files w !! path) as [Hlog Hframe].
  { destruct Hcases
      as [(_ & _ & ->)|[(_ & _ & _ & _ & ->)|[(_ & _ & _ & _ & _ & ->)
         |(_ & _ & _ & _ & err & w5 & Hcopy & _ & ->)]]];
      cbn [files log bothClosed addOp putFile].
    1-3: split; [done|]; intros path Hp; by rewrite ?lookup_insert_ne by done.
    apply ioCopy_general in Hcopy as (Hlog & Hframe & _).
    cbn [fpath headerWritten files log addOp putFile] in Hlog, Hframe.
    split; [done|]. intros path Hp. rewrite Hframe by done.
    by rewrite !lookup_insert_ne by done. }
  clear Hcases.
  set (w2 := match res with Some err => addLog err w1 | None => w1 end).
  assert (match res with
          | Some err => logPrint err
          | None => mret tt
          end w1 = Some (tt, w2)) as -> by (by destruct res).
  assert (ops w2 = ops w1 ∧ files w2 = files w1
          ∧ ∃ errs, log w2 = log w ++ errs ∧ length errs ≤ 1)
    as (Hops2 & Hfiles2 & errs1 & Hlog2 & Hlen1).
  { destruct res as [err|]; subst w2; cbn [ops files log addLog];
      (split_and!; [done..|]); rewrite Hlog;
      [exists [err]|exists []]; rewrite ?app_nil_r; (split; [done|simpl; lia]). }
  intros Hrest. apply IH in Hrest as (Ho & Hw & Hf & errs & Hl & Hlen).
  rewrite Ho, Hw, Hops2, Hopen, Hwalk. cbn [fmap list_fmap length].
  rewrite <- app_assoc. split_and!; [done..| |].
  - intros path Hp. apply not_elem_of_cons in Hp as [Hp1 Hp2].
    rewrite Hf by done. rewrite Hfiles2. by apply Hframe.
  - exists (errs1 ++ errs). rewrite Hl, Hlog2, <- app_assoc, length_app.
    split; [done|lia].
Qed.

Lemma templates_cons dir regularFiles visited :
  templates ((dir, regularFiles) :: visited)
  = inDir dir regularFiles ++ templates visited.
Proof. reflexivity. Qed.

Lemma walk_effects fuel : ∀ visited w w',
  forEach (λ '(dir, regularFiles),
             _ ← perform (OpWalkFunc dir regularFiles);
             forEach (restoreIn fuel dir) regularFiles) visited w
  = Some (tt, w') →
  filter isOpen (ops w') = filter isOpen (ops w) ++ (OpOpen <$> templates visited)
  ∧ filter isWalkFunc (ops w')
    = filter isWalkFunc (ops w)
      ++ ((λ '(dir, regularFiles), OpWalkFunc dir regularFiles) <$> visited)
  ∧ (∀ path, path ∉ destOf <$> templates visited →
             files w' !! path = files w !! path)
  ∧ ∃ errs, log w' = log w ++ errs ∧ length errs ≤ length (templates visited).
Proof.
  induction visited as [|[dir regularFiles] visited IH]; intros w w'.
  { intros [= <-]. rewrite !app_nil_r. split_and!; [done..|].
    exists []. by rewrite app_nil_r. }
  cbn [forEach]. rewrite !AutogazelleFacts.io_bind_eq. cbn [perform].
  destruct (forEach (restoreIn fuel dir) regularFiles _) as [[[] w1]|] eqn:Hin;
    [|done].
  apply restoreIn_effects in Hin as (Ho1 & Hw1 & Hf1 & errs1 & Hl1 & Hlen1).
  cbn [ops files log addOp] in Ho1, Hw1, Hf1, Hl1.
  rewrite filter_app in Ho1, Hw1.
  rewrite app_nil_r in Ho1.
  intros Hrest. apply IH in Hrest as (Ho & Hw & Hf & errs & Hl & Hlen).
  rewrite templates_cons, !fmap_app, length_app.
  rewrite Ho, Hw, Ho1, Hw1, Hl, Hl1, <- !app_assoc.
  split_and!; [done..| |].
  - intros path Hp. apply not_elem_of_app in Hp as [Hp1 Hp2].
    by rewrite Hf, Hf1.
  - exists (errs1 ++ errs). rewrite length_app. split; [done|lia].
Qed.

(** X16: [restoreBuildFilesInRepo] opens the files named [BUILD.bazel.in] or
    [BUILD.in] that the walk lists, each once and in the order of the walk,
    and opens nothing else.  It changes no file but those named as the
    templates without [.in], whatever the system fails, and logs at most
    one message for each template. *)
Theorem restoreBuildFilesInRepo_templates fuel root w w' :
  filepath_Abs "." = Ok root →
  restoreBuildFilesInRepo fuel w = Some (tt, w') →
  let srcs := templates (walk_Walk root) in
  filter isOpen (ops w') = filter isOpen (ops w) ++ (OpOpen <$> srcs)
  ∧ (∀ path, path ∉ (λ src, TrimSuffix src ".in") <$> srcs →
             files w' !! path = files w !! path)
  ∧ ∃ errs, log w' = log w ++ errs ∧ length errs ≤ length srcs.
Proof.
  intros Habs. unfold restoreBuildFilesInRepo, walkWorkspace. rewrite Habs.
  intros Hrun. apply walk_effects in Hrun as (Ho & _ & Hf & Hl). done.
Qed.

Section NoFault.
Hypothesis no_fault : ∀ k, fault k = None.

Lemma restoreFile_puts fuel src w B :
  src ≠ TrimSuffix src ".in" → files w !! src = Some B → length B < fuel →
  ∃ w', restoreFile fuel src (TrimSuffix src ".in") w = Some (None, w')
        ∧ log w' = log w ∧ files w' = putRestored (files w) src.
Proof.
  intros Hne HB Hfuel.
  destruct (AutogazelleFacts.restoreFile_runs fuel src (TrimSuffix src ".in")
              w B) as [w' Hrun]; [done..|].
  exists w'. split; [done|].
  apply AutogazelleFacts.restoreFile_success with (B := B) in Hrun
    as (_ & Hdest & _ & Hlog & Hframe); [|done].
  split; [done|]. apply map_eq. intros path. unfold putRestored.
  rewrite HB. cbn [default].
  destruct (decide (path = TrimSuffix src ".in")) as [->|Hp].
  - by rewrite lookup_insert_eq.
  - rewrite lookup_insert_ne by done. by apply Hframe.
Qed.

Lemma ready_app fuel : ∀ l1 l2 m,
  ready fuel m (l1 ++ l2)
  ↔ ready fuel m l1 ∧ ready fuel (foldl putRestored m l1) l2.
Proof.
  induction l1 as [|src l1 IH]; intros l2 m; simpl; [tauto|].
  rewrite IH. tauto.
Qed.

Lemma restoreIn_runs fuel dir : ∀ regularFiles w,
  ready fuel (files w) (inDir dir regularFiles) →
  ∃ w', forEach (restoreIn fuel dir) regularFiles w = Some (tt, w')
        ∧ log w' = log w
        ∧ files w' = foldl putRestored (files w) (inDir dir regularFiles).
Proof.
  induction regularFiles as [|file regularFiles IH]; intros w.
  { intros _. by exists w. }
  cbn [forEach]. rewrite AutogazelleFacts.io_bind_eq.
  destruct (negb (String.eqb file "BUILD.bazel.in")
            && negb (String.eqb file "BUILD.in")) eqn:Hfile.
  { rewrite filter_cons_False by (unfold isTemplate; by rewrite Hfile).
    apply IH. }
  rewrite filter_cons_True by (unfold isTemplate; by rewrite Hfile).
  cbn [fmap list_fmap ready foldl]. intros (Hne & (B & HB & Hfuel) & Hready).
  rewrite AutogazelleFacts.io_bind_eq.
  destruct (restoreFile_puts fuel (filepath_Join dir file) w B)
    as (w1 & -> & Hlog1 & Hfiles1); [done..|].
  rewrite <- Hfiles1 in Hready |- *.
  destruct (IH w1 Hready) as (w' & Hrun & Hlog & Hfiles).
  exists w'. split_and!; [done|congruence|done].
Qed.

Lemma walk_runs fuel : ∀ visited w,
  ready fuel (files w) (templates visited) →
  ∃ w', forEach (λ '(dir, regularFiles),
                   _ ← perform (OpWalkFunc dir regularFiles);
                   forEach (restoreIn fuel dir) regularFiles) visited w
        = Some (tt, w')
        ∧ log w' = log w
        ∧ files w' = foldl putRestored (files w) (templates visited).
Proof.
  induction visited as [|[dir regularFiles] visited IH]; intros w.
  { intros _. by exists w. }
  rewrite templates_cons, ready_app, foldl_app. intros [Hin Hrest].
  cbn [forEach]. rewrite !AutogazelleFacts.io_bind_eq.
  unfold perform at 1. cbv beta iota.
  destruct (restoreIn_runs fuel dir regularFiles
              (addOp (OpWalkFunc dir regularFiles) w) Hin)
    as (w1 & Hrun1 & Hlog1 & Hfiles1).
  cbv zeta in Hrun1 |- *. rewrite Hrun1.
  cbn [files log addOp] in Hlog1, Hfiles1. rewrite <- Hfiles1 in Hrest |- *.
  destruct (IH w1 Hrest) as (w' & Hrun & Hlog & Hfiles).
  exists w'. split_and!; [done|congruence|done].
Qed.

End NoFault.

(** The files after restoring [srcs] in turn, when no destination is among
    the templates and different templates have different destinations. *)
Lemma foldl_putRestored fuel : ∀ srcs m,
  (∀ src, src ∈ srcs → ∃ B, m !! src = Some B ∧ length B < fuel) →
  (∀ src, src ∈ srcs → destOf src ∉ srcs) →
  (∀ src src', src ∈ srcs → src' ∈ srcs → destOf src = destOf src' →
               src = src') →
  ready fuel m srcs
  ∧ (∀ path, path ∉ destOf <$> srcs →
             foldl putRestored m srcs !! path = m !! path)
  ∧ (∀ src, src ∈ srcs →
            foldl putRestored m srcs !! destOf src
            = Some (bytes_of (header src) ++ default [] (m !! src))).
Proof.
  induction srcs as [|src srcs IH]; intros m Hthere Hdest Hinj.
  { split_and!; [done..|]. by intros src Hin%elem_of_nil. }
  assert (src ≠ destOf src) as Hne.
  { intros Heq. apply (Hdest src); [left|]. rewrite <- Heq. left. }
  assert (∀ s, s ∈ srcs → putRestored m src !! s = m !! s) as Hkept.
  { intros s Hs. unfold putRestored. apply lookup_insert_ne.
    intros Heq. apply (Hdest src); [left|]. rewrite Heq. by right. }
  destruct (IH (putRestored m src)) as (Hready & Hframe & Hput).
  { intros s Hs. rewrite Hkept by done. apply Hthere. by right. }
  { intros s Hs Hin. apply (Hdest s); by right. }
  { intros s s' Hs Hs'. apply Hinj; by right. }
  cbn [ready foldl]. split_and!; [done| |done| |].
  - apply Hthere. left.
  - intros path Hp. cbn [fmap list_fmap] in Hp.
    apply not_elem_of_cons in Hp as [Hp1 Hp2].
    rewrite Hframe by done. by apply lookup_insert_ne.
  - intros s Hs.
    assert (putRestored m src !! src = m !! src) as Hsrc
      by (by apply lookup_insert_ne).
    destruct (decide (s ∈ srcs)) as [Hin|Hnin].
    { rewrite Hput by done. by rewrite Hkept. }
    apply elem_of_cons in Hs as [->|Hs]; [|done].
    rewrite Hframe.
    + unfold putRestored. by rewrite lookup_insert_eq.
    + intros (s' & Heq & Hs')%list_elem_of_fmap.
      apply Hnin. rewrite (Hinj src s'); [done|left|by right|done].
Qed.

(** X17: On a system that fails nothing, [restoreBuildFilesInRepo] returns having
    written, for each template the walk lists, the header and the template
    to the path without [.in]; no other file changes and nothing is logged.
    The templates are taken to be there, no destination to be a template,
    and different templates to have different destinations. *)
Theorem restoreBuildFilesInRepo_restores fuel root w :
  let srcs := templates (walk_Walk root) in
  let dest src := TrimSuffix src ".in" in
  (∀ k, fault k = None) →
  filepath_Abs "." = Ok root →
  (∀ src, src ∈ srcs → ∃ B, files w !! src = Some B ∧ length B < fuel) →
  (∀ src, src ∈ srcs → dest src ∉ srcs) →
  (∀ src src', src ∈ srcs → src' ∈ srcs → dest src = dest src' → src = src') →
  ∃ w', restoreBuildFilesInRepo fuel w = Some (tt, w')
        ∧ log w' = log w
        ∧ (∀ src B, src ∈ srcs → files w !! src = Some B →
             files w' !! dest src = Some (bytes_of (header src) ++ B))
        ∧ (∀ path, path ∉ dest <$> srcs → files w' !! path = files w !! path).
Proof.
  intros srcs dest Hok Habs Hthere Hdest Hinj. subst dest. cbv beta in *.
  destruct (foldl_putRestored fuel srcs (files w))
    as (Hready & Hframe & Hput); [done..|].
  destruct (walk_runs Hok fuel (walk_Walk root) w Hready)
    as (w' & Hrun & Hlog & Hfiles).
  exists w'. unfold restoreBuildFilesInRepo, walkWorkspace. rewrite Habs.
  split_and!; [done..| |].
  - intros src B Hsrc HB. rewrite Hfiles. fold srcs.
    rewrite (Hput src Hsrc). by rewrite HB.
  - intros path Hp. rewrite Hfiles. by apply Hframe.
Qed.

Lemma append_assoc (a b c : string) : (a +:+ b) +:+ c = a +:+ b +:+ c.
Proof.
  unfold String.append. induction a as [|x a IH]; simpl; [done|].
  by f_equal.
Qed.

Lemma length_append (a b : string) :
  String.length (a +:+ b) = String.length a + String.length b.
Proof.
  unfold String.append. induction a as [|x a IH]; simpl; [done|].
  by f_equal.
Qed.

Lemma list_ascii_of_append (a b : string) :
  String.list_ascii_of_string (a +:+ b)
  = String.list_ascii_of_string a ++ String.list_ascii_of_string b.
Proof.
  unfold String.append. induction a as [|x a IH]; simpl; [done|].
  by f_equal.
Qed.

Lemma withoutSuffix_append suffix : ∀ t,
  Dep.withoutSuffix suffix (t +:+ suffix) = Some t.
Proof.
  induction t as [|c t IH].
  - rewrite DepFacts.withoutSuffix_unfold.
    change ("" +:+ suffix) with suffix. by rewrite String.eqb_refl.
  - rewrite DepFacts.withoutSuffix_unfold.
    change (String c t +:+ suffix) with (String c (t +:+ suffix)).
    destruct (String.eqb (String c (t +:+ suffix)) suffix) eqn:Heq.
    { apply String.eqb_eq in Heq. apply (f_equal String.length) in Heq.
      simpl in Heq. rewrite length_append in Heq. lia. }
    by rewrite IH.
Qed.

(** [strings.TrimSuffix] takes off a suffix that was put on. *)
Lemma TrimSuffix_append (t suffix : string) :
  TrimSuffix (t +:+ suffix) suffix = t.
Proof.
  pose proof (DepFacts.withoutSuffix_slice suffix (t +:+ suffix)) as Hslice.
  rewrite withoutSuffix_append in Hslice. unfold TrimSuffix.
  destruct (HasSuffix (t +:+ suffix) suffix); congruence.
Qed.

(** X18: The file [restoreBuildFilesInRepo] writes for a template [BUILD.in] or
    [BUILD.bazel.in] whose path ends in its name, as a path made by
    [filepath.Join] does, is [BUILD] or [BUILD.bazel] in the same place:
    it is another file than the template, and the template is it with
    [.in] put on. *)
Theorem template_destination (prefix file : string) :
  isTemplate file = true →
  let src := prefix +:+ file in
  let dest := TrimSuffix src ".in" in
  (dest = prefix +:+ "BUILD.bazel" ∨ dest = prefix +:+ "BUILD")
  ∧ dest +:+ ".in" = src
  ∧ dest ≠ src.
Proof.
  intros Hfile src dest.
  assert (∃ base, (base = "BUILD.bazel" ∨ base = "BUILD")
                  ∧ file = base +:+ ".in") as (base & Hbase & ->).
  { unfold isTemplate in Hfile.
    destruct (String.eqb file "BUILD.bazel.in") eqn:H1.
    - apply String.eqb_eq in H1 as ->. exists "BUILD.bazel". by split; [left|].
    - destruct (String.eqb file "BUILD.in") eqn:H2; [|done].
      apply String.eqb_eq in H2 as ->. exists "BUILD". by split; [right|]. }
  assert (dest = prefix +:+ base) as Hdest.
  { subst dest src. by rewrite <- append_assoc, TrimSuffix_append. }
  split_and!.
  - rewrite Hdest. destruct Hbase as [-> | ->]; [by left|by right].
  - subst src. by rewrite Hdest, append_assoc.
  - rewrite Hdest. subst src. intros Heq.
    apply (f_equal String.length) in Heq. rewrite !length_append in Heq.
    simpl in Heq. lia.
Qed.

Lemma dropSeparators_plain c rpath :
  isPathSeparator c = false → dropSeparators (c :: rpath) = c :: rpath.
Proof. intros Hc. simpl. by rewrite Hc. Qed.

Lemma takeElement_app : ∀ elem rest,
  Forall (λ c, isPathSeparator c = false) elem →
  takeElement (elem ++ separator :: rest) = elem.
Proof.
  induction elem as [|c elem IH]; intros rest Helem; simpl.
  - reflexivity.
  - inversion Helem as [|? ? Hc Helem']; subst. rewrite Hc. by rewrite IH.
Qed.

(** X19: The header [restoreFile] writes names the template by its last
    element only, not by its directory: [filepath.Base] of [dir/name] is
    [name], so for a template [name] in any directory the generated file
    starts with the same three lines and an empty one. *)
Theorem header_names_base (dir name : string) :
  name ≠ "" →
  Forall (λ c, isPathSeparator c = false) (String.list_ascii_of_string name) →
  Base (dir +:+ "/" +:+ name) = name
  ∧ header (dir +:+ "/" +:+ name)
    = "# This file was generated from " +:+ name +:+ nl
      +:+ "# by " +:+ Base Args0 +:+ nl
      +:+ "# DO NOT EDIT" +:+ nl +:+ nl.
Proof.
  intros Hname Hplain.
  assert (Base (dir +:+ "/" +:+ name) = name) as Hbase;
    [|split; [done|unfold header; by rewrite Hbase]].
  unfold Base.
  destruct (String.eqb (dir +:+ "/" +:+ name) "") eqn:Hempty.
  { apply String.eqb_eq in Hempty. apply (f_equal String.length) in Hempty.
    rewrite !length_append in Hempty. simpl in Hempty. lia. }
  rewrite !list_ascii_of_append, !rev_app_distr. cbv zeta.
  change (rev (String.list_ascii_of_string "/")) with [separator].
  rewrite <- app_assoc. cbn [app].
  set (elem := rev (String.list_ascii_of_string name)).
  assert (Forall (λ c, isPathSeparator c = false) elem) as Helem
    by (by apply Forall_rev).
  assert (elem ≠ []) as Hne.
  { intros Heq. apply Hname. subst elem.
    apply (f_equal (@rev ascii)) in Heq. rewrite rev_involutive in Heq.
    rewrite <- (String.string_of_list_ascii_of_string name), Heq. done. }
  destruct elem as [|c elem'] eqn:Helem_eq; [done|].
  rewrite <- app_comm_cons, dropSeparators_plain by (by inversion Helem).
  rewrite app_comm_cons, takeElement_app by done.
  rewrite <- Helem_eq. subst elem. rewrite rev_involutive.
  rewrite String.string_of_list_ascii_of_string.
  destruct (String.eqb name "") eqn:Hn; [|done].
  by apply String.eqb_eq in Hn.
Qed.

(** [io.Copy] between two files comes to an end whatever the system fails,
    within a round for each byte left and one more. *)
Lemma ioCopy_returns fuel : ∀ wf rf w B,
  fpath wf ≠ fpath rf →
  files w !! fpath rf = Some B → length B - offset rf < fuel →
  ∃ res w', ioCopy fuel wf rf w = Some (res, w').
Proof.
  induction fuel as [|fuel IH]; intros wf rf w B Hne HB Hfuel; [lia|].
  rewrite AutogazelleFacts.ioCopy_unfold. cbv zeta.
  destruct (fault (length (ops w))) as [err|]; [by eexists _, _|].
  rewrite (AutogazelleFacts.contentOf_Some _ _ _ HB).
  destruct (take copyBufSize (drop (offset rf) B)) as [|c data] eqn:Hdata;
    [by eexists _, _|].
  destruct (fault (length (ops (addOp (OpRead (fpath rf)) w)))) as [err|];
    [by eexists _, _|].
  assert (length (c :: data) ≤ length B - offset rf) as Hlen.
  { rewrite <- Hdata, length_take, <- (length_drop B). lia. }
  simpl in Hlen.
  eapply (IH _ _ _ B); cbn [fpath offset files addOp putFile length];
    [done|by rewrite lookup_insert_ne|lia].
Qed.

(** X20: [restoreFile(src, dest)] on two different files returns whatever
    the system fails: with a round of [io.Copy] for each byte of the
    template and one more, it comes to an end with nil or an error. *)
Theorem restoreFile_returns fuel src dest w :
  src ≠ dest →
  (∀ B, files w !! src = Some B → length B < fuel) →
  ∃ res w', restoreFile fuel src dest w = Some (res, w').
Proof.
  intros Hne Hfuel. rewrite restoreFile_eq. cbv zeta.
  destruct (fault (length (ops w))) as [err|]; [by eexists _, _|].
  destruct (files w !! src) as [B|] eqn:HB; [|by eexists _, _].
  destruct (fault (length (ops (addOp (OpOpen src) w)))) as [err|];
    [by eexists _, _|].
  destruct (fault (length (ops (putFile dest [] _)))) as [err|];
    [by eexists _, _|].
  destruct (ioCopy_returns fuel
              {| fpath := dest; offset := length (bytes_of (header src)) |}
              {| fpath := src; offset := 0 |}
              (headerWritten src dest w) B) as (err & w5 & Hcopy).
  - cbn [fpath]. congruence.
  - cbn [fpath headerWritten files addOp putFile].
    by rewrite !lookup_insert_ne.
  - cbn [offset]. specialize (Hfuel B eq_refl). lia.
  - unfold headerWritten in Hcopy. rewrite Hcopy. by eexists _, _.
Qed.

(** One round of [restoreBuildFilesInDir] returns whatever the system
    fails. *)
Lemma restoreBase_returns fuel dir base w :
  filepath_Join dir (base +:+ ".in") ≠ filepath_Join dir base →
  (∀ B, files w !! filepath_Join dir (base +:+ ".in") = Some B →
        length B < fuel) →
  ∃ w', restoreBase fuel dir base w = Some (tt, w').
Proof.
  intros Hne Hfuel. unfold restoreBase.
  rewrite AutogazelleFacts.io_bind_eq, AutogazelleFacts.osStat_eq.
  destruct (match fault (length (ops w)) with
            | Some err => Some err
            | None => _
            end) as [err|]; [by eexists|].
  rewrite AutogazelleFacts.io_bind_eq.
  destruct (restoreFile_returns fuel
              (filepath_Join dir (base +:+ ".in")) (filepath_Join dir base)
              (addOp (OpStat (filepath_Join dir (base +:+ ".in"))) w))
    as (res & w1 & ->); [done|done|].
  destruct res; by eexists.
Qed.

(** X21: [restoreBuildFilesInDir(dir)] returns whatever the system fails,
    when the templates and the files made of them are different paths and
    [io.Copy] has a round for each byte of a template and one more. *)
Theorem restoreBuildFilesInDir_returns fuel dir w :
  let path := filepath_Join dir in
  path "BUILD.bazel.in" ≠ path "BUILD.bazel" →
  path "BUILD.in" ≠ path "BUILD" →
  path "BUILD.in" ≠ path "BUILD.bazel" →
  (∀ base B, base ∈ ["BUILD.bazel"; "BUILD"] →
             files w !! path (base +:+ ".in") = Some B → length B < fuel) →
  ∃ w', restoreBuildFilesInDir fuel dir w = Some (tt, w').
Proof.
  intros path Hbazel Hbuild Hcross Hfuel.
  unfold restoreBuildFilesInDir. simpl forEach.
  rewrite AutogazelleFacts.io_bind_eq.
  destruct (restoreBase_returns fuel dir "BUILD.bazel" w) as [w1 Hrun1];
    [done|intros B; apply Hfuel; set_solver|].
  rewrite Hrun1, AutogazelleFacts.io_bind_eq.
  apply restoreBase_frame in Hrun1 as [Hframe _].
  destruct (restoreBase_returns fuel dir "BUILD" w1) as [w2 Hrun2]; [done| |].
  { intros B. rewrite Hframe by done. apply Hfuel. set_solver. }
  rewrite Hrun2. by eexists.
Qed.

(** [restoreFile(src, dest)] changes no file but [dest]. *)
Lemma restoreFile_keeps fuel src dest w res w' :
  restoreFile fuel src dest w = Some (res, w') →
  ∀ path, path ≠ dest → files w' !! path = files w !! path.
Proof.
  intros Hrun.
  apply restoreFile_cases in Hrun
    as [(_ & _ & ->)|[(_ & _ & _ & _ & ->)|[(_ & _ & _ & _ & _ & ->)
       |(_ & _ & _ & _ & err & w5 & Hcopy & _ & ->)]]];
    cbn [files bothClosed addOp putFile].
  1-3: intros path Hp; by rewrite ?lookup_insert_ne by done.
  apply ioCopy_general in Hcopy as (_ & Hframe & _).
  cbn [fpath headerWritten files addOp putFile] in Hframe.
  intros path Hp. rewrite Hframe by done.
  by rewrite !lookup_insert_ne by done.
Qed.

Section Returns.
Variables (fuel : nat) (w0 : World) (srcs : list string).
Hypothesis apart : ∀ src, src ∈ srcs → destOf src ∉ srcs.
Hypothesis rounds :
  ∀ src B, src ∈ srcs → files w0 !! src = Some B → length B < fuel.

Lemma restoreIn_returns dir : ∀ regularFiles w,
  inDir dir regularFiles ⊆ srcs →
  (∀ src, src ∈ srcs → files w !! src = files w0 !! src) →
  ∃ w', forEach (restoreIn fuel dir) regularFiles w = Some (tt, w')
        ∧ ∀ src, src ∈ srcs → files w' !! src = files w0 !! src.
Proof.
  induction regularFiles as [|file regularFiles IH]; intros w Hsub Hsame.
  { by exists w. }
  cbn [forEach]. rewrite AutogazelleFacts.io_bind_eq.
  destruct (negb (String.eqb file "BUILD.bazel.in")
            && negb (String.eqb file "BUILD.in")) eqn:Hfile.
  { rewrite filter_cons_False in Hsub
      by (unfold isTemplate; by rewrite Hfile).
    by apply IH. }
  rewrite filter_cons_True in Hsub by (unfold isTemplate; by rewrite Hfile).
  cbn [fmap list_fmap] in Hsub.
  assert (filepath_Join dir file ∈ srcs) as Hin by (apply Hsub; left).
  assert (inDir dir regularFiles ⊆ srcs) as Hrest
    by (intros src Hsrc; apply Hsub; by right).
  rewrite AutogazelleFacts.io_bind_eq.
  destruct (restoreFile_returns fuel (filepath_Join dir file)
              (destOf (filepath_Join dir file)) w) as (res & w1 & Hrun).
  { intros Heq. apply (apart _ Hin). by rewrite <- Heq. }
  { intros B. rewrite Hsame by done. by apply rounds. }
  cbv beta in Hrun. rewrite Hrun.
  pose proof (restoreFile_keeps _ _ _ _ _ _ Hrun) as Hkeeps.
  set (w2 := match res with Some err => addLog err w1 | None => w1 end).
  assert (match res with
          | Some err => logPrint err
          | None => mret tt
          end w1 = Some (tt, w2)) as -> by (by destruct res).
  apply IH; [done|]. intros src Hsrc.
  assert (files w2 = files w1) as -> by (by destruct res).
  rewrite Hkeeps; [by apply Hsame|].
  intros ->. by apply (apart _ Hin).
Qed.

Lemma walk_returns : ∀ visited w,
  templates visited ⊆ srcs →
  (∀ src, src ∈ srcs → files w !! src = files w0 !! src) →
  ∃ w', forEach (λ '(dir, regularFiles),
                   _ ← perform (OpWalkFunc dir regularFiles);
                   forEach (restoreIn fuel dir) regularFiles) visited w
        = Some (tt, w').
Proof.
  induction visited as [|[dir regularFiles] visited IH]; intros w Hsub Hsame.
  { by exists w. }
  rewrite templates_cons in Hsub.
  cbn [forEach]. rewrite !AutogazelleFacts.io_bind_eq.
  unfold perform at 1. cbv beta iota.
  destruct (restoreIn_returns dir regularFiles
              (addOp (OpWalkFunc dir regularFiles) w))
    as (w1 & Hrun1 & Hsame1); [|done|].
  { intros src Hsrc. apply Hsub, elem_of_app. by left. }
  cbv zeta in Hrun1 |- *. rewrite Hrun1.
  apply IH; [|done]. intros src Hsrc. apply Hsub, elem_of_app. by right.
Qed.

End Returns.

(** X22: [restoreBuildFilesInRepo] returns whatever the system fails, when
    no file it writes is itself one of the templates the walk lists and
    [io.Copy] has a round for each byte of a template and one more. *)
Theorem restoreBuildFilesInRepo_returns fuel root w :
  let srcs := templates (walk_Walk root) in
  filepath_Abs "." = Ok root →
  (∀ src, src ∈ srcs → TrimSuffix src ".in" ∉ srcs) →
  (∀ src B, src ∈ srcs → files w !! src = Some B → length B < fuel) →
  ∃ w', restoreBuildFilesInRepo fuel w = Some (tt, w').
Proof.
  intros srcs Habs Hapart Hrounds.
  unfold restoreBuildFilesInRepo, walkWorkspace. rewrite Habs.
  by apply (walk_returns fuel w srcs).
Qed.

End Facts.

Import AutogazelleExample.

Lemma restoreFile_frame_witness :
  ∃ w',
    @restoreFile goodSys 14 "/work/BUILD.in" "/work/BUILD" workspace
    = Some (None, w')
    ∧ log w' = []
    ∧ files w' !! "/work/main.go" = Some (bytes_of "package main")
    ∧ files w' !! "/work/BUILD.in" = Some template.
Proof.
  eexists. split; [vm_compute; reflexivity|].
  lazymatch goal with
  | |- log ?w' = _ ∧ _ =>
      destruct (restoreFile_frame (sys := goodSys) 14
                  "/work/BUILD.in" "/work/BUILD" workspace None w')
        as (Hlog & Hframe & Hsrc); [vm_compute; reflexivity|]
  end.
  split_and!.
  - exact Hlog.
  - rewrite Hframe by discriminate. reflexivity.
  - rewrite Hsrc by discriminate. reflexivity.
Defined.

Lemma restoreFile_trace_witness :
  ∃ w',
    @restoreFile goodSys 14 "/work/BUILD.in" "/work/BUILD" workspace
    = Some (None, w')
    ∧ (ops w' = [OpOpen "/work/BUILD.in"]
       ∨ ops w' = [OpOpen "/work/BUILD.in"; OpCreate "/work/BUILD";
                   OpClose "/work/BUILD.in"]
       ∨ ∃ rw,
           ops w' = OpOpen "/work/BUILD.in" :: OpCreate "/work/BUILD"
                    :: OpWrite "/work/BUILD"
                         (bytes_of (@header goodSys "/work/BUILD.in"))
                    :: rw ++ [OpClose "/work/BUILD"; OpClose "/work/BUILD.in"]
           ∧ Forall (@copyOp "/work/BUILD.in" "/work/BUILD") rw).
Proof.
  eexists. split; [vm_compute; reflexivity|].
  lazymatch goal with
  | |- ops ?w' = _ ∨ _ =>
      exact (restoreFile_trace (sys := goodSys) 14
               "/work/BUILD.in" "/work/BUILD" workspace None w' eq_refl)
  end.
Defined.

Lemma restoreFile_nil_no_fault_witness :
  ∃ w',
    @restoreFile goodSys 14 "/work/BUILD.in" "/work/BUILD" workspace
    = Some (None, w')
    ∧ (∃ before,
         ops w'
         = before ++ [OpClose "/work/BUILD"; OpClose "/work/BUILD.in"])
    ∧ @fault goodSys 3 = None.
Proof.
  eexists. split; [vm_compute; reflexivity|].
  lazymatch goal with
  | |- (∃ before, ops ?w' = _) ∧ _ =>
      destruct (restoreFile_nil_no_fault (sys := goodSys) 14
                  "/work/BUILD.in" "/work/BUILD" workspace w')
        as [Hclosed Hok]; [vm_compute; reflexivity|]
  end.
  split; [exact Hclosed|]. apply Hok. vm_compute. lia.
Defined.

Lemma restoreFile_dest_witness :
  ∃ w',
    @restoreFile goodSys 14 "/work/BUILD.in" "/work/BUILD" workspace
    = Some (None, w')
    ∧ files w' !! "/work/BUILD"
      = Some (bytes_of (@header goodSys "/work/BUILD.in") ++ template).
Proof.
  eexists. split; [vm_compute; reflexivity|].
  lazymatch goal with
  | |- files ?w' !! _ = _ =>
      destruct (restoreFile_dest (sys := goodSys) 14
                  "/work/BUILD.in" "/work/BUILD" workspace template None w')
        as [[[Hf|Hf] _]|(_ & _ & _ & Hall)];
        [discriminate|reflexivity|vm_compute; reflexivity|..]
  end.
  - exfalso. by apply Hf.
  - exfalso. by apply Hf.
  - by apply Hall.
Defined.

Lemma restoreBuildFilesInDir_frame_witness :
  ∃ w',
    @restoreBuildFilesInDir goodSys 14 "/work" workspace = Some (tt, w')
    ∧ files w' !! "/work/main.go" = Some (bytes_of "package main")
    ∧ files w' !! "/work/BUILD.in" = Some template
    ∧ ∃ errs, log w' = errs ∧ length errs ≤ 2.
Proof.
  eexists. split; [vm_compute; reflexivity|].
  lazymatch goal with
  | |- files ?w' !! _ = _ ∧ _ =>
      destruct (restoreBuildFilesInDir_frame (sys := goodSys) 14
                  "/work" workspace w')
        as (Hframe & errs & Hlog & Hlen); [vm_compute; reflexivity|]
  end.
  split_and!.
  - rewrite Hframe by discriminate. reflexivity.
  - rewrite Hframe by discriminate. reflexivity.
  - exists errs. split; [exact Hlog|exact Hlen].
Defined.

Lemma restoreBuildFilesInDir_writes_witness :
  ∃ w',
    @restoreBuildFilesInDir goodSys 14 "/work" workspace = Some (tt, w')
    ∧ log w' = []
    ∧ files w' !! "/work/BUILD.bazel" = None
    ∧ files w' !! "/work/BUILD"
      = Some (bytes_of (@header goodSys "/work/BUILD.in") ++ template).
Proof.
  destruct (restoreBuildFilesInDir_writes (sys := goodSys) 14
              "/work" workspace)
    as (w' & Hrun & Hlog & Hbazel & Hbuild).
  - reflexivity.
  - apply (bool_decide_unpack _). vm_compute. exact I.
  - intros base B Hbase Hthere.
    apply elem_of_cons in Hbase as [-> | Hbase].
    { vm_compute in Hthere. discriminate Hthere. }
    apply list_elem_of_singleton in Hbase as ->.
    vm_compute in Hthere. injection Hthere as <-. simpl. lia.
  - exists w'. split_and!; [exact Hrun|exact Hlog|exact Hbazel|exact Hbuild].
Defined.

Lemma restoreBuildFilesInRepo_templates_witness :
  ∃ w',
    @restoreBuildFilesInRepo goodSys 14 workspace = Some (tt, w')
    ∧ filter isOpen (ops w')
      = [OpOpen "/work/BUILD.in"; OpOpen "/work/pkg/BUILD.bazel.in"]
    ∧ files w' !! "/work/main.go" = Some (bytes_of "package main")
    ∧ ∃ errs, log w' = errs ∧ length errs ≤ 2.
Proof.
  eexists. split; [vm_compute; reflexivity|].
  lazymatch goal with
  | |- filter _ (ops ?w') = _ ∧ _ =>
      destruct (restoreBuildFilesInRepo_templates (sys := goodSys) 14
                  "/work" workspace w')
        as (Hopen & Hframe & errs & Hlog & Hlen);
        [reflexivity|vm_compute; reflexivity|]
  end.
  split_and!.
  - exact Hopen.
  - rewrite Hframe; [reflexivity|].
    apply (bool_decide_unpack _). vm_compute. exact I.
  - exists errs. split; [exact Hlog|exact Hlen].
Defined.

Lemma restoreBuildFilesInRepo_restores_witness :
  ∃ w',
    @restoreBuildFilesInRepo goodSys 14 repository = Some (tt, w')
    ∧ log w' = []
    ∧ files w' !! "/work/BUILD"
      = Some (bytes_of (@header goodSys "/work/BUILD.in") ++ template)
    ∧ files w' !! "/work/pkg/BUILD.bazel"
      = Some (bytes_of (@header goodSys "/work/pkg/BUILD.bazel.in")
              ++ bytes_of "filegroup()")
    ∧ files w' !! "/work/pkg/pkg.go" = Some (bytes_of "package pkg").
Proof.
  assert (∀ src, src ∈ @templates goodSys (@walk_Walk goodSys "/work") →
                 src = "/work/BUILD.in" ∨ src = "/work/pkg/BUILD.bazel.in")
    as Hsrcs.
  { intros src Hin. change (src ∈ ["/work/BUILD.in";
                                    "/work/pkg/BUILD.bazel.in"]) in Hin.
    apply elem_of_cons in Hin as [-> | Hin]; [by left|].
    apply list_elem_of_singleton in Hin as ->. by right. }
  destruct (restoreBuildFilesInRepo_restores (sys := goodSys) 14
              "/work" repository)
    as (w' & Hrun & Hlog & Hput & Hframe).
  - reflexivity.
  - reflexivity.
  - intros src [-> | ->]%Hsrcs; eexists; (split; [reflexivity|simpl; lia]).
  - intros src [-> | ->]%Hsrcs;
      apply (bool_decide_unpack _); vm_compute; exact I.
  - intros src src' [-> | ->]%Hsrcs [-> | ->]%Hsrcs Heq;
      [reflexivity|vm_compute in Heq; discriminate Heq
      |vm_compute in Heq; discriminate Heq|reflexivity].
  - exists w'. split_and!.
    + exact Hrun.
    + exact Hlog.
    + apply (Hput "/work/BUILD.in" template); [|reflexivity].
      apply (bool_decide_unpack _). vm_compute. exact I.
    + apply (Hput "/work/pkg/BUILD.bazel.in" (bytes_of "filegroup()"));
        [|reflexivity].
      apply (bool_decide_unpack _). vm_compute. exact I.
    + rewrite Hframe; [reflexivity|].
      apply (bool_decide_unpack _). vm_compute. exact I.
Defined.

Lemma restoreFile_returns_witness :
  ∃ res w',
    @restoreFile fullDisk 14 "/work/BUILD.in" "/work/BUILD" workspace
    = Some (res, w').
Proof.
  apply (restoreFile_returns (sys := fullDisk) 14
           "/work/BUILD.in" "/work/BUILD" workspace).
  - discriminate.
  - intros B HB. vm_compute in HB. injection HB as <-. simpl. lia.
Defined.

Lemma restoreBuildFilesInDir_returns_witness :
  ∃ w', @restoreBuildFilesInDir fullDisk 14 "/work" workspace = Some (tt, w').
Proof.
  apply (restoreBuildFilesInDir_returns (sys := fullDisk) 14
           "/work" workspace).
  - discriminate.
  - discriminate.
  - discriminate.
  - intros base B Hbase Hthere.
    apply elem_of_cons in Hbase as [-> | Hbase].
    { vm_compute in Hthere. discriminate Hthere. }
    apply list_elem_of_singleton in Hbase as ->.
    vm_compute in Hthere. injection Hthere as <-. simpl. lia.
Defined.

Lemma restoreBuildFilesInRepo_returns_witness :
  ∃ w', @restoreBuildFilesInRepo fullDisk 14 workspace = Some (tt, w').
Proof.
  assert (∀ src, src ∈ @templates fullDisk (@walk_Walk fullDisk "/work") →
                 src = "/work/BUILD.in" ∨ src = "/work/pkg/BUILD.bazel.in")
    as Hsrcs.
  { intros src Hin. change (src ∈ ["/work/BUILD.in";
                                    "/work/pkg/BUILD.bazel.in"]) in Hin.
    apply elem_of_cons in Hin as [-> | Hin]; [by left|].
    apply list_elem_of_singleton in Hin as ->. by right. }
  apply (restoreBuildFilesInRepo_returns (sys := fullDisk) 14
           "/work" workspace).
  - reflexivity.
  - intros src [-> | ->]%Hsrcs;
      apply (bool_decide_unpack _); vm_compute; exact I.
  - intros src B [-> | ->]%Hsrcs Hthere.
    + vm_compute in Hthere. injection Hthere as <-. simpl. lia.
    + vm_compute in Hthere. discriminate Hthere.
Defined.

Lemma template_destination_witness :
  isTemplate "BUILD.in" = true
  ∧ TrimSuffix ("/work/" +:+ "BUILD.in") ".in" +:+ ".in"
    = "/work/" +:+ "BUILD.in"
  ∧ TrimSuffix ("/work/" +:+ "BUILD.in") ".in" ≠ "/work/" +:+ "BUILD.in".
Proof.
  split; [reflexivity|].
  exact (proj2 (template_destination "/work/" "BUILD.in" eq_refl)).
Defined.

Lemma header_names_base_witness :
  @header goodSys ("/work/pkg" +:+ "/" +:+ "BUILD.bazel.in")
  = "# This file was generated from BUILD.bazel.in" +:+ nl
    +:+ "# by autogazelle" +:+ nl
    +:+ "# DO NOT EDIT" +:+ nl +:+ nl.
Proof.
  apply (header_names_base (sys := goodSys) "/work/pkg" "BUILD.bazel.in").
  - discriminate.
  - apply (bool_decide_unpack _). vm_compute. exact I.
Defined.

End AutogazelleMore.
